(** * Planning poker: the room store, its in-memory stand-in and the
      request handler

    A shallow embedding of [lib/types.ts], [lib/redis.ts],
    [lib/redis-mock.ts] and [app/api/rooms/[roomId]/route.ts], and the
    properties of the room specification proved (or refuted) on it.

    Conventions of the embedding.
    - JavaScript numbers that hold epoch milliseconds are integers ([Z]).
    - An [async] function is a computation in the monad [M]: it threads the
      world (the clock and the storage backend) and either returns a value
      or throws.  Requests are handled one at a time; interleavings of
      concurrent requests are outside the model.
    - [Date.now()] is an oracle: the world carries the sequence of readings
      the program will obtain, and every call consumes one.  Nothing is
      assumed about the readings unless a statement says so. *)

From Stdlib Require Import ZArith String List Bool Lia.
From stdpp Require Import gmap strings list fin_maps.

Local Open Scope string_scope.

(* ===================================================================== *)
(** ** lib/types.ts *)
(* ===================================================================== *)

Record Player := mkPlayer {
  id : string;
  name : string;
  vote : option string;        (* string | null *)
  hasVoted : bool;
  lastSeen : Z
}.

Record GameState := mkGameState {
  players : list Player;
  revealed : bool;
  roomId : string;
  createdAt : Z;
  lastActivity : Z
}.

(** Field assignments ([room.players = ...]) and object spreads
    ([{ ...p, lastSeen: t }]). *)
Definition set_players (ps : list Player) (g : GameState) : GameState :=
  {| players := ps; revealed := revealed g; roomId := roomId g;
     createdAt := createdAt g; lastActivity := lastActivity g |}.

Definition set_revealed (b : bool) (g : GameState) : GameState :=
  {| players := players g; revealed := b; roomId := roomId g;
     createdAt := createdAt g; lastActivity := lastActivity g |}.

Definition set_lastActivity (t : Z) (g : GameState) : GameState :=
  {| players := players g; revealed := revealed g; roomId := roomId g;
     createdAt := createdAt g; lastActivity := t |}.

Definition set_lastSeen (t : Z) (p : Player) : Player :=
  {| id := id p; name := name p; vote := vote p; hasVoted := hasVoted p;
     lastSeen := t |}.

(** [{ ...p, vote, hasVoted: true, lastSeen: t }] *)
Definition cast_vote (v : string) (t : Z) (p : Player) : Player :=
  {| id := id p; name := name p; vote := Some v; hasVoted := true;
     lastSeen := t |}.

(** [{ ...p, vote: null, hasVoted: false, lastSeen: t }] *)
Definition clear_vote (t : Z) (p : Player) : Player :=
  {| id := id p; name := name p; vote := None; hasVoted := false;
     lastSeen := t |}.

(* ===================================================================== *)
(** ** Computations: state, exceptions, the clock *)
(* ===================================================================== *)

(** What a rejected promise carries.  [KvError]: the key-value service
    failed; [SyntaxError]: [request.json()] could not parse the body. *)
Inductive Exn := KvError | SyntaxError.

Inductive Outcome (W A : Type) : Type :=
| Ok (a : A) (w : W)
| Threw (e : Exn) (w : W).
Arguments Ok {W A} a w.
Arguments Threw {W A} e w.

Definition M (W A : Type) : Type := W -> Outcome W A.

Definition ret {W A} (a : A) : M W A := fun w => Ok a w.

Definition bind {W A B} (m : M W A) (k : A -> M W B) : M W B :=
  fun w => match m w with
           | Ok a w' => k a w'
           | Threw e w' => Threw e w'
           end.

Definition throw {W A} (e : Exn) : M W A := fun w => Threw e w.

(** [try { m } catch (error) { h error }] *)
Definition try_catch {W A} (m : M W A) (h : Exn -> M W A) : M W A :=
  fun w => match m w with
           | Ok a w' => Ok a w'
           | Threw e w' => h e w'
           end.

Notation "x <- m ;; k" := (bind m (fun x => k))
  (at level 100, m at next level, right associativity).
Notation "m ;;; k" := (bind m (fun _ => k))
  (at level 100, right associativity).

(** [l.map(f)] where the callback may read the clock: left to right. *)
Fixpoint mapM {W A B} (f : A -> M W B) (l : list A) : M W (list B) :=
  match l with
  | [] => ret []
  | x :: l' => y <- f x ;; ys <- mapM f l' ;; ret (y :: ys)
  end.

(** The world after a computation, whatever its outcome. *)
Definition world_of {W A} (o : Outcome W A) : W :=
  match o with Ok _ w => w | Threw _ w => w end.

(** The world: the readings [Date.now()] will return, how many were
    consumed, and the storage backend. *)
Record World (S : Type) := mkWorld {
  clock : nat -> Z;
  tick : nat;
  backend : S
}.
Arguments mkWorld {S} clock tick backend.
Arguments clock {S} w n.
Arguments tick {S} w.
Arguments backend {S} w.

Definition Date_now {S} : M (World S) Z :=
  fun w => Ok (clock w (tick w)) (mkWorld (clock w) (Datatypes.S (tick w)) (backend w)).

Definition set_backend {S} (b : S) (w : World S) : World S :=
  mkWorld (clock w) (tick w) b.

(** [arr.findIndex(pred)]: the first index whose element satisfies the
    predicate, [-1] when there is none. *)
Fixpoint findIndex {A} (pred : A -> bool) (l : list A) : Z :=
  match l with
  | [] => (-1)%Z
  | x :: l' =>
      if pred x then 0%Z
      else let i := findIndex pred l' in
           if (i <? 0)%Z then (-1)%Z else (i + 1)%Z
  end.

(* ===================================================================== *)
(** ** The key-value service behind [@vercel/kv] *)
(* ===================================================================== *)

(** A stored value with the seconds it has left to live. *)
Record Entry := mkEntry { value : GameState; ttl : Z }.

(** The service: its records; which of its calls fail ([outage n] tells
    whether the [n]-th call is rejected); the number of calls made. *)
Record KV := mkKV {
  data : gmap string Entry;
  outage : nat -> bool;
  calls : nat
}.

(** [kv.get<GameState>(key)]: a copy of the stored value, or null. *)
Definition kv_get (key : string) : M (World KV) (option GameState) :=
  fun w =>
    let s := backend w in
    let s' := mkKV (data s) (outage s) (S (calls s)) in
    if outage s (calls s) then Threw KvError (set_backend s' w)
    else Ok (value <$> data s !! key) (set_backend s' w).

(** [kv.set(key, v, { ex })]: stores a copy that lives [ex] seconds. *)
Definition kv_set (key : string) (v : GameState) (ex : Z) : M (World KV) unit :=
  fun w =>
    let s := backend w in
    if outage s (calls s)
    then Threw KvError (set_backend (mkKV (data s) (outage s) (S (calls s))) w)
    else Ok tt (set_backend
                  (mkKV (<[key := mkEntry v ex]> (data s)) (outage s) (S (calls s))) w).

(** The service's own passing of time, [secs] seconds: records whose time
    to live is used up disappear, the others have less left. *)
Definition kv_elapse (secs : Z) (s : KV) : KV :=
  mkKV ((fun e => mkEntry (value e) (ttl e - secs)%Z)
          <$> filter (fun kv => (secs < ttl (snd kv))%Z) (data s))
       (outage s) (calls s).

(* ===================================================================== *)
(** ** lib/redis.ts *)
(* ===================================================================== *)

Module Redis.

Definition ROOM_EXPIRY : Z := 60 * 60 * 24.
Definition PLAYER_TIMEOUT : Z := 60 * 5.

Definition room_key (roomId : string) : string := "room:" ++ roomId.

(** [state.lastActivity = Date.now()] assigns into the caller's object:
    the updated record is handed back so that the caller's [room] shows
    it, as in the source. *)
Definition updateRoom (roomId : string) (state : GameState)
  : M (World KV) GameState :=
  t <- Date_now ;;
  let state := set_lastActivity t state in
  kv_set (room_key roomId) state ROOM_EXPIRY ;;;
  ret state.

Definition getRoom (roomId : string) : M (World KV) (option GameState) :=
  r <- kv_get (room_key roomId) ;;
  match r with
  | None => ret None
  | Some room =>
      now <- Date_now ;;
      let activePlayers :=
        filter (fun p => (now - lastSeen p < PLAYER_TIMEOUT * 1000)%Z)
               (players room) in
      if negb (length activePlayers =? length (players room))%nat then
        room <- updateRoom roomId (set_players activePlayers room) ;;
        ret (Some room)
      else ret (Some room)
  end.

Definition createRoom (roomId : string) : M (World KV) GameState :=
  t1 <- Date_now ;;
  t2 <- Date_now ;;
  let room := {| players := []; revealed := false; roomId := roomId;
                 createdAt := t1; lastActivity := t2 |} in
  kv_set (room_key roomId) room ROOM_EXPIRY ;;;
  ret room.

Definition addPlayer (roomId : string) (player : Player)
  : M (World KV) GameState :=
  r <- getRoom roomId ;;
  room <- match r with
          | None => createRoom roomId
          | Some room => ret room
          end ;;
  let existingIndex :=
    findIndex (fun p => String.eqb (id p) (id player)) (players room) in
  (* a non-negative [existingIndex] is a position of the list: the
     assignment overwrites an entry and never extends the array *)
  ps <- (if (0 <=? existingIndex)%Z then
           t <- Date_now ;;
           ret (<[Z.to_nat existingIndex := set_lastSeen t player]> (players room))
         else
           t <- Date_now ;;
           ret (players room ++ [set_lastSeen t player])%list) ;;
  updateRoom roomId (set_players ps room).

Definition updatePlayerVote (roomId playerId vote : string)
  : M (World KV) (option GameState) :=
  r <- getRoom roomId ;;
  match r with
  | None => ret None
  | Some room =>
      ps <- mapM (fun p => if String.eqb (id p) playerId
                           then t <- Date_now ;; ret (cast_vote vote t p)
                           else ret p)
                 (players room) ;;
      room <- updateRoom roomId (set_players ps room) ;;
      ret (Some room)
  end.

Definition toggleReveal (roomId : string) : M (World KV) (option GameState) :=
  r <- getRoom roomId ;;
  match r with
  | None => ret None
  | Some room =>
      room <- updateRoom roomId (set_revealed (negb (revealed room)) room) ;;
      ret (Some room)
  end.

Definition resetVotes (roomId : string) : M (World KV) (option GameState) :=
  r <- getRoom roomId ;;
  match r with
  | None => ret None
  | Some room =>
      ps <- mapM (fun p => t <- Date_now ;; ret (clear_vote t p))
                 (players room) ;;
      room <- updateRoom roomId (set_revealed false (set_players ps room)) ;;
      ret (Some room)
  end.

Definition updatePlayerHeartbeat (roomId playerId : string)
  : M (World KV) unit :=
  r <- getRoom roomId ;;
  match r with
  | None => ret tt
  | Some room =>
      ps <- mapM (fun p => if String.eqb (id p) playerId
                           then t <- Date_now ;; ret (set_lastSeen t p)
                           else ret p)
                 (players room) ;;
      updateRoom roomId (set_players ps room) ;;;
      ret tt
  end.

End Redis.

(* ===================================================================== *)
(** ** lib/redis-mock.ts *)
(* ===================================================================== *)

(** The module-level [rooms] map of the stand-in.  The map holds object
    references and the functions below assign to fields of the object they
    obtained from it; every one of them that assigns also ends by storing
    that very object back under the key it came from, so that once a call
    has returned the map reads as if the final value had been written: the
    embedding keeps values in the map.  A record stays until it is
    overwritten: there is no time to live.

    This reading by value is exact as long as no room object is held under
    two keys, which is so in every map the request handler builds.  Only a
    caller that hands [updateRoom] an object held under another key makes
    two rooms share one object; [RedisMockRef] below keeps the references
    and shows both. *)
Abbreviation Rooms := (gmap string GameState).

Module RedisMock.

Definition ROOM_EXPIRY : Z := 60 * 60 * 24.
Definition PLAYER_TIMEOUT : Z := 60 * 5.

Definition room_key (roomId : string) : string := "room:" ++ roomId.

(** [rooms.get(key)] and [rooms.set(key, v)] *)
Definition rooms_get (key : string) : M (World Rooms) (option GameState) :=
  fun w => Ok (backend w !! key) w.

Definition rooms_set (key : string) (v : GameState) : M (World Rooms) unit :=
  fun w => Ok tt (set_backend (<[key := v]> (backend w)) w).

Definition updateRoom (roomId : string) (state : GameState)
  : M (World Rooms) GameState :=
  t <- Date_now ;;
  let state := set_lastActivity t state in
  rooms_set (room_key roomId) state ;;;
  ret state.

Definition getRoom (roomId : string) : M (World Rooms) (option GameState) :=
  r <- rooms_get (room_key roomId) ;;
  match r with
  | None => ret None
  | Some room =>
      now <- Date_now ;;
      let activePlayers :=
        filter (fun p => (now - lastSeen p < PLAYER_TIMEOUT * 1000)%Z)
               (players room) in
      if negb (length activePlayers =? length (players room))%nat then
        room <- updateRoom roomId (set_players activePlayers room) ;;
        ret (Some room)
      else ret (Some room)
  end.

Definition createRoom (roomId : string) : M (World Rooms) GameState :=
  t1 <- Date_now ;;
  t2 <- Date_now ;;
  let room := {| players := []; revealed := false; roomId := roomId;
                 createdAt := t1; lastActivity := t2 |} in
  rooms_set (room_key roomId) room ;;;
  ret room.

Definition addPlayer (roomId : string) (player : Player)
  : M (World Rooms) GameState :=
  r <- getRoom roomId ;;
  room <- match r with
          | None => createRoom roomId
          | Some room => ret room
          end ;;
  let existingIndex :=
    findIndex (fun p => String.eqb (id p) (id player)) (players room) in
  let ps := if (0 <=? existingIndex)%Z
            then <[Z.to_nat existingIndex := player]> (players room)
            else (players room ++ [player])%list in
  updateRoom roomId (set_players ps room).

Definition updatePlayerVote (roomId playerId vote : string)
  : M (World Rooms) (option GameState) :=
  r <- getRoom roomId ;;
  match r with
  | None => ret None
  | Some room =>
      ps <- mapM (fun p => if String.eqb (id p) playerId
                           then t <- Date_now ;; ret (cast_vote vote t p)
                           else ret p)
                 (players room) ;;
      room <- updateRoom roomId (set_players ps room) ;;
      ret (Some room)
  end.

Definition toggleReveal (roomId : string) : M (World Rooms) (option GameState) :=
  r <- getRoom roomId ;;
  match r with
  | None => ret None
  | Some room =>
      room <- updateRoom roomId (set_revealed (negb (revealed room)) room) ;;
      ret (Some room)
  end.

Definition resetVotes (roomId : string) : M (World Rooms) (option GameState) :=
  r <- getRoom roomId ;;
  match r with
  | None => ret None
  | Some room =>
      ps <- mapM (fun p => t <- Date_now ;; ret (clear_vote t p))
                 (players room) ;;
      room <- updateRoom roomId (set_revealed false (set_players ps room)) ;;
      ret (Some room)
  end.

Definition updatePlayerHeartbeat (roomId playerId : string)
  : M (World Rooms) unit :=
  r <- getRoom roomId ;;
  match r with
  | None => ret tt
  | Some room =>
      ps <- mapM (fun p => if String.eqb (id p) playerId
                           then t <- Date_now ;; ret (set_lastSeen t p)
                           else ret p)
                 (players room) ;;
      updateRoom roomId (set_players ps room) ;;;
      ret tt
  end.

End RedisMock.

(* ===================================================================== *)
(** ** lib/redis-mock.ts, with the references the map holds *)
(* ===================================================================== *)

(** The stand-in as the program has it.  [rooms] is the [Map]: it holds,
    under a key, a reference to a room object.  [objs] is what each
    reference points to now; an assignment to a field of a room object
    changes it, and is seen through every key that holds the reference.
    [next_ref] is the reference the next object literal gets.

    The array of players is kept inside its room object, and players are
    kept by value: only [addPlayer] changes an array in place, every
    other function assigns a new array ([filter], [map]) to
    [room.players], and no function assigns into a player. *)
Record Heap := mkHeap {
  rooms : gmap string nat;
  objs : nat -> GameState;
  next_ref : nat
}.

Definition write_obj (l : nat) (g : GameState) (o : nat -> GameState)
  : nat -> GameState :=
  fun l' => if (l' =? l)%nat then g else o l'.

Module RedisMockRef.

Definition ROOM_EXPIRY : Z := 60 * 60 * 24.
Definition PLAYER_TIMEOUT : Z := 60 * 5.

Definition room_key (roomId : string) : string := "room:" ++ roomId.

(** [rooms.get(key)] and [rooms.set(key, room)]: references go in and
    out. *)
Definition rooms_get (key : string) : M (World Heap) (option nat) :=
  fun w => Ok (rooms (backend w) !! key) w.

Definition rooms_set (key : string) (room : nat) : M (World Heap) unit :=
  fun w =>
    let h := backend w in
    Ok tt (set_backend (mkHeap (<[key := room]> (rooms h)) (objs h) (next_ref h)) w).

(** Reading the fields of [room]; [room.field = ...], as the update [f]
    of the object; an object literal. *)
Definition read (room : nat) : M (World Heap) GameState :=
  fun w => Ok (objs (backend w) room) w.

Definition assign (room : nat) (f : GameState -> GameState) : M (World Heap) unit :=
  fun w =>
    let h := backend w in
    Ok tt (set_backend
             (mkHeap (rooms h) (write_obj room (f (objs h room)) (objs h)) (next_ref h)) w).

Definition new_object (g : GameState) : M (World Heap) nat :=
  fun w =>
    let h := backend w in
    Ok (next_ref h)
       (set_backend
          (mkHeap (rooms h) (write_obj (next_ref h) g (objs h)) (S (next_ref h))) w).

Definition updateRoom (roomId : string) (state : nat) : M (World Heap) unit :=
  t <- Date_now ;;
  assign state (set_lastActivity t) ;;;
  rooms_set (room_key roomId) state.

Definition getRoom (roomId : string) : M (World Heap) (option nat) :=
  r <- rooms_get (room_key roomId) ;;
  match r with
  | None => ret None
  | Some room =>
      now <- Date_now ;;
      g <- read room ;;
      let activePlayers :=
        filter (fun p => (now - lastSeen p < PLAYER_TIMEOUT * 1000)%Z)
               (players g) in
      if negb (length activePlayers =? length (players g))%nat then
        assign room (set_players activePlayers) ;;;
        updateRoom roomId room ;;;
        ret (Some room)
      else ret (Some room)
  end.

Definition createRoom (roomId : string) : M (World Heap) nat :=
  t1 <- Date_now ;;
  t2 <- Date_now ;;
  room <- new_object {| players := []; revealed := false; roomId := roomId;
                        createdAt := t1; lastActivity := t2 |} ;;
  rooms_set (room_key roomId) room ;;;
  ret room.

Definition addPlayer (roomId : string) (player : Player) : M (World Heap) nat :=
  r <- getRoom roomId ;;
  room <- match r with
          | None => createRoom roomId
          | Some room => ret room
          end ;;
  g <- read room ;;
  let existingIndex :=
    findIndex (fun p => String.eqb (id p) (id player)) (players g) in
  (if (0 <=? existingIndex)%Z
   then assign room (fun g => set_players (<[Z.to_nat existingIndex := player]> (players g)) g)
   else assign room (fun g => set_players (players g ++ [player])%list g)) ;;;
  updateRoom roomId room ;;;
  ret room.

Definition updatePlayerVote (roomId playerId vote : string)
  : M (World Heap) (option nat) :=
  r <- getRoom roomId ;;
  match r with
  | None => ret None
  | Some room =>
      g <- read room ;;
      ps <- mapM (fun p => if String.eqb (id p) playerId
                           then t <- Date_now ;; ret (cast_vote vote t p)
                           else ret p)
                 (players g) ;;
      assign room (set_players ps) ;;;
      updateRoom roomId room ;;;
      ret (Some room)
  end.

Definition toggleReveal (roomId : string) : M (World Heap) (option nat) :=
  r <- getRoom roomId ;;
  match r with
  | None => ret None
  | Some room =>
      assign room (fun g => set_revealed (negb (revealed g)) g) ;;;
      updateRoom roomId room ;;;
      ret (Some room)
  end.

Definition resetVotes (roomId : string) : M (World Heap) (option nat) :=
  r <- getRoom roomId ;;
  match r with
  | None => ret None
  | Some room =>
      g <- read room ;;
      ps <- mapM (fun p => t <- Date_now ;; ret (clear_vote t p))
                 (players g) ;;
      assign room (set_players ps) ;;;
      assign room (set_revealed false) ;;;
      updateRoom roomId room ;;;
      ret (Some room)
  end.

Definition updatePlayerHeartbeat (roomId playerId : string)
  : M (World Heap) unit :=
  r <- getRoom roomId ;;
  match r with
  | None => ret tt
  | Some room =>
      g <- read room ;;
      ps <- mapM (fun p => if String.eqb (id p) playerId
                           then t <- Date_now ;; ret (set_lastSeen t p)
                           else ret p)
                 (players g) ;;
      assign room (set_players ps) ;;;
      updateRoom roomId room
  end.

End RedisMockRef.

(* ===================================================================== *)
(** ** app/api/rooms/[roomId]/route.ts *)
(* ===================================================================== *)

Module Route.

(** The fields the handler takes out of the parsed body.  They are given
    the types of the parameters they are passed to ([Player.id],
    [Player.name], the [vote] of [updatePlayerVote]). *)
Record Body := mkBody {
  action : string;
  playerId : string;
  playerName : string;
  vote : string
}.

(** What [NextResponse.json(payload, { status })] answers; the status is
    200 when none is given. *)
Inductive Json :=
| RoomJson (room : GameState)
| SuccessJson                        (* { success: true } *)
| ErrorJson (error : string).        (* { error: ... } *)

Record Response := mkResponse { payload : Json; status : Z }.

(** The functions [route.ts] takes from the module it required, either
    [@/lib/redis] or [@/lib/redis-mock]. *)
Record Service (S : Type) := mkService {
  getRoom : string -> M (World S) (option GameState);
  addPlayer : string -> Player -> M (World S) GameState;
  updatePlayerVote : string -> string -> string -> M (World S) (option GameState);
  toggleReveal : string -> M (World S) (option GameState);
  resetVotes : string -> M (World S) (option GameState);
  updatePlayerHeartbeat : string -> string -> M (World S) unit
}.
Arguments getRoom {S} _ _.
Arguments addPlayer {S} _ _ _.
Arguments updatePlayerVote {S} _ _ _ _.
Arguments toggleReveal {S} _ _.
Arguments resetVotes {S} _ _.
Arguments updatePlayerHeartbeat {S} _ _ _.

Section Handlers.
Context {S : Type} (redis : Service S).

Definition not_found : Response := mkResponse (ErrorJson "Room not found") 404.

Definition GET (roomId : string) : M (World S) Response :=
  room <- getRoom redis roomId ;;
  match room with
  | None => ret not_found
  | Some room => ret (mkResponse (RoomJson room) 200)
  end.

(** [parsed] is what [await request.json()] gives: the body, or nothing
    when the request does not carry JSON (the promise is rejected). *)
Definition POST (roomId : string) (parsed : option Body) : M (World S) Response :=
  body <- match parsed with
          | Some b => ret b
          | None => throw SyntaxError
          end ;;
  try_catch
    (if String.eqb (action body) "join" then
       t <- Date_now ;;
       let player := mkPlayer (playerId body) (playerName body) None false t in
       room <- addPlayer redis roomId player ;;
       ret (mkResponse (RoomJson room) 200)
     else if String.eqb (action body) "vote" then
       room <- updatePlayerVote redis roomId (playerId body) (vote body) ;;
       match room with
       | None => ret not_found
       | Some room => ret (mkResponse (RoomJson room) 200)
       end
     else if String.eqb (action body) "reveal" then
       room <- toggleReveal redis roomId ;;
       match room with
       | None => ret not_found
       | Some room => ret (mkResponse (RoomJson room) 200)
       end
     else if String.eqb (action body) "reset" then
       room <- resetVotes redis roomId ;;
       match room with
       | None => ret not_found
       | Some room => ret (mkResponse (RoomJson room) 200)
       end
     else if String.eqb (action body) "heartbeat" then
       updatePlayerHeartbeat redis roomId (playerId body) ;;;
       ret (mkResponse SuccessJson 200)
     else
       ret (mkResponse (ErrorJson "Invalid action") 400))
    (fun error =>
       (* console.error('API Error:', error) *)
       ret (mkResponse (ErrorJson "Internal server error") 500)).

End Handlers.

(** [useRealRedis ? require('@/lib/redis') : require('@/lib/redis-mock')] *)
Definition real : Service KV :=
  mkService KV Redis.getRoom Redis.addPlayer Redis.updatePlayerVote
            Redis.toggleReveal Redis.resetVotes Redis.updatePlayerHeartbeat.

Definition mock : Service Rooms :=
  mkService Rooms RedisMock.getRoom RedisMock.addPlayer
            RedisMock.updatePlayerVote RedisMock.toggleReveal
            RedisMock.resetVotes RedisMock.updatePlayerHeartbeat.

End Route.

(* ===================================================================== *)
(** ** components/planning-poker.tsx: what the component derives from the
       room it polled *)
(* ===================================================================== *)

Module PlanningPoker.

(** [players.every((p) => p.hasVoted)] *)
Definition allVoted (players : list Player) : bool :=
  forallb hasVoted players.

(** [players.filter((p) => p.hasVoted).length] *)
Definition votedCount (players : list Player) : nat :=
  length (List.filter hasVoted players).

(** [new Set(players.map((p) => p.vote)).size === 1]: a [Set] keeps one
    copy of equal strings and one of [null]. *)
Definition unanimous (players : list Player) : bool :=
  (length (remove_dups (vote <$> players)) =? 1)%nat.

(** What a player's card shows. *)
Inductive Face :=
| ShowVote (v : string)     (* the vote, in the open *)
| CardBack                  (* a card, face down *)
| Dash.                     (* no card *)

(** [revealed && player.vote ? vote : player.hasVoted ? back : dash].
    [player.vote] counts as true when it is neither [null] nor the empty
    string. *)
Definition cardFace (revealed : bool) (player : Player) : Face :=
  let rest := if hasVoted player then CardBack else Dash in
  match vote player with
  | Some v => if revealed && negb (String.eqb v "") then ShowVote v else rest
  | None => rest
  end.

(** [revealed && allVoted]: whether the card with the average and the
    consensus is rendered. *)
Definition showSummary (revealed : bool) (players : list Player) : bool :=
  revealed && allVoted players.

End PlanningPoker.

(* ===================================================================== *)
(** ** Requests *)
(* ===================================================================== *)

(** A request: the fetch of the room state, or an action. *)
Inductive Request :=
| Get (roomId : string)
| Post (roomId : string) (parsed : option Route.Body).

Definition handle {S} (svc : Route.Service S) (q : Request)
  : M (World S) Route.Response :=
  match q with
  | Get r => Route.GET svc r
  | Post r parsed => Route.POST svc r parsed
  end.

(** The world after a sequence of requests, served one after the
    other. *)
Fixpoint serve {S} (svc : Route.Service S) (qs : list Request) (w : World S)
  : World S :=
  match qs with
  | [] => w
  | q :: qs' => serve svc qs' (world_of (handle svc q w))
  end.

(* ===================================================================== *)
(** ** The vocabulary of the statements *)
(* ===================================================================== *)

(** The record the service holds for a room, and a service that rejects
    no call. *)
Definition stored (w : World KV) (r : string) : option GameState :=
  value <$> data (backend w) !! Redis.room_key r.

Definition healthy (w : World KV) : Prop :=
  forall n, outage (backend w) n = false.

(** The players that are kept at the reading [now]: the filter of
    [getRoom], with its constants multiplied out. *)
Definition active_at (now : Z) (ps : list Player) : list Player :=
  filter (fun p => (now - lastSeen p < 300000)%Z) ps.

(** What [l.map(p => c(p) ? g(Date.now(), p) : p)] computes when the
    clock readings are [clk n], [clk (n+1)], ...: one reading for every
    element the condition selects. *)
Fixpoint stamp (c : Player -> bool) (g : Z -> Player -> Player)
         (clk : nat -> Z) (n : nat) (l : list Player) : list Player :=
  match l with
  | [] => []
  | p :: l' => if c p then g (clk n) p :: stamp c g clk (S n) l'
               else p :: stamp c g clk n l'
  end.

Fixpoint hits (c : Player -> bool) (l : list Player) : nat :=
  match l with
  | [] => 0
  | p :: l' => if c p then S (hits c l') else hits c l'
  end.

(** What [addPlayer] leaves of the list it was given: the entry at the
    first position that carries the player's id is overwritten, and when
    there is none the player goes to the end. *)
Definition upsert (q : Player) (ps : list Player) : list Player :=
  let existingIndex := findIndex (fun p => String.eqb (id p) (id q)) ps in
  if (0 <=? existingIndex)%Z then <[Z.to_nat existingIndex := q]> ps
  else (ps ++ [q])%list.

(** The invariant: in every record the players' ids are pairwise
    distinct. *)
Definition unique_ids (g : GameState) : Prop := NoDup (id <$> players g).

Definition unique_kv (w : World KV) : Prop :=
  forall k e, data (backend w) !! k = Some e -> unique_ids (value e).

Definition unique_rooms (w : World Rooms) : Prop :=
  forall k g, backend w !! k = Some g -> unique_ids g.

(** [triple I m Q]: started in a world that satisfies [I], the computation
    [m] ends in a world that satisfies [I], whether it returns or throws,
    and what it returns satisfies [Q]. *)
Definition triple {W A} (I : W -> Prop) (m : M W A) (Q : A -> Prop) : Prop :=
  forall w, I w ->
    match m w with
    | Ok a w' => I w' /\ Q a
    | Threw _ w' => I w'
    end.

(** The two worlds agree: the same clock, read equally far; a service
    that answers; and under every key the same room. *)
Definition agree (wr : World KV) (wm : World Rooms) : Prop :=
  (forall n, clock wr n = clock wm n) /\
  tick wr = tick wm /\
  healthy wr /\
  (forall k, value <$> data (backend wr) !! k = backend wm !! k).

Definition agree_out {A} (o1 : Outcome (World KV) A) (o2 : Outcome (World Rooms) A)
  : Prop :=
  match o1, o2 with
  | Ok a w1, Ok b w2 => a = b /\ agree w1 w2
  | _, _ => False
  end.

(** From worlds that agree, the two computations return the same value
    and leave worlds that agree. *)
Definition simulates {A} (m1 : M (World KV) A) (m2 : M (World Rooms) A) : Prop :=
  forall wr wm, agree wr wm -> agree_out (m1 wr) (m2 wm).

(** What the fetch at the start of a call may have done to the record of
    [r] on the way from [w] to [w']: nothing; or, some stored player being
    inactive at the first reading of the call, the write of the room with
    exactly the inactive players dropped and [lastActivity] set to the
    second reading. *)
Definition at_most_pruned (r : string) (w w' : World KV) : Prop :=
  data (backend w') = data (backend w) \/
  exists room,
    stored w r = Some room /\
    (length (active_at (clock w (tick w)) (players room)) < length (players room))%nat /\
    data (backend w') =
    <[Redis.room_key r :=
        mkEntry (set_lastActivity (clock w (S (tick w)))
                   (set_players (active_at (clock w (tick w)) (players room)) room))
                86400]> (data (backend w)).

(** The room a request is for. *)
Definition room_of (q : Request) : string :=
  match q with Get r => r | Post r _ => r end.

(** An invariant about what the service holds under one key [k]. *)
Definition kept (k : string) (P : option Entry -> Prop) (w : World KV) : Prop :=
  P (data (backend w) !! k).

(** [g'] is a later state of the room [g] was: created at the same time,
    under the same id. *)
Definition same_origin (g g' : GameState) : Prop :=
  createdAt g' = createdAt g /\ roomId g' = roomId g.

(** [P] says that a record is there, and says it of every later state of
    the room as well, whatever its time to live. *)
Definition origin_stable (P : option Entry -> Prop) : Prop :=
  ~ P None /\
  forall e g ex, P (Some e) -> same_origin (value e) g -> P (Some (mkEntry g ex)).

(** A function called for room [r] may write under [k] only if [P]
    survives it. *)
Definition may_write (k : string) (P : option Entry -> Prop) (r : string) : Prop :=
  Redis.room_key r <> k \/ origin_stable P.

(** If the room [r] is the one under [k], [g] is a later state of a record
    that satisfies [P]. *)
Definition origin_ok (k : string) (P : option Entry -> Prop) (r : string)
           (g : GameState) : Prop :=
  Redis.room_key r = k -> exists e, P (Some e) /\ same_origin (value e) g.

(** The same for the map of the stand-in, whose records are rooms. *)
Definition mock_kept (k : string) (P : option GameState -> Prop) (w : World Rooms)
  : Prop :=
  P (backend w !! k).

Definition mock_origin_stable (P : option GameState -> Prop) : Prop :=
  ~ P None /\ forall g g', P (Some g) -> same_origin g g' -> P (Some g').

Definition mock_may_write (k : string) (P : option GameState -> Prop) (r : string)
  : Prop :=
  RedisMock.room_key r <> k \/ mock_origin_stable P.

Definition mock_origin_ok (k : string) (P : option GameState -> Prop) (r : string)
           (g : GameState) : Prop :=
  RedisMock.room_key r = k -> exists g0, P (Some g0) /\ same_origin g0 g.

(** What the map of [RedisMockRef] reads by value: under each key, the
    object its reference points to now. *)
Definition view (w : World Heap) : World Rooms :=
  mkWorld (clock w) (tick w) (objs (backend w) <$> rooms (backend w)).

(** No room object is held under two keys (and every reference the map
    holds was handed out before [next_ref], so that an object literal gets
    a reference of its own). *)
Definition unshared (w : World Heap) : Prop :=
  (forall k1 k2 l,
      rooms (backend w) !! k1 = Some l -> rooms (backend w) !! k2 = Some l ->
      k1 = k2) /\
  (forall k l, rooms (backend w) !! k = Some l -> (l < next_ref (backend w))%nat).

(** The durable backend and the stand-in agree: the same clock, a service
    that answers, under every key the same room, and a map that shares no
    object. *)
Definition agree_ref (wr : World KV) (wm : World Heap) : Prop :=
  agree wr (view wm) /\ unshared wm.

(** From worlds that agree, both computations return, what they return is
    related by [R] (read in the world the stand-in is left in), and the
    worlds they leave agree. *)
Definition answers_alike {A B} (R : World Heap -> A -> B -> Prop)
           (m1 : M (World KV) A) (m2 : M (World Heap) B) : Prop :=
  forall wr wm, agree_ref wr wm ->
    exists a wr' b wm',
      m1 wr = Ok a wr' /\ m2 wm = Ok b wm' /\ R wm' a b /\ agree_ref wr' wm'.

(** On a map that shares no object, the computation with references
    returns, leaves a map that shares no object, and is read by value as
    the computation [m_val]. *)
Definition refines {A B} (R : World Heap -> A -> B -> Prop)
           (m_val : M (World Rooms) A) (m_ref : M (World Heap) B) : Prop :=
  forall w, unshared w ->
    exists a b w',
      m_ref w = Ok b w' /\ unshared w' /\
      m_val (view w) = Ok a (view w') /\ R w' a b.

(** The room a reference points to is the room the other side returned. *)
Definition is_room (w : World Heap) (g : GameState) (l : nat) : Prop :=
  objs (backend w) l = g.

Definition is_room_or_null (w : World Heap) (o : option GameState) (ol : option nat)
  : Prop :=
  o = objs (backend w) <$> ol.

(* ===================================================================== *)
(** ** Worlds used as concrete inputs *)
(* ===================================================================== *)

Definition alice : Player := mkPlayer "p1" "Alice" None false 650000.
Definition bob : Player := mkPlayer "p2" "Bob" (Some "8") true 900000.
Definition room_r1 : GameState := mkGameState [alice; bob] false "r1" 600000 900000.

Definition always_up : nat -> bool := fun _ => false.

(** A service that answers every call and holds [d]; every reading of the
    clock is [t]. *)
Definition world_at (t : Z) (d : gmap string Entry) : World KV :=
  mkWorld (fun _ => t) 0 (mkKV d always_up 0).

(** Room "r1" ten seconds after Bob was last seen: both are active ... *)
Definition early : World KV :=
  world_at 910000 {[ "room:r1" := mkEntry room_r1 86400 ]}.

(** ... and a hundred seconds after: Alice, last seen at 650000, is more
    than five minutes behind, Bob is not. *)
Definition late : World KV :=
  world_at 1000000 {[ "room:r1" := mkEntry room_r1 86400 ]}.

(** The same room, held by the stand-in. *)
Definition mock_at (t : Z) (d : Rooms) : World Rooms := mkWorld (fun _ => t) 0 d.
Definition mock_early : World Rooms := mock_at 910000 {[ "room:r1" := room_r1 ]}.
Definition mock_late : World Rooms := mock_at 1000000 {[ "room:r1" := room_r1 ]}.

(** At 950000 Alice, last seen at 650000, is exactly 300000 behind. *)
Definition edge : World KV :=
  world_at 950000 {[ "room:r1" := mkEntry room_r1 86400 ]}.
Definition mock_edge : World Rooms := mock_at 950000 {[ "room:r1" := room_r1 ]}.

(** The service holds room "r1" and rejects every call. *)
Definition down : World KV :=
  mkWorld (fun _ => 910000%Z) 0
          (mkKV {[ "room:r1" := mkEntry room_r1 86400 ]} (fun _ => true) 0).

Definition carol : Player := mkPlayer "p3" "Carol" None false 5.

(** The stand-in with its references: an empty map, every reading of the
    clock [t]. *)
Definition heap_at (t : Z) : World Heap :=
  mkWorld (fun _ => t) 0
          (mkHeap ∅ (fun _ => mkGameState [] false "" 0 0) 0).

(** Room "r1" held by the stand-in as its one object. *)
Definition heap_early : World Heap :=
  mkWorld (fun _ => 910000%Z) 0
          (mkHeap {[ "room:r1" := 0%nat ]} (fun _ => room_r1) 1).

(** Two rooms; the first has 500 seconds left. *)
Definition two_rooms : World KV :=
  world_at 910000 {[ "room:r1" := mkEntry room_r1 500;
                     "room:r2" := mkEntry (mkGameState [] true "r2" 1 2) 86400 ]}.

Definition mock_two_rooms : World Rooms :=
  mock_at 910000 {[ "room:r1" := room_r1;
                    "room:r2" := mkGameState [] true "r2" 1 2 ]}.

(** Room "r1" at 1000000, on a service that rejects its call number [bad]
    (counting from 0) and answers the others. *)
Definition flaky (bad : nat) : World KV :=
  mkWorld (fun _ => 1000000%Z) 0
          (mkKV {[ "room:r1" := mkEntry room_r1 86400 ]} (fun n => Nat.eqb n bad) 0).

(** A session: Alice joins, Bob joins, Alice joins again, both vote, the
    votes are revealed and reset, Bob sends a heartbeat, the room is
    fetched. *)
Definition session : list Request :=
  [ Post "r1" (Some (Route.mkBody "join" "p1" "Alice" ""));
    Post "r1" (Some (Route.mkBody "join" "p2" "Bob" ""));
    Post "r1" (Some (Route.mkBody "join" "p1" "Alice" ""));
    Post "r1" (Some (Route.mkBody "vote" "p1" "" "5"));
    Post "r1" (Some (Route.mkBody "vote" "p2" "" "8"));
    Post "r1" (Some (Route.mkBody "reveal" "p1" "" ""));
    Post "r1" (Some (Route.mkBody "reset" "p1" "" ""));
    Post "r1" (Some (Route.mkBody "heartbeat" "p2" "" ""));
    Get "r1" ].

(* ===================================================================== *)
(** ** Facts about the list operations *)
(* ===================================================================== *)

Section ListFacts.
Context {A : Type}.
Implicit Types (pred : A -> bool) (l : list A).

Lemma findIndex_lower pred l : (-1 <= findIndex pred l)%Z.
Proof.
  induction l as [|x l IH]; simpl; [lia|].
  destruct (pred x); [lia|].
  destruct (Z.ltb_spec (findIndex pred l) 0); lia.
Qed.

Lemma findIndex_none pred l :
  (findIndex pred l < 0)%Z -> Forall (fun x => pred x = false) l.
Proof.
  induction l as [|x l IH]; simpl; intros H; [constructor|].
  destruct (pred x) eqn:Hx; [lia|].
  destruct (Z.ltb_spec (findIndex pred l) 0); [|lia].
  constructor; auto.
Qed.

(** A non-negative result is the first position that satisfies the
    predicate. *)
Lemma findIndex_some pred l :
  (0 <= findIndex pred l)%Z ->
  exists x, l !! Z.to_nat (findIndex pred l) = Some x /\ pred x = true /\
            forall j y, (j < Z.to_nat (findIndex pred l))%nat ->
                        l !! j = Some y -> pred y = false.
Proof.
  induction l as [|x l IH]; simpl; intros H; [lia|].
  destruct (pred x) eqn:Hx.
  - exists x. repeat split; auto. intros j y Hj. simpl in Hj. lia.
  - destruct (Z.ltb_spec (findIndex pred l) 0) as [Hlt|Hge]; [lia|].
    destruct (IH Hge) as (y & Hy & Hp & Hfirst).
    exists y. replace (Z.to_nat (findIndex pred l + 1)) with (S (Z.to_nat (findIndex pred l))) by lia.
    repeat split; auto.
    intros [|j] z Hj Hz; simpl in Hz.
    + congruence.
    + apply (Hfirst j); [lia|assumption].
Qed.

Lemma filter_length_eq (P : A -> Prop) `{forall x, Decision (P x)} l :
  length (filter P l) = length l -> filter P l = l.
Proof.
  induction l as [|x l IH]; [reflexivity|].
  rewrite filter_cons. destruct (decide (P x)); simpl; intros Hlen.
  - f_equal. apply IH. lia.
  - pose proof (length_filter P l). lia.
Qed.

End ListFacts.

Lemma active_at_elem now ps p :
  p ∈ active_at now ps <-> (now - lastSeen p < 300000)%Z /\ p ∈ ps.
Proof. unfold active_at. rewrite list_elem_of_filter. reflexivity. Qed.

Lemma active_at_idemp now ps : active_at now (active_at now ps) = active_at now ps.
Proof.
  unfold active_at. apply filter_length_eq.
  induction ps as [|p ps IH]; [reflexivity|].
  rewrite filter_cons. destruct (decide (now - lastSeen p < 300000)%Z) as [Hp|Hp].
  - rewrite filter_cons. destruct (decide (now - lastSeen p < 300000)%Z); [|contradiction].
    simpl. f_equal. exact IH.
  - exact IH.
Qed.

Lemma active_at_NoDup now ps : NoDup (id <$> ps) -> NoDup (id <$> active_at now ps).
Proof.
  unfold active_at. induction ps as [|p ps IH]; [intros; constructor|].
  rewrite fmap_cons, NoDup_cons. intros [Hnotin Hnd].
  rewrite filter_cons. destruct (decide _); [|auto].
  rewrite fmap_cons, NoDup_cons. split; [|auto].
  intros Hin. apply Hnotin.
  apply list_elem_of_fmap in Hin as (q & Hq & Hin).
  apply list_elem_of_filter in Hin as [_ Hin].
  apply list_elem_of_fmap. eauto.
Qed.

Section Stamp.
Variables (c : Player -> bool) (g : Z -> Player -> Player) (clk : nat -> Z).

Lemma stamp_length n l : length (stamp c g clk n l) = length l.
Proof.
  revert n; induction l as [|p l IH]; intros n; simpl; [reflexivity|].
  destruct (c p); simpl; rewrite IH; reflexivity.
Qed.

(** Position by position: an element the condition rejects is kept as it
    is, a selected one is rewritten with a reading taken in the window. *)
Lemma stamp_Forall2 lo hi n l :
  (lo <= n)%nat -> (n + hits c l <= hi)%nat ->
  Forall2 (fun p q => if c p
                      then exists k, (lo <= k < hi)%nat /\ q = g (clk k) p
                      else q = p)
          l (stamp c g clk n l).
Proof.
  revert n; induction l as [|p l IH]; intros n Hlo Hhi; simpl; [constructor|].
  simpl in Hhi. destruct (c p) eqn:Hc.
  - constructor.
    + rewrite Hc. exists n. split; [lia|reflexivity].
    + apply IH; lia.
  - constructor.
    + rewrite Hc. reflexivity.
    + apply IH; lia.
Qed.

Lemma stamp_ids n l :
  (forall t p, id (g t p) = id p) -> id <$> stamp c g clk n l = id <$> l.
Proof.
  intros Hid. revert n; induction l as [|p l IH]; intros n; simpl; [reflexivity|].
  destruct (c p); rewrite !fmap_cons, ?Hid, IH; reflexivity.
Qed.

Lemma stamp_no_hit n l :
  Forall (fun p => c p = false) l -> stamp c g clk n l = l.
Proof.
  intros H. revert n. induction H as [|p l Hp _ IH]; intros n; simpl; [reflexivity|].
  rewrite Hp, IH. reflexivity.
Qed.

Lemma mapM_stamp {S} (f : Player -> M (World S) Player) l (w : World S) :
  (forall p w, f p w = (if c p then t <- Date_now ;; ret (g t p) else ret p) w) ->
  mapM f l w = Ok (stamp c g (clock w) (tick w) l)
                  (mkWorld (clock w) (tick w + hits c l) (backend w)).
Proof.
  intros Hf. revert w. induction l as [|p l IH]; intros [k n b]; simpl.
  - unfold ret. rewrite Nat.add_0_r. reflexivity.
  - unfold bind at 1. rewrite Hf. destruct (c p).
    + unfold bind at 1, Date_now at 1, ret at 1. simpl.
      unfold bind at 1. rewrite IH. simpl. unfold ret.
      rewrite Nat.add_succ_r. reflexivity.
    + unfold ret at 1. unfold bind at 1. rewrite IH. reflexivity.
Qed.

End Stamp.

(* ===================================================================== *)
(** ** How the functions of [lib/redis.ts] run while the service answers *)
(* ===================================================================== *)

Section RedisRuns.
Variables (clk : nat -> Z) (out : nat -> bool).
Hypothesis Hup : forall n, out n = false.

Local Abbreviation W tk d c := (mkWorld clk tk (mkKV d out c)).
Local Abbreviation key := Redis.room_key.
Local Abbreviation entry g := (mkEntry g Redis.ROOM_EXPIRY).

Lemma kv_get_run tk d c k :
  kv_get k (W tk d c) = Ok (value <$> d !! k) (W tk d (S c)).
Proof. unfold kv_get. simpl. rewrite Hup. reflexivity. Qed.

Lemma kv_set_run tk d c k v ex :
  kv_set k v ex (W tk d c) = Ok tt (W tk (<[k := mkEntry v ex]> d) (S c)).
Proof. unfold kv_set. simpl. rewrite Hup. reflexivity. Qed.

Lemma updateRoom_run tk d c r st :
  Redis.updateRoom r st (W tk d c) =
  Ok (set_lastActivity (clk tk) st)
     (W (S tk) (<[key r := entry (set_lastActivity (clk tk) st)]> d) (S c)).
Proof.
  unfold Redis.updateRoom, bind, Date_now. simpl.
  rewrite kv_set_run. reflexivity.
Qed.

Lemma createRoom_run tk d c r :
  Redis.createRoom r (W tk d c) =
  Ok (mkGameState [] false r (clk tk) (clk (S tk)))
     (W (S (S tk)) (<[key r := entry (mkGameState [] false r (clk tk) (clk (S tk)))]> d) (S c)).
Proof.
  unfold Redis.createRoom, bind, Date_now. simpl.
  rewrite kv_set_run. reflexivity.
Qed.

Lemma getRoom_run tk d c r :
  Redis.getRoom r (W tk d c) =
  match d !! key r with
  | None => Ok None (W tk d (S c))
  | Some e =>
      let act := active_at (clk tk) (players (value e)) in
      if (length act =? length (players (value e)))%nat
      then Ok (Some (value e)) (W (S tk) d (S c))
      else let room := set_lastActivity (clk (S tk)) (set_players act (value e)) in
           Ok (Some room) (W (S (S tk)) (<[key r := entry room]> d) (S (S c)))
  end.
Proof.
  unfold Redis.getRoom. unfold bind at 1. rewrite kv_get_run.
  destruct (d !! key r) as [e|]; simpl; [|reflexivity].
  unfold bind at 1, Date_now at 1. simpl.
  change (filter _ (players (value e))) with (active_at (clk tk) (players (value e))).
  destruct (length (active_at (clk tk) (players (value e))) =? length (players (value e)))%nat;
    simpl; [reflexivity|].
  unfold bind. rewrite updateRoom_run. reflexivity.
Qed.

(** Both branches of [getRoom] at once, for the functions that go on to
    write the room: the room they get holds the active players, and what
    is then written under the key hides whether [getRoom] wrote. *)
Lemma getRoom_fetch tk d c r e :
  d !! key r = Some e ->
  exists la n m d',
    (n <= 1)%nat /\
    (forall x, <[key r := x]> d' = <[key r := x]> d) /\
    Redis.getRoom r (W tk d c) =
    Ok (Some (set_lastActivity la
                (set_players (active_at (clk tk) (players (value e))) (value e))))
       (W (S (tk + n)) d' (S (c + m))).
Proof.
  intros He. rewrite getRoom_run, He. simpl.
  destruct (Nat.eqb_spec (length (active_at (clk tk) (players (value e))))
                         (length (players (value e)))) as [Hlen|Hlen].
  - exists (lastActivity (value e)), 0%nat, 0%nat, d.
    split; [lia|]. split; [reflexivity|].
    rewrite !Nat.add_0_r. unfold active_at in *.
    rewrite (filter_length_eq _ _ Hlen).
    destruct (value e); reflexivity.
  - exists (clk (S tk)), 1%nat, 1%nat,
      (<[key r := entry (set_lastActivity (clk (S tk))
                           (set_players (active_at (clk tk) (players (value e))) (value e)))]> d).
    split; [lia|]. split; [intros x; apply insert_insert_eq|].
    rewrite !Nat.add_1_r. reflexivity.
Qed.

Lemma updatePlayerVote_absent tk d c r pid v :
  d !! key r = None ->
  Redis.updatePlayerVote r pid v (W tk d c) = Ok None (W tk d (S c)).
Proof.
  intros He. unfold Redis.updatePlayerVote, bind. rewrite getRoom_run, He. reflexivity.
Qed.

Lemma updatePlayerVote_run tk d c r pid v e :
  d !! key r = Some e ->
  exists n m,
    (n <= 1)%nat /\
    let act := active_at (clk tk) (players (value e)) in
    let sel := fun p => String.eqb (id p) pid in
    let ps := stamp sel (cast_vote v) clk (S (tk + n)) act in
    let room := set_lastActivity (clk (S (tk + n) + hits sel act))
                  (set_players ps (value e)) in
    Redis.updatePlayerVote r pid v (W tk d c) =
    Ok (Some room)
       (W (S (S (tk + n) + hits sel act)) (<[key r := entry room]> d) (S (S (c + m)))).
Proof.
  intros He. destruct (getRoom_fetch tk d c r e He) as (la & n & m & d' & Hn & Hd & Hget).
  exists n, m. split; [exact Hn|]. simpl.
  unfold Redis.updatePlayerVote. unfold bind at 1. rewrite Hget.
  unfold bind at 1.
  rewrite (mapM_stamp (fun p => String.eqb (id p) pid) (cast_vote v)) by reflexivity.
  simpl. unfold bind at 1. rewrite updateRoom_run. unfold ret.
  rewrite Hd. reflexivity.
Qed.

Lemma updatePlayerHeartbeat_absent tk d c r pid :
  d !! key r = None ->
  Redis.updatePlayerHeartbeat r pid (W tk d c) = Ok tt (W tk d (S c)).
Proof.
  intros He. unfold Redis.updatePlayerHeartbeat, bind. rewrite getRoom_run, He. reflexivity.
Qed.

Lemma updatePlayerHeartbeat_run tk d c r pid e :
  d !! key r = Some e ->
  exists n m,
    (n <= 1)%nat /\
    let act := active_at (clk tk) (players (value e)) in
    let sel := fun p => String.eqb (id p) pid in
    let ps := stamp sel set_lastSeen clk (S (tk + n)) act in
    let room := set_lastActivity (clk (S (tk + n) + hits sel act))
                  (set_players ps (value e)) in
    Redis.updatePlayerHeartbeat r pid (W tk d c) =
    Ok tt (W (S (S (tk + n) + hits sel act)) (<[key r := entry room]> d) (S (S (c + m)))).
Proof.
  intros He. destruct (getRoom_fetch tk d c r e He) as (la & n & m & d' & Hn & Hd & Hget).
  exists n, m. split; [exact Hn|]. simpl.
  unfold Redis.updatePlayerHeartbeat. unfold bind at 1. rewrite Hget.
  unfold bind at 1.
  rewrite (mapM_stamp (fun p => String.eqb (id p) pid) set_lastSeen) by reflexivity.
  simpl. unfold bind at 1. rewrite updateRoom_run. unfold ret.
  rewrite Hd. reflexivity.
Qed.

Lemma toggleReveal_absent tk d c r :
  d !! key r = None ->
  Redis.toggleReveal r (W tk d c) = Ok None (W tk d (S c)).
Proof.
  intros He. unfold Redis.toggleReveal, bind. rewrite getRoom_run, He. reflexivity.
Qed.

Lemma toggleReveal_run tk d c r e :
  d !! key r = Some e ->
  exists n m,
    (n <= 1)%nat /\
    let act := active_at (clk tk) (players (value e)) in
    let room := set_lastActivity (clk (S (tk + n)))
                  (set_revealed (negb (revealed (value e))) (set_players act (value e))) in
    Redis.toggleReveal r (W tk d c) =
    Ok (Some room) (W (S (S (tk + n))) (<[key r := entry room]> d) (S (S (c + m)))).
Proof.
  intros He. destruct (getRoom_fetch tk d c r e He) as (la & n & m & d' & Hn & Hd & Hget).
  exists n, m. split; [exact Hn|]. simpl.
  unfold Redis.toggleReveal. unfold bind at 1. rewrite Hget.
  unfold bind at 1. rewrite updateRoom_run. unfold ret.
  rewrite Hd. reflexivity.
Qed.

Lemma resetVotes_absent tk d c r :
  d !! key r = None ->
  Redis.resetVotes r (W tk d c) = Ok None (W tk d (S c)).
Proof.
  intros He. unfold Redis.resetVotes, bind. rewrite getRoom_run, He. reflexivity.
Qed.

Lemma resetVotes_run tk d c r e :
  d !! key r = Some e ->
  exists n m,
    (n <= 1)%nat /\
    let act := active_at (clk tk) (players (value e)) in
    let all := fun _ : Player => true in
    let ps := stamp all clear_vote clk (S (tk + n)) act in
    let room := set_lastActivity (clk (S (tk + n) + hits all act))
                  (set_revealed false (set_players ps (value e))) in
    Redis.resetVotes r (W tk d c) =
    Ok (Some room)
       (W (S (S (tk + n) + hits all act)) (<[key r := entry room]> d) (S (S (c + m)))).
Proof.
  intros He. destruct (getRoom_fetch tk d c r e He) as (la & n & m & d' & Hn & Hd & Hget).
  exists n, m. split; [exact Hn|]. simpl.
  unfold Redis.resetVotes. unfold bind at 1. rewrite Hget.
  unfold bind at 1.
  rewrite (mapM_stamp (fun _ => true) clear_vote) by reflexivity.
  simpl. unfold bind at 1. rewrite updateRoom_run. unfold ret.
  rewrite Hd. reflexivity.
Qed.

End RedisRuns.

Section RedisJoin.
Variables (clk : nat -> Z) (out : nat -> bool).
Hypothesis Hup : forall n, out n = false.

Local Abbreviation W tk d c := (mkWorld clk tk (mkKV d out c)).
Local Abbreviation key := Redis.room_key.
Local Abbreviation entry g := (mkEntry g Redis.ROOM_EXPIRY).

Lemma addPlayer_absent tk d c r player :
  d !! key r = None ->
  let room := mkGameState [set_lastSeen (clk (S (S tk))) player] false r
                          (clk tk) (clk (S (S (S tk)))) in
  Redis.addPlayer r player (W tk d c) =
  Ok room (W (S (S (S (S tk)))) (<[key r := entry room]> d) (S (S (S c)))).
Proof.
  intros He. simpl. unfold Redis.addPlayer. unfold bind at 1.
  rewrite (getRoom_run clk out Hup), He.
  unfold bind at 1. rewrite (createRoom_run clk out Hup).
  simpl. unfold bind at 1, Date_now, ret. simpl.
  rewrite (updateRoom_run clk out Hup). rewrite insert_insert_eq. reflexivity.
Qed.

Lemma addPlayer_run tk d c r player e :
  d !! key r = Some e ->
  exists n m,
    (n <= 1)%nat /\
    let act := active_at (clk tk) (players (value e)) in
    let ps := upsert (set_lastSeen (clk (S (tk + n))) player) act in
    let room := set_lastActivity (clk (S (S (tk + n)))) (set_players ps (value e)) in
    Redis.addPlayer r player (W tk d c) =
    Ok room (W (S (S (S (tk + n)))) (<[key r := entry room]> d) (S (S (c + m)))).
Proof.
  intros He.
  destruct (getRoom_fetch clk out Hup tk d c r e He) as (la & n & m & d' & Hn & Hd & Hget).
  exists n, m. split; [exact Hn|]. simpl.
  unfold Redis.addPlayer. unfold bind at 1. rewrite Hget.
  unfold bind at 1, ret at 1. unfold upsert. simpl.
  destruct (0 <=? findIndex _ _)%Z;
    unfold bind at 1; unfold bind at 1, Date_now at 1, ret at 1; simpl;
    rewrite (updateRoom_run clk out Hup), Hd; reflexivity.
Qed.

End RedisJoin.

Lemma healthy_world_at t d : healthy (world_at t d).
Proof. intros n. reflexivity. Qed.

(* ===================================================================== *)
(** ** The room service on the durable backend *)
(* ===================================================================== *)

Lemma Forall2_right {A B} (R : A -> B -> Prop) (Q : B -> Prop) l k :
  Forall2 R l k -> (forall x y, R x y -> Q y) -> Forall Q k.
Proof. induction 1; intros HQ; constructor; eauto. Qed.

Lemma POST_vote_eq {S} (svc : Route.Service S) r pid nm v :
  Route.POST svc r (Some (Route.mkBody "vote" pid nm v)) =
  try_catch
    (room <- Route.updatePlayerVote svc r pid v ;;
     match room with
     | None => ret Route.not_found
     | Some room => ret (Route.mkResponse (Route.RoomJson room) 200)
     end)
    (fun _ => ret (Route.mkResponse (Route.ErrorJson "Internal server error") 500)).
Proof. reflexivity. Qed.

(** C1, as the code has it.  While the service answers:
    - when no record exists for [r], [updatePlayerVote] returns null, the
      handler answers 404 "Room not found", and the records of the service
      are what they were (no room is created);
    - when a record exists, the players that are not active at the reading
      of [getRoom] are dropped first.  Of the active ones, in order, each one
      whose id is [pid] gets [vote = v], [hasVoted = true] and a [lastSeen]
      read from the clock during the call, and every other one is kept as it
      is; the room returned is the room stored.  When no active player has
      the id [pid], the list is the list of active players. *)
Theorem updatePlayerVote_on_active_players (w : World KV) (r pid v : string) :
  healthy w ->
  match stored w r with
  | None =>
      (exists w', Redis.updatePlayerVote r pid v w = Ok None w' /\
                  data (backend w') = data (backend w)) /\
      (forall nm, exists w',
          Route.POST Route.real r (Some (Route.mkBody "vote" pid nm v)) w =
          Ok (Route.mkResponse (Route.ErrorJson "Room not found") 404) w' /\
          data (backend w') = data (backend w))
  | Some room =>
      let act := active_at (clock w (tick w)) (players room) in
      exists room' w',
        Redis.updatePlayerVote r pid v w = Ok (Some room') w' /\
        stored w' r = Some room' /\
        Forall2 (fun p q =>
                   (id p = pid /\
                    exists k, (tick w <= k < tick w')%nat /\
                      q = {| id := id p; name := name p; vote := Some v;
                             hasVoted := true; lastSeen := clock w k |}) \/
                   (id p <> pid /\ q = p))
                act (players room') /\
        ((forall p, p ∈ act -> id p <> pid) -> players room' = act)
  end.
Proof.
  intros Hh. destruct w as [clk tk [d out c]]. unfold healthy, stored in *.
  simpl in *. destruct (d !! Redis.room_key r) as [e|] eqn:He; simpl.
  - destruct (updatePlayerVote_run clk out Hh tk d c r pid v e He)
      as (n & m & Hn & Hrun). simpl in Hrun.
    eexists _, _. split; [exact Hrun|]. simpl.
    split; [rewrite lookup_insert_eq; reflexivity|]. split.
    + eapply Forall2_impl.
      * apply stamp_Forall2 with (lo := tk) (hi := S (S (tk + n) + hits (fun p => String.eqb (id p) pid) (active_at (clk tk) (players (value e))))); lia.
      * intros p q. simpl. destruct (String.eqb_spec (id p) pid) as [Heq|Hne].
        -- intros (k & Hk & ->). left. split; [exact Heq|]. exists k. split; [lia|reflexivity].
        -- intros ->. right. split; [exact Hne|reflexivity].
    + intros Hnone. apply stamp_no_hit. apply Forall_forall. intros p Hp.
      apply String.eqb_neq. apply Hnone. exact Hp.
  - split.
    + eexists. rewrite (updatePlayerVote_absent clk out Hh) by exact He.
      split; reflexivity.
    + intros nm. eexists. rewrite POST_vote_eq. unfold try_catch, bind. simpl.
      rewrite (updatePlayerVote_absent clk out Hh) by exact He.
      split; reflexivity.
Qed.


Lemma updatePlayerVote_on_active_players_witness :
  healthy early /\
  exists room' w',
    Redis.updatePlayerVote "r1" "p1" "5" early = Ok (Some room') w' /\
    stored w' "r1" = Some room' /\
    Forall2 (fun p q =>
               (id p = "p1" /\
                exists k, (tick early <= k < tick w')%nat /\
                  q = {| id := id p; name := name p; vote := Some "5";
                         hasVoted := true; lastSeen := clock early k |}) \/
               (id p <> "p1" /\ q = p))
            [alice; bob] (players room').
Proof.
  split; [apply healthy_world_at|].
  pose proof (updatePlayerVote_on_active_players early "r1" "p1" "5"
                (healthy_world_at _ _)) as H.
  change (stored early "r1") with (Some room_r1) in H.
  destruct H as (room' & w' & H1 & H2 & H3 & _).
  exists room', w'. split; [exact H1|]. split; [exact H2|]. exact H3.
Defined.

(** C1 as it is worded fails for a member that is no longer active: in
    [late] the stored record of "r1" contains Alice ("p1"), yet after her
    vote no player with her id is in the room, stored or returned; and a
    vote under an id nobody has ("p9") still changes the list, from
    Alice and Bob to Bob alone. *)
Lemma vote_of_stale_member_is_lost :
  stored late "r1" = Some room_r1 /\
  alice ∈ players room_r1 /\ id alice = "p1" /\
  (exists room' w',
     Redis.updatePlayerVote "r1" "p1" "5" late = Ok (Some room') w' /\
     stored w' "r1" = Some room' /\
     players room' = [bob]) /\
  (exists room' w',
     Redis.updatePlayerVote "r1" "p9" "5" late = Ok (Some room') w' /\
     players room_r1 = [alice; bob] /\
     players room' = [bob]).
Proof.
  split; [reflexivity|]. split; [left|]. split; [reflexivity|].
  split; eexists _, _.
  - split; [vm_compute; reflexivity|]. split; reflexivity.
  - split; [vm_compute; reflexivity|]. split; reflexivity.
Qed.


Lemma POST_reset_eq {S} (svc : Route.Service S) r pid nm v :
  Route.POST svc r (Some (Route.mkBody "reset" pid nm v)) =
  try_catch
    (room <- Route.resetVotes svc r ;;
     match room with
     | None => ret Route.not_found
     | Some room => ret (Route.mkResponse (Route.RoomJson room) 200)
     end)
    (fun _ => ret (Route.mkResponse (Route.ErrorJson "Internal server error") 500)).
Proof. reflexivity. Qed.

(** C3.  While the service answers: when [r] has no record, [resetVotes]
    returns null (and the handler answers 404) without creating one; when
    it has one, the room returned is the room stored, its [revealed] is
    false, its [createdAt] and [roomId] are kept, and its players are, in
    order, the players of the record that are active at the reading of
    [getRoom], each with its id and name and with [vote = null],
    [hasVoted = false] and a [lastSeen] read from the clock during the
    call: nobody active is lost, and every player of the room has been
    reset. *)
Theorem resetVotes_clears_every_player (w : World KV) (r : string) :
  healthy w ->
  match stored w r with
  | None =>
      (exists w', Redis.resetVotes r w = Ok None w' /\
                  data (backend w') = data (backend w)) /\
      (forall pid nm v, exists w',
          Route.POST Route.real r (Some (Route.mkBody "reset" pid nm v)) w =
          Ok (Route.mkResponse (Route.ErrorJson "Room not found") 404) w')
  | Some room =>
      exists room' w',
        Redis.resetVotes r w = Ok (Some room') w' /\
        stored w' r = Some room' /\
        revealed room' = false /\
        createdAt room' = createdAt room /\
        roomId room' = roomId room /\
        Forall2 (fun p q =>
                   exists k, (tick w <= k < tick w')%nat /\
                     q = {| id := id p; name := name p; vote := None;
                            hasVoted := false; lastSeen := clock w k |})
                (active_at (clock w (tick w)) (players room)) (players room') /\
        Forall (fun q => vote q = None /\ hasVoted q = false /\
                         exists k, (tick w <= k < tick w')%nat /\
                                   lastSeen q = clock w k)
               (players room')
  end.
Proof.
  intros Hh. destruct w as [clk tk [d out c]]. unfold healthy, stored in *.
  simpl in *. destruct (d !! Redis.room_key r) as [e|] eqn:He; simpl.
  - destruct (resetVotes_run clk out Hh tk d c r e He) as (n & m & Hn & Hrun).
    simpl in Hrun. eexists _, _. split; [exact Hrun|]. simpl.
    split; [rewrite lookup_insert_eq; reflexivity|]. split; [reflexivity|].
    split; [reflexivity|]. split; [reflexivity|].
    assert (Hps : Forall2 (fun p q =>
                   exists k, (tk <= k < S (S (tk + n) + hits (fun _ => true)
                                        (active_at (clk tk) (players (value e)))))%nat /\
                     q = {| id := id p; name := name p; vote := None;
                            hasVoted := false; lastSeen := clk k |})
                (active_at (clk tk) (players (value e)))
                (stamp (fun _ => true) clear_vote clk (S (tk + n))
                       (active_at (clk tk) (players (value e))))).
    { eapply Forall2_impl.
      - apply stamp_Forall2 with (lo := tk)
          (hi := S (S (tk + n) + hits (fun _ => true) (active_at (clk tk) (players (value e))))); lia.
      - simpl. intros p q (k & Hk & ->). exists k. split; [lia|reflexivity]. }
    split; [exact Hps|].
    eapply Forall2_right; [exact Hps|].
    simpl. intros p q (k & Hk & ->). simpl. repeat split; try reflexivity.
    exists k. split; [lia|reflexivity].
  - split.
    + eexists. rewrite (resetVotes_absent clk out Hh) by exact He. split; reflexivity.
    + intros pid nm v. eexists. rewrite POST_reset_eq. unfold try_catch, bind. simpl.
      rewrite (resetVotes_absent clk out Hh) by exact He. reflexivity.
Qed.

Lemma resetVotes_clears_every_player_witness :
  healthy early /\
  exists room' w',
    Redis.resetVotes "r1" early = Ok (Some room') w' /\
    stored w' "r1" = Some room' /\
    revealed room' = false /\
    Forall2 (fun p q =>
               exists k, (tick early <= k < tick w')%nat /\
                 q = {| id := id p; name := name p; vote := None;
                        hasVoted := false; lastSeen := clock early k |})
            [alice; bob] (players room') /\
    Forall (fun q => vote q = None /\ hasVoted q = false /\
                     exists k, (tick early <= k < tick w')%nat /\
                               lastSeen q = clock early k)
           (players room').
Proof.
  split; [apply healthy_world_at|].
  pose proof (resetVotes_clears_every_player early "r1" (healthy_world_at _ _)) as H.
  change (stored early "r1") with (Some room_r1) in H.
  destruct H as (room' & w' & H1 & H2 & H3 & _ & _ & H6 & H7).
  exists room', w'. split; [exact H1|]. split; [exact H2|]. split; [exact H3|].
  split; [exact H6|exact H7].
Defined.

(** C4.  While the service answers, [getRoom] on a stored room returns it
    with exactly the players for which [now - lastSeen < 300000], [now]
    being the reading it takes.  When that list is shorter than the stored
    one the room returned has been written back; when it is not, nothing is
    written.  If the clock stands still from the call on, a second
    [getRoom] returns the very same room and writes nothing. *)
Theorem getRoom_prunes_once (w : World KV) (r : string) (room : GameState) :
  healthy w ->
  stored w r = Some room ->
  let now := clock w (tick w) in
  exists room' w',
    Redis.getRoom r w = Ok (Some room') w' /\
    players room' = filter (fun p => (now - lastSeen p < 300000)%Z) (players room) /\
    ((length (players room') < length (players room))%nat -> stored w' r = Some room') /\
    (length (players room') = length (players room) ->
     room' = room /\ data (backend w') = data (backend w)) /\
    ((forall k, (tick w <= k)%nat -> clock w k = now) ->
     exists w'', Redis.getRoom r w' = Ok (Some room') w'' /\
                 players room' = active_at now (players room') /\
                 data (backend w'') = data (backend w')).
Proof.
  intros Hh Hst. destruct w as [clk tk [d out c]]. unfold healthy, stored in *.
  simpl in *. destruct (d !! Redis.room_key r) as [e|] eqn:He; [|discriminate].
  simpl in Hst. injection Hst as <-.
  rewrite (getRoom_run clk out Hh), He. simpl.
  fold (active_at (clk tk) (players (value e))).
  destruct (Nat.eqb_spec (length (active_at (clk tk) (players (value e))))
                         (length (players (value e)))) as [Hlen|Hlen].
  - pose proof (filter_length_eq _ _ Hlen) as Hall. fold (active_at (clk tk) (players (value e))) in Hall.
    eexists _, _. split; [reflexivity|]. simpl.
    split; [symmetry; exact Hall|]. split; [lia|]. split; [auto|].
    intros Hstill. eexists. rewrite (getRoom_run clk out Hh), He. simpl.
    rewrite Hstill by lia. fold (active_at (clk tk) (players (value e))).
    rewrite Hlen, Nat.eqb_refl. split; [reflexivity|]. split; [symmetry; exact Hall|reflexivity].
  - eexists _, _. split; [reflexivity|]. simpl.
    split; [reflexivity|]. split; [intros _; rewrite lookup_insert_eq; reflexivity|].
    split; [intros Heq; contradiction|].
    intros Hstill. eexists. rewrite (getRoom_run clk out Hh), lookup_insert_eq. simpl.
    rewrite Hstill by lia. rewrite active_at_idemp, Nat.eqb_refl.
    split; [reflexivity|]. split; reflexivity.
Qed.

Lemma getRoom_prunes_once_witness :
  healthy late /\ stored late "r1" = Some room_r1 /\
  exists room' w',
    Redis.getRoom "r1" late = Ok (Some room') w' /\
    players room' = [bob] /\
    stored w' "r1" = Some room' /\
    exists w'', Redis.getRoom "r1" w' = Ok (Some room') w'' /\
                data (backend w'') = data (backend w').
Proof.
  split; [apply healthy_world_at|]. split; [reflexivity|].
  destruct (getRoom_prunes_once late "r1" room_r1 (healthy_world_at _ _) eq_refl)
    as (room' & w' & H1 & H2 & H3 & _ & H5).
  exists room', w'. split; [exact H1|]. split; [exact H2|].
  split.
  - apply H3. rewrite H2. simpl. lia.
  - destruct (H5 (fun k _ => eq_refl)) as (w'' & Hagain & _ & Hsame).
    exists w''. split; assumption.
Defined.

(** C5.  While the service answers, [toggleReveal] on a stored room
    returns and stores the room with [revealed] negated, and a second
    [toggleReveal] returns and stores it with [revealed] as it was at the
    start: whatever the clock reads in between. *)
Theorem toggleReveal_twice (w : World KV) (r : string) (room : GameState) :
  healthy w ->
  stored w r = Some room ->
  exists room1 w1 room2 w2,
    Redis.toggleReveal r w = Ok (Some room1) w1 /\
    revealed room1 = negb (revealed room) /\
    stored w1 r = Some room1 /\
    Redis.toggleReveal r w1 = Ok (Some room2) w2 /\
    revealed room2 = revealed room /\
    stored w2 r = Some room2.
Proof.
  intros Hh Hst. destruct w as [clk tk [d out c]]. unfold healthy, stored in *.
  simpl in *. destruct (d !! Redis.room_key r) as [e|] eqn:He; [|discriminate].
  simpl in Hst. injection Hst as <-.
  destruct (toggleReveal_run clk out Hh tk d c r e He) as (n & m & Hn & Hrun).
  simpl in Hrun.
  match type of Hrun with
  | _ = Ok (Some ?room1) (mkWorld _ ?tk1 (mkKV ?d1 _ ?c1)) =>
      destruct (toggleReveal_run clk out Hh tk1 d1 c1 r (mkEntry room1 Redis.ROOM_EXPIRY)
                  (lookup_insert_eq _ _ _)) as (n' & m' & Hn' & Hrun')
  end.
  simpl in Hrun'.
  eexists _, _, _, _. split; [exact Hrun|]. split; [reflexivity|].
  split; [simpl; rewrite lookup_insert_eq; reflexivity|].
  split; [exact Hrun'|]. split; [simpl; apply negb_involutive|].
  simpl. rewrite lookup_insert_eq. reflexivity.
Qed.

Lemma toggleReveal_twice_witness :
  healthy early /\ stored early "r1" = Some room_r1 /\
  exists room1 w1 room2 w2,
    Redis.toggleReveal "r1" early = Ok (Some room1) w1 /\
    revealed room1 = true /\
    stored w1 "r1" = Some room1 /\
    Redis.toggleReveal "r1" w1 = Ok (Some room2) w2 /\
    revealed room2 = false /\
    stored w2 "r1" = Some room2.
Proof.
  split; [apply healthy_world_at|]. split; [reflexivity|].
  exact (toggleReveal_twice early "r1" room_r1 (healthy_world_at _ _) eq_refl).
Defined.


(** *** Joining *)

Lemma findIndex_first {A} (pred : A -> bool) (l : list A) i x :
  l !! i = Some x -> pred x = true ->
  (forall j y, (j < i)%nat -> l !! j = Some y -> pred y = false) ->
  findIndex pred l = Z.of_nat i.
Proof.
  revert i. induction l as [|a l IH]; intros i Hi Hx Hfirst; [discriminate|].
  destruct i as [|i]; simpl in *.
  - injection Hi as ->. rewrite Hx. reflexivity.
  - rewrite (Hfirst 0%nat a) by (lia || reflexivity).
    rewrite (IH i Hi Hx).
    + destruct (Z.ltb_spec (Z.of_nat i) 0); lia.
    + intros j y Hj Hy. apply (Hfirst (S j)); [lia|exact Hy].
Qed.

Lemma upsert_replace (q : Player) (ps : list Player) i p :
  ps !! i = Some p -> id p = id q ->
  (forall j p', (j < i)%nat -> ps !! j = Some p' -> id p' <> id q) ->
  upsert q ps = <[i := q]> ps.
Proof.
  intros Hi Hid Hfirst. unfold upsert.
  rewrite (findIndex_first _ ps i p Hi).
  - destruct (Z.leb_spec 0 (Z.of_nat i)); [|lia]. rewrite Nat2Z.id. reflexivity.
  - apply String.eqb_eq. exact Hid.
  - intros j y Hj Hy. apply String.eqb_neq. eauto.
Qed.

Lemma upsert_append (q : Player) (ps : list Player) :
  (forall p, p ∈ ps -> id p <> id q) -> upsert q ps = (ps ++ [q])%list.
Proof.
  intros Hnone. unfold upsert.
  destruct (Z.leb_spec 0 (findIndex (fun p => String.eqb (id p) (id q)) ps)) as [Hge|Hlt];
    [|reflexivity].
  destruct (findIndex_some _ _ Hge) as (x & Hx & Hp & _).
  apply String.eqb_eq in Hp. exfalso. apply (Hnone x); [|exact Hp].
  apply list_elem_of_lookup. eauto.
Qed.

Lemma upsert_only (q : Player) (ps : list Player) :
  NoDup (id <$> ps) ->
  forall q', q' ∈ upsert q ps -> id q' = id q -> q' = q.
Proof.
  intros Hnd q' Hin Hid. unfold upsert in Hin.
  destruct (Z.leb_spec 0 (findIndex (fun p => String.eqb (id p) (id q)) ps)) as [Hge|Hlt].
  - destruct (findIndex_some _ _ Hge) as (x & Hx & Hp & _).
    apply String.eqb_eq in Hp.
    set (i := Z.to_nat (findIndex (fun p => String.eqb (id p) (id q)) ps)) in *.
    apply list_elem_of_lookup in Hin as [j Hj].
    destruct (decide (i = j)) as [<-|Hne].
    + rewrite list_lookup_insert_eq in Hj by (eapply lookup_lt_Some; exact Hx).
      congruence.
    + rewrite list_lookup_insert_ne in Hj by exact Hne.
      exfalso. apply Hne.
      apply (NoDup_lookup (id <$> ps) i j (id q)); [exact Hnd| |];
        rewrite list_lookup_fmap.
      * rewrite Hx. simpl. congruence.
      * rewrite Hj. simpl. congruence.
  - apply elem_of_app in Hin as [Hin|Hin].
    + apply findIndex_none in Hlt. rewrite Forall_forall in Hlt.
      specialize (Hlt q' Hin). apply String.eqb_neq in Hlt. contradiction.
    + apply list_elem_of_singleton in Hin. exact Hin.
Qed.

Lemma POST_join_eq {S} (svc : Route.Service S) r pid nm v :
  Route.POST svc r (Some (Route.mkBody "join" pid nm v)) =
  try_catch
    (t <- Date_now ;;
     room <- Route.addPlayer svc r (mkPlayer pid nm None false t) ;;
     ret (Route.mkResponse (Route.RoomJson room) 200))
    (fun _ => ret (Route.mkResponse (Route.ErrorJson "Internal server error") 500)).
Proof. reflexivity. Qed.

(** C2.  While the service answers, a "join" request for [pid] under the
    name [nm] is answered with a room that is the room stored for [r]
    afterwards, and:
    - when [r] had no record, the room's players are exactly one, the
      fresh player [pid], [nm], [vote = null], [hasVoted = false], with a
      [lastSeen] read from the clock during the request;
    - when [r] had a record, take its players that are active at the
      reading of [getRoom] (the second reading of the request): if one of
      them has the id [pid], the first such entry is overwritten by the
      fresh player and the rest is kept; if none has, the fresh player is
      put at the end.  Either way the fresh player is in the room, and
      when the stored ids were pairwise distinct it is the only player
      with the id [pid]: whatever [pid] had voted is gone. *)
Theorem join_adds_or_replaces (w : World KV) (r pid nm v : string) :
  healthy w ->
  exists room' w' k,
    Route.POST Route.real r (Some (Route.mkBody "join" pid nm v)) w =
    Ok (Route.mkResponse (Route.RoomJson room') 200) w' /\
    stored w' r = Some room' /\
    (tick w <= k < tick w')%nat /\
    let fresh := {| id := pid; name := nm; vote := None; hasVoted := false;
                    lastSeen := clock w k |} in
    fresh ∈ players room' /\
    match stored w r with
    | None => players room' = [fresh]
    | Some room =>
        let act := active_at (clock w (S (tick w))) (players room) in
        (forall i p,
            act !! i = Some p -> id p = pid ->
            (forall j p', (j < i)%nat -> act !! j = Some p' -> id p' <> pid) ->
            players room' = <[i := fresh]> act) /\
        ((forall p, p ∈ act -> id p <> pid) ->
         players room' = (act ++ [fresh])%list) /\
        (NoDup (id <$> players room) ->
         forall q, q ∈ players room' -> id q = pid -> q = fresh)
    end.
Proof.
  intros Hh. destruct w as [clk tk [d out c]]. unfold healthy, stored in *.
  simpl in *. rewrite POST_join_eq. unfold try_catch. unfold bind at 1, Date_now at 1.
  simpl. unfold bind at 1.
  destruct (d !! Redis.room_key r) as [e|] eqn:He; simpl.
  - destruct (addPlayer_run clk out Hh (S tk) d c r (mkPlayer pid nm None false (clk tk)) e He)
      as (n & m & Hn & Hrun). simpl in Hrun. rewrite Hrun. unfold ret.
    eexists _, _, (S (S tk + n)). split; [reflexivity|]. simpl.
    split; [rewrite lookup_insert_eq; reflexivity|]. split; [lia|].
    set (fresh := {| id := pid; name := nm; vote := None; hasVoted := false;
                     lastSeen := clk (S (S (tk + n))) |}).
    set (act := active_at (clk (S tk)) (players (value e))).
    change (set_lastSeen _ _) with fresh.
    assert (Hrep : forall i p, act !! i = Some p -> id p = pid ->
              (forall j p', (j < i)%nat -> act !! j = Some p' -> id p' <> pid) ->
              upsert fresh act = <[i := fresh]> act)
      by (intros i p Hi Hid Hfirst; apply (upsert_replace fresh act i p); assumption).
    assert (Happ : (forall p, p ∈ act -> id p <> pid) -> upsert fresh act = (act ++ [fresh])%list)
      by (intros Hnone; apply upsert_append; exact Hnone).
    split; [|split; [exact Hrep|split; [exact Happ|]]].
    2:{ intros Hnd q Hq Hid. apply (upsert_only fresh act); auto.
        apply active_at_NoDup. exact Hnd. }
    unfold upsert.
    destruct (Z.leb_spec 0 (findIndex (fun p => String.eqb (id p) (id fresh)) act)) as [Hge|Hlt].
    + destruct (findIndex_some _ _ Hge) as (x & Hx & _).
      apply list_elem_of_insert. apply lookup_lt_Some in Hx. exact Hx.
    + apply elem_of_app. right. left.
  - rewrite (addPlayer_absent clk out Hh) by exact He. unfold ret.
    eexists _, _, (S (S (S tk))). split; [reflexivity|]. simpl.
    split; [rewrite lookup_insert_eq; reflexivity|]. split; [lia|].
    split; [left|reflexivity].
Qed.


Lemma join_adds_or_replaces_witness :
  healthy early /\
  exists room' w' k,
    Route.POST Route.real "r2" (Some (Route.mkBody "join" "p1" "Alice" "")) early =
    Ok (Route.mkResponse (Route.RoomJson room') 200) w' /\
    stored early "r2" = None /\
    stored w' "r2" = Some room' /\
    players room' = [ {| id := "p1"; name := "Alice"; vote := None;
                         hasVoted := false; lastSeen := clock early k |} ].
Proof.
  split; [apply healthy_world_at|].
  destruct (join_adds_or_replaces early "r2" "p1" "Alice" "" (healthy_world_at _ _))
    as (room' & w' & k & H1 & H2 & _ & _ & H4).
  change (stored early "r2") with (@None GameState) in H4.
  exists room', w', k. split; [exact H1|]. split; [reflexivity|].
  split; [exact H2|exact H4].
Defined.

(* ===================================================================== *)
(** ** How [getRoom] of the stand-in runs *)
(* ===================================================================== *)

Section MockRuns.
Variable clk : nat -> Z.

Local Abbreviation Wm tk d := (mkWorld clk tk (d : Rooms)).
Local Abbreviation key := RedisMock.room_key.

Lemma mock_updateRoom_run tk d r st :
  RedisMock.updateRoom r st (Wm tk d) =
  Ok (set_lastActivity (clk tk) st)
     (Wm (S tk) (<[key r := set_lastActivity (clk tk) st]> d)).
Proof. reflexivity. Qed.

Lemma mock_getRoom_run tk d r :
  RedisMock.getRoom r (Wm tk d) =
  match d !! key r with
  | None => Ok None (Wm tk d)
  | Some room =>
      let act := active_at (clk tk) (players room) in
      if (length act =? length (players room))%nat
      then Ok (Some room) (Wm (S tk) d)
      else let room' := set_lastActivity (clk (S tk)) (set_players act room) in
           Ok (Some room') (Wm (S (S tk)) (<[key r := room']> d))
  end.
Proof.
  unfold RedisMock.getRoom. unfold bind at 1, RedisMock.rooms_get. simpl.
  destruct (d !! key r) as [room|]; [|reflexivity].
  unfold bind at 1, Date_now at 1. simpl.
  change (filter _ (players room)) with (active_at (clk tk) (players room)).
  destruct (length (active_at (clk tk) (players room)) =? length (players room))%nat;
    simpl; [reflexivity|].
  unfold bind. rewrite mock_updateRoom_run. reflexivity.
Qed.

End MockRuns.


Lemma active_at_all now ps :
  (forall p, p ∈ ps -> (now - lastSeen p < 300000)%Z) -> active_at now ps = ps.
Proof.
  unfold active_at. induction ps as [|p ps IH]; intros Hall; [reflexivity|].
  rewrite filter_cons. destruct (decide _) as [_|Hn].
  - f_equal. apply IH. intros q Hq. apply Hall. right. exact Hq.
  - exfalso. apply Hn. apply Hall. left.
Qed.

Lemma getRoom_players (w : World KV) r room :
  healthy w -> stored w r = Some room ->
  exists room' w',
    Redis.getRoom r w = Ok (Some room') w' /\
    players room' = active_at (clock w (tick w)) (players room).
Proof.
  intros Hh Hst. destruct w as [clk tk [d out c]]. unfold healthy, stored in *.
  simpl in *. destruct (d !! Redis.room_key r) as [e|] eqn:He; [|discriminate].
  simpl in Hst. injection Hst as <-.
  destruct (getRoom_fetch clk out Hh tk d c r e He) as (la & n & m & d' & _ & _ & Hget).
  eexists _, _. split; [exact Hget|reflexivity].
Qed.

Lemma mock_getRoom_players (w : World Rooms) r room :
  backend w !! RedisMock.room_key r = Some room ->
  exists room' w',
    RedisMock.getRoom r w = Ok (Some room') w' /\
    players room' = active_at (clock w (tick w)) (players room).
Proof.
  destruct w as [clk tk d]. simpl. intros Hst.
  rewrite mock_getRoom_run, Hst. simpl.
  destruct (Nat.eqb_spec (length (active_at (clk tk) (players room)))
                         (length (players room))) as [Hlen|Hlen].
  - eexists _, _. split; [reflexivity|]. symmetry. apply filter_length_eq. exact Hlen.
  - eexists _, _. split; reflexivity.
Qed.

(* ===================================================================== *)
(** ** The threshold of [getRoom], and what [getRoom] does to the store *)
(* ===================================================================== *)

(** C10.  In both implementations the players of the room [getRoom]
    returns are exactly the stored players with
    [now - lastSeen < 300000], in their order.  So a player for which the
    difference is exactly 300000 is not in the room returned; every player
    returned is strictly younger than that; and every stored player that
    is strictly younger is returned. *)
Theorem getRoom_threshold_is_strict :
  (forall (w : World KV) r room,
      healthy w -> stored w r = Some room ->
      exists room' w',
        Redis.getRoom r w = Ok (Some room') w' /\
        players room' =
        filter (fun p => (clock w (tick w) - lastSeen p < 300000)%Z) (players room) /\
        (forall p, p ∈ players room ->
                   (clock w (tick w) - lastSeen p = 300000)%Z -> p ∉ players room') /\
        (forall p, p ∈ players room' ->
                   p ∈ players room /\ (clock w (tick w) - lastSeen p < 300000)%Z) /\
        (forall p, p ∈ players room ->
                   (clock w (tick w) - lastSeen p < 300000)%Z -> p ∈ players room')) /\
  (forall (w : World Rooms) r room,
      backend w !! RedisMock.room_key r = Some room ->
      exists room' w',
        RedisMock.getRoom r w = Ok (Some room') w' /\
        players room' =
        filter (fun p => (clock w (tick w) - lastSeen p < 300000)%Z) (players room) /\
        (forall p, p ∈ players room ->
                   (clock w (tick w) - lastSeen p = 300000)%Z -> p ∉ players room') /\
        (forall p, p ∈ players room' ->
                   p ∈ players room /\ (clock w (tick w) - lastSeen p < 300000)%Z) /\
        (forall p, p ∈ players room ->
                   (clock w (tick w) - lastSeen p < 300000)%Z -> p ∈ players room')).
Proof.
  split.
  - intros w r room Hh Hst.
    destruct (getRoom_players w r room Hh Hst) as (room' & w' & Hrun & Hps).
    exists room', w'. split; [exact Hrun|]. split; [exact Hps|]. rewrite Hps.
    split; [|split]; intros p Hp.
    + intros Heq Hin. apply active_at_elem in Hin as [Hlt _]. lia.
    + apply active_at_elem in Hp as [Hlt Hin]. split; assumption.
    + intros Hlt. apply active_at_elem. split; assumption.
  - intros w r room Hst.
    destruct (mock_getRoom_players w r room Hst) as (room' & w' & Hrun & Hps).
    exists room', w'. split; [exact Hrun|]. split; [exact Hps|]. rewrite Hps.
    split; [|split]; intros p Hp.
    + intros Heq Hin. apply active_at_elem in Hin as [Hlt _]. lia.
    + apply active_at_elem in Hp as [Hlt Hin]. split; assumption.
    + intros Hlt. apply active_at_elem. split; assumption.
Qed.

Lemma getRoom_threshold_is_strict_witness :
  (healthy edge /\ stored edge "r1" = Some room_r1 /\
   alice ∈ players room_r1 /\
   (clock edge (tick edge) - lastSeen alice = 300000)%Z /\
   bob ∈ players room_r1 /\
   (clock edge (tick edge) - lastSeen bob < 300000)%Z /\
   exists room' w', Redis.getRoom "r1" edge = Ok (Some room') w' /\
                    (alice ∉ players room') /\ bob ∈ players room') /\
  (backend mock_edge !! RedisMock.room_key "r1" = Some room_r1 /\
   exists room' w', RedisMock.getRoom "r1" mock_edge = Ok (Some room') w' /\
                    (alice ∉ players room') /\ bob ∈ players room').
Proof.
  destruct getRoom_threshold_is_strict as [Hreal Hmock].
  split.
  - split; [apply healthy_world_at|]. split; [reflexivity|].
    split; [left|]. split; [reflexivity|]. split; [right; left|].
    split; [simpl; lia|].
    destruct (Hreal edge "r1" room_r1 (healthy_world_at _ _) eq_refl)
      as (room' & w' & Hrun & _ & Hout & _ & Hin).
    exists room', w'. split; [exact Hrun|]. split.
    + apply Hout; [left|reflexivity].
    + apply Hin; [right; left|simpl; lia].
  - split; [reflexivity|].
    destruct (Hmock mock_edge "r1" room_r1 eq_refl)
      as (room' & w' & Hrun & _ & Hout & _ & Hin).
    exists room', w'. split; [exact Hrun|]. split.
    + apply Hout; [left|reflexivity].
    + apply Hin; [right; left|simpl; lia].
Defined.

(** C7, as the code has it.  [getRoom] is the only read the modules
    export, and it prunes.  In both implementations, for a stored room:
    - when every stored player is active at its reading, it returns the
      room as it is stored and writes nothing;
    - when some stored player is not, it returns the room with exactly the
      active players, in their order, and with [lastActivity] set to its
      second reading; that room is shorter than the stored one and has
      been written over the record (on the durable backend with 86400
      seconds to live), so that the store is no longer what it was.
    The raw reads below it, [kv.get] and [rooms.get], return what is
    stored and write nothing. *)
Theorem getRoom_reads_only_when_all_active :
  (forall (w : World KV) r room,
      healthy w -> stored w r = Some room ->
      (forall p, p ∈ players room -> (clock w (tick w) - lastSeen p < 300000)%Z) ->
      exists w', Redis.getRoom r w = Ok (Some room) w' /\
                 data (backend w') = data (backend w)) /\
  (forall (w : World KV) r room p,
      healthy w -> stored w r = Some room ->
      p ∈ players room -> ~ (clock w (tick w) - lastSeen p < 300000)%Z ->
      exists room' w',
        Redis.getRoom r w = Ok (Some room') w' /\
        room' = set_lastActivity (clock w (S (tick w)))
                  (set_players
                     (filter (fun p => (clock w (tick w) - lastSeen p < 300000)%Z)
                             (players room)) room) /\
        (length (players room') < length (players room))%nat /\
        data (backend w') =
        <[Redis.room_key r := mkEntry room' 86400]> (data (backend w)) /\
        stored w' r = Some room' /\
        stored w' r <> stored w r) /\
  (forall (w : World Rooms) r room,
      backend w !! RedisMock.room_key r = Some room ->
      (forall p, p ∈ players room -> (clock w (tick w) - lastSeen p < 300000)%Z) ->
      exists w', RedisMock.getRoom r w = Ok (Some room) w' /\
                 backend w' = backend w) /\
  (forall (w : World Rooms) r room p,
      backend w !! RedisMock.room_key r = Some room ->
      p ∈ players room -> ~ (clock w (tick w) - lastSeen p < 300000)%Z ->
      exists room' w',
        RedisMock.getRoom r w = Ok (Some room') w' /\
        room' = set_lastActivity (clock w (S (tick w)))
                  (set_players
                     (filter (fun p => (clock w (tick w) - lastSeen p < 300000)%Z)
                             (players room)) room) /\
        (length (players room') < length (players room))%nat /\
        backend w' = <[RedisMock.room_key r := room']> (backend w) /\
        backend w' !! RedisMock.room_key r <> backend w !! RedisMock.room_key r) /\
  (forall (w : World KV) key,
      healthy w ->
      exists w', kv_get key w = Ok (value <$> data (backend w) !! key) w' /\
                 data (backend w') = data (backend w)) /\
  (forall (w : World Rooms) key,
      RedisMock.rooms_get key w = Ok (backend w !! key) w).
Proof.
  assert (Hshorter : forall now (ps : list Player) p,
             p ∈ ps -> ~ (now - lastSeen p < 300000)%Z ->
             (length (active_at now ps) < length ps)%nat).
  { intros now ps p Hp Hn. unfold active_at.
    apply (length_filter_lt (fun p0 => (now - lastSeen p0 < 300000)%Z) ps p); assumption. }
  assert (Hdiff : forall (g g' : GameState),
             (length (players g') < length (players g))%nat -> Some g' <> Some g).
  { intros g g' Hlt [= ->]. lia. }
  split; [|split; [|split; [|split; [|split]]]].
  - intros [clk tk [d out c]] r room Hh Hst Hall. unfold healthy, stored in *.
    simpl in *. destruct (d !! Redis.room_key r) as [e|] eqn:He; [|discriminate].
    simpl in Hst. injection Hst as <-.
    rewrite (getRoom_run clk out Hh), He. simpl.
    rewrite (active_at_all _ _ Hall), Nat.eqb_refl.
    eexists. split; reflexivity.
  - intros [clk tk [d out c]] r room p Hh Hst Hp Hn. unfold healthy, stored in *.
    simpl in *. destruct (d !! Redis.room_key r) as [e|] eqn:He; [|discriminate].
    simpl in Hst. injection Hst as <-.
    pose proof (Hshorter (clk tk) (players (value e)) p Hp Hn) as Hlt.
    rewrite (getRoom_run clk out Hh), He. simpl.
    destruct (Nat.eqb_spec (length (active_at (clk tk) (players (value e))))
                           (length (players (value e)))) as [Heq|_]; [lia|].
    eexists _, _. split; [reflexivity|]. split; [reflexivity|].
    split; [exact Hlt|]. split; [reflexivity|]. simpl.
    rewrite lookup_insert_eq. simpl. split; [reflexivity|].
    apply Hdiff. exact Hlt.
  - intros [clk tk d] r room Hst Hall. simpl in *.
    rewrite mock_getRoom_run, Hst. simpl.
    rewrite (active_at_all _ _ Hall), Nat.eqb_refl.
    eexists. split; reflexivity.
  - intros [clk tk d] r room p Hst Hp Hn. simpl in *.
    pose proof (Hshorter (clk tk) (players room) p Hp Hn) as Hlt.
    rewrite mock_getRoom_run, Hst. simpl.
    destruct (Nat.eqb_spec (length (active_at (clk tk) (players room)))
                           (length (players room))) as [Heq|_]; [lia|].
    eexists _, _. split; [reflexivity|]. split; [reflexivity|].
    split; [exact Hlt|]. split; [reflexivity|]. simpl.
    rewrite lookup_insert_eq. apply Hdiff. exact Hlt.
  - intros [clk tk [d out c]] k Hh. unfold healthy in Hh. simpl in *.
    rewrite (kv_get_run clk out Hh). eexists. split; reflexivity.
  - intros w k. reflexivity.
Qed.

Lemma getRoom_reads_only_when_all_active_witness :
  (healthy early /\ stored early "r1" = Some room_r1 /\
   exists w', Redis.getRoom "r1" early = Ok (Some room_r1) w' /\
              data (backend w') = data (backend early)) /\
  (healthy late /\ stored late "r1" = Some room_r1 /\ alice ∈ players room_r1 /\
   ~ (clock late (tick late) - lastSeen alice < 300000)%Z /\
   exists room' w',
     Redis.getRoom "r1" late = Ok (Some room') w' /\
     players room' = [bob] /\
     stored w' "r1" = Some room') /\
  (backend mock_early !! RedisMock.room_key "r1" = Some room_r1 /\
   exists w', RedisMock.getRoom "r1" mock_early = Ok (Some room_r1) w' /\
              backend w' = backend mock_early) /\
  (backend mock_late !! RedisMock.room_key "r1" = Some room_r1 /\
   exists room' w',
     RedisMock.getRoom "r1" mock_late = Ok (Some room') w' /\
     players room' = [bob] /\
     backend w' !! RedisMock.room_key "r1" = Some room').
Proof.
  destruct getRoom_reads_only_when_all_active as (Hreal & Hprune & Hmock & Hmprune & _).
  assert (Hall : forall p, p ∈ [alice; bob] -> (910000 - lastSeen p < 300000)%Z).
  { intros p Hp. apply elem_of_cons in Hp as [->|Hp]; [simpl; lia|].
    apply list_elem_of_singleton in Hp as ->. simpl; lia. }
  assert (Hstale : ~ (1000000 - lastSeen alice < 300000)%Z) by (simpl; lia).
  split; [|split; [|split]].
  - split; [apply healthy_world_at|]. split; [reflexivity|].
    exact (Hreal early "r1" room_r1 (healthy_world_at _ _) eq_refl Hall).
  - split; [apply healthy_world_at|]. split; [reflexivity|]. split; [left|].
    split; [exact Hstale|].
    destruct (Hprune late "r1" room_r1 alice (healthy_world_at _ _) eq_refl)
      as (room' & w' & Hrun & Hroom & _ & _ & Hst & _); [left|exact Hstale|].
    exists room', w'. split; [exact Hrun|]. split; [rewrite Hroom; reflexivity|exact Hst].
  - split; [reflexivity|].
    exact (Hmock mock_early "r1" room_r1 eq_refl Hall).
  - split; [reflexivity|].
    destruct (Hmprune mock_late "r1" room_r1 alice eq_refl)
      as (room' & w' & Hrun & Hroom & _ & Hb & _); [left|exact Hstale|].
    exists room', w'. split; [exact Hrun|]. split; [rewrite Hroom; reflexivity|].
    rewrite Hb. apply lookup_insert_eq.
Defined.

(** C7 as it is worded fails: in [late] the record of "r1" holds Alice
    and Bob, [getRoom] returns Bob alone and has written that room over the
    record, in both implementations. *)
Lemma getRoom_prunes_and_writes :
  (stored late "r1" = Some room_r1 /\
   exists room' w',
     Redis.getRoom "r1" late = Ok (Some room') w' /\
     players room_r1 = [alice; bob] /\ players room' = [bob] /\
     stored w' "r1" = Some room' /\ stored w' "r1" <> stored late "r1") /\
  (backend mock_late !! RedisMock.room_key "r1" = Some room_r1 /\
   exists room' w',
     RedisMock.getRoom "r1" mock_late = Ok (Some room') w' /\
     players room' = [bob] /\
     backend w' !! RedisMock.room_key "r1" = Some room' /\
     backend w' !! RedisMock.room_key "r1" <> backend mock_late !! RedisMock.room_key "r1").
Proof.
  split.
  - split; [reflexivity|]. eexists _, _.
    split; [vm_compute; reflexivity|].
    split; [reflexivity|]. split; [reflexivity|]. split; [reflexivity|].
    vm_compute. discriminate.
  - split; [reflexivity|]. eexists _, _.
    split; [vm_compute; reflexivity|].
    split; [reflexivity|]. split; [reflexivity|].
    vm_compute. discriminate.
Qed.

(* ===================================================================== *)
(** ** Invariants of the store: a small program logic *)
(* ===================================================================== *)

Section Triples.
Context {W : Type} (I : W -> Prop).

Lemma triple_ret {A} (a : A) (Q : A -> Prop) : Q a -> triple I (ret a) Q.
Proof. intros HQ w Hw. split; assumption. Qed.

Lemma triple_throw {A} e (Q : A -> Prop) : triple I (throw e) Q.
Proof. intros w Hw. exact Hw. Qed.

Lemma triple_bind {A B} (m : M W A) (k : A -> M W B) (Q : A -> Prop) (R : B -> Prop) :
  triple I m Q -> (forall a, Q a -> triple I (k a) R) -> triple I (bind m k) R.
Proof.
  intros Hm Hk w Hw. unfold bind. specialize (Hm w Hw).
  destruct (m w) as [a w'|e w']; [|exact Hm].
  destruct Hm as [Hw' Ha]. exact (Hk a Ha w' Hw').
Qed.

Lemma triple_weaken {A} (m : M W A) (Q R : A -> Prop) :
  triple I m Q -> (forall a, Q a -> R a) -> triple I m R.
Proof.
  intros Hm HQR w Hw. specialize (Hm w Hw).
  destruct (m w); [|exact Hm]. destruct Hm; split; auto.
Qed.

Lemma triple_try_catch {A} (m : M W A) (h : Exn -> M W A) (Q : A -> Prop) :
  triple I m Q -> (forall e, triple I (h e) Q) -> triple I (try_catch m h) Q.
Proof.
  intros Hm Hh w Hw. unfold try_catch. specialize (Hm w Hw).
  destruct (m w) as [a w'|e w']; [exact Hm|]. exact (Hh e w' Hm).
Qed.

Lemma triple_mapM {A B} (f : A -> M W B) (R : A -> B -> Prop) (l : list A) :
  (forall x, triple I (f x) (R x)) -> triple I (mapM f l) (Forall2 R l).
Proof.
  intros Hf. induction l as [|x l IH]; simpl.
  - apply triple_ret. constructor.
  - eapply triple_bind; [apply Hf|]. intros y Hy.
    eapply triple_bind; [apply IH|]. intros ys Hys.
    apply triple_ret. constructor; assumption.
Qed.

End Triples.

(** What the list operations of the service do to the ids. *)
Lemma same_ids_Forall2 (l l' : list Player) :
  Forall2 (fun p q => id q = id p) l l' -> id <$> l' = id <$> l.
Proof. induction 1 as [|p q l l' Hpq _ IH]; [reflexivity|]. rewrite !fmap_cons, Hpq, IH. reflexivity. Qed.

Lemma replace_keeps_ids (pid : string) (q : Player) (ps : list Player) :
  let i := findIndex (fun p => String.eqb (id p) pid) ps in
  (0 <= i)%Z -> id q = pid -> id <$> <[Z.to_nat i := q]> ps = id <$> ps.
Proof.
  intros i Hi Hq. destruct (findIndex_some _ _ Hi) as (x & Hx & Hp & _).
  apply String.eqb_eq in Hp.
  rewrite list_fmap_insert. apply list_insert_id.
  rewrite list_lookup_fmap. fold i in Hx. rewrite Hx. simpl. congruence.
Qed.

Lemma push_keeps_unique (pid : string) (q : Player) (ps : list Player) :
  (findIndex (fun p => String.eqb (id p) pid) ps < 0)%Z -> id q = pid ->
  NoDup (id <$> ps) -> NoDup (id <$> (ps ++ [q])%list).
Proof.
  intros Hi Hq Hnd. apply findIndex_none in Hi.
  rewrite fmap_app. apply NoDup_app. split; [exact Hnd|]. split.
  - intros x Hx Hin. simpl in Hin. apply list_elem_of_singleton in Hin. subst x.
    apply list_elem_of_fmap in Hx as (p & Hp & Hin).
    rewrite Forall_forall in Hi. specialize (Hi p Hin).
    apply String.eqb_neq in Hi. congruence.
  - simpl. apply NoDup_singleton.
Qed.

Lemma upsert_keeps_unique (q : Player) (ps : list Player) :
  NoDup (id <$> ps) -> NoDup (id <$> upsert q ps).
Proof.
  intros Hnd. unfold upsert.
  destruct (Z.leb_spec 0 (findIndex (fun p => String.eqb (id p) (id q)) ps)).
  - rewrite (replace_keeps_ids (id q)); auto.
  - apply (push_keeps_unique (id q)); auto.
Qed.

Lemma unique_ids_same (g : GameState) (ps : list Player) :
  unique_ids g -> Forall2 (fun p q => id q = id p) (players g) ps ->
  unique_ids (set_players ps g).
Proof.
  unfold unique_ids. simpl. intros Hg Hps. rewrite (same_ids_Forall2 _ _ Hps). exact Hg.
Qed.

Lemma unique_ids_active (g : GameState) now :
  unique_ids g -> unique_ids (set_players (active_at now (players g)) g).
Proof. unfold unique_ids. simpl. apply active_at_NoDup. Qed.

(** One step of a proof of a triple: split a sequence, finish a return,
    case on what a branch inspects. *)
Ltac triple_step :=
  lazymatch goal with
  | |- triple _ (bind _ _) _ => eapply triple_bind; [|intros]
  | |- triple _ (ret _) _ => apply triple_ret
  | |- triple _ (match ?x with Some _ => _ | None => _ end) _ => destruct x
  | |- triple _ (if ?b then _ else _) _ => destruct b eqn:?
  end.

(** *** The durable backend *)

Lemma kv_Date_now_triple : triple unique_kv Date_now (fun _ => True).
Proof. intros w Hw. split; [exact Hw|exact Logic.I]. Qed.

Lemma kv_get_triple k :
  triple unique_kv (kv_get k) (fun o => forall g, o = Some g -> unique_ids g).
Proof.
  intros w Hw. unfold kv_get. destruct (outage _ _); [exact Hw|].
  split; [exact Hw|]. intros g Hg.
  destruct (data (backend w) !! k) as [e|] eqn:He; [|discriminate].
  simpl in Hg. injection Hg as <-. exact (Hw k e He).
Qed.

Lemma kv_set_triple k v ex :
  unique_ids v -> triple unique_kv (kv_set k v ex) (fun _ => True).
Proof.
  intros Hv w Hw. unfold kv_set. destruct (outage _ _); [exact Hw|].
  split; [|exact Logic.I]. intros k' e. simpl.
  destruct (decide (k = k')) as [->|Hne].
  - rewrite lookup_insert_eq. intros [= <-]. exact Hv.
  - rewrite lookup_insert_ne by exact Hne. apply Hw.
Qed.

Lemma updateRoom_triple r st :
  unique_ids st -> triple unique_kv (Redis.updateRoom r st) unique_ids.
Proof.
  intros Hst. unfold Redis.updateRoom.
  triple_step; [apply kv_Date_now_triple|].
  triple_step; [apply kv_set_triple; exact Hst|].
  triple_step. exact Hst.
Qed.

Lemma getRoom_triple r :
  triple unique_kv (Redis.getRoom r) (fun o => forall g, o = Some g -> unique_ids g).
Proof.
  unfold Redis.getRoom.
  triple_step; [apply kv_get_triple|]. rename a into o.
  destruct o as [room|]; [|triple_step; discriminate].
  triple_step; [apply kv_Date_now_triple|]. rename a into now.
  change (filter _ (players room)) with (active_at now (players room)).
  assert (Hroom : unique_ids room) by auto.
  triple_step.
  - triple_step; [apply updateRoom_triple, unique_ids_active, Hroom|].
    triple_step. intros g [= <-]. assumption.
  - triple_step. intros g [= <-]. exact Hroom.
Qed.

Lemma createRoom_triple r : triple unique_kv (Redis.createRoom r) unique_ids.
Proof.
  unfold Redis.createRoom.
  triple_step; [apply kv_Date_now_triple|].
  triple_step; [apply kv_Date_now_triple|].
  triple_step; [apply kv_set_triple; constructor|].
  triple_step. constructor.
Qed.

Lemma addPlayer_triple r player :
  triple unique_kv (Redis.addPlayer r player) unique_ids.
Proof.
  unfold Redis.addPlayer.
  triple_step; [apply getRoom_triple|]. rename a into o.
  eapply triple_bind with (Q := unique_ids).
  { destruct o as [room|]; [triple_step; auto|apply createRoom_triple]. }
  intros room Hroom.
  eapply triple_bind with (Q := fun ps => NoDup (id <$> ps)).
  - destruct (Z.leb_spec 0 (findIndex (fun p => String.eqb (id p) (id player)) (players room)));
      (triple_step; [apply kv_Date_now_triple|]); triple_step.
    + rewrite (replace_keeps_ids (id player)); auto.
    + apply (push_keeps_unique (id player)); auto.
  - intros ps Hps. apply updateRoom_triple. exact Hps.
Qed.

(** The three functions that map over the players keep every id. *)
Ltac mapM_keeps_ids clock_triple :=
  apply triple_mapM; intros p;
  first [ destruct (String.eqb (id p) _); [|apply triple_ret; reflexivity] | idtac ];
  (eapply triple_bind; [apply clock_triple|]); intros; apply triple_ret; reflexivity.

Lemma updatePlayerVote_triple r pid v :
  triple unique_kv (Redis.updatePlayerVote r pid v) (fun _ => True).
Proof.
  unfold Redis.updatePlayerVote.
  triple_step; [apply getRoom_triple|]. rename a into o.
  destruct o as [room|]; [|triple_step; exact Logic.I].
  eapply triple_bind with (Q := Forall2 (fun p q => id q = id p) (players room)).
  { mapM_keeps_ids kv_Date_now_triple. }
  intros ps Hps.
  triple_step; [apply updateRoom_triple, unique_ids_same; auto|].
  triple_step. exact Logic.I.
Qed.

Lemma toggleReveal_triple r :
  triple unique_kv (Redis.toggleReveal r) (fun _ => True).
Proof.
  unfold Redis.toggleReveal.
  triple_step; [apply getRoom_triple|]. rename a into o.
  destruct o as [room|]; [|triple_step; exact Logic.I].
  triple_step; [apply updateRoom_triple|].
  - assert (Hroom : unique_ids room) by auto. exact Hroom.
  - triple_step. exact Logic.I.
Qed.

Lemma resetVotes_triple r :
  triple unique_kv (Redis.resetVotes r) (fun _ => True).
Proof.
  unfold Redis.resetVotes.
  triple_step; [apply getRoom_triple|]. rename a into o.
  destruct o as [room|]; [|triple_step; exact Logic.I].
  eapply triple_bind with (Q := Forall2 (fun p q => id q = id p) (players room)).
  { mapM_keeps_ids kv_Date_now_triple. }
  intros ps Hps.
  triple_step; [apply updateRoom_triple|].
  - assert (Hroom : unique_ids room) by auto.
    exact (unique_ids_same room ps Hroom Hps).
  - triple_step. exact Logic.I.
Qed.

Lemma updatePlayerHeartbeat_triple r pid :
  triple unique_kv (Redis.updatePlayerHeartbeat r pid) (fun _ => True).
Proof.
  unfold Redis.updatePlayerHeartbeat.
  triple_step; [apply getRoom_triple|]. rename a into o.
  destruct o as [room|]; [|triple_step; exact Logic.I].
  eapply triple_bind with (Q := Forall2 (fun p q => id q = id p) (players room)).
  { mapM_keeps_ids kv_Date_now_triple. }
  intros ps Hps.
  triple_step; [apply updateRoom_triple, unique_ids_same; auto|].
  triple_step. exact Logic.I.
Qed.

(** *** The in-memory stand-in *)

Lemma mock_Date_now_triple : triple unique_rooms Date_now (fun _ => True).
Proof. intros w Hw. split; [exact Hw|exact Logic.I]. Qed.

Lemma rooms_get_triple k :
  triple unique_rooms (RedisMock.rooms_get k)
         (fun o => forall g, o = Some g -> unique_ids g).
Proof. intros w Hw. split; [exact Hw|]. intros g Hg. exact (Hw k g Hg). Qed.

Lemma rooms_set_triple k v :
  unique_ids v -> triple unique_rooms (RedisMock.rooms_set k v) (fun _ => True).
Proof.
  intros Hv w Hw. split; [|exact Logic.I]. intros k' g. simpl.
  destruct (decide (k = k')) as [->|Hne].
  - rewrite lookup_insert_eq. intros [= <-]. exact Hv.
  - rewrite lookup_insert_ne by exact Hne. apply Hw.
Qed.

Lemma mock_updateRoom_triple r st :
  unique_ids st -> triple unique_rooms (RedisMock.updateRoom r st) unique_ids.
Proof.
  intros Hst. unfold RedisMock.updateRoom.
  triple_step; [apply mock_Date_now_triple|].
  triple_step; [apply rooms_set_triple; exact Hst|].
  triple_step. exact Hst.
Qed.

Lemma mock_getRoom_triple r :
  triple unique_rooms (RedisMock.getRoom r)
         (fun o => forall g, o = Some g -> unique_ids g).
Proof.
  unfold RedisMock.getRoom.
  triple_step; [apply rooms_get_triple|]. rename a into o.
  destruct o as [room|]; [|triple_step; discriminate].
  triple_step; [apply mock_Date_now_triple|]. rename a into now.
  change (filter _ (players room)) with (active_at now (players room)).
  assert (Hroom : unique_ids room) by auto.
  triple_step.
  - triple_step; [apply mock_updateRoom_triple, unique_ids_active, Hroom|].
    triple_step. intros g [= <-]. assumption.
  - triple_step. intros g [= <-]. exact Hroom.
Qed.

Lemma mock_createRoom_triple r :
  triple unique_rooms (RedisMock.createRoom r) unique_ids.
Proof.
  unfold RedisMock.createRoom.
  triple_step; [apply mock_Date_now_triple|].
  triple_step; [apply mock_Date_now_triple|].
  triple_step; [apply rooms_set_triple; constructor|].
  triple_step. constructor.
Qed.

Lemma mock_addPlayer_triple r player :
  triple unique_rooms (RedisMock.addPlayer r player) unique_ids.
Proof.
  unfold RedisMock.addPlayer.
  triple_step; [apply mock_getRoom_triple|]. rename a into o.
  eapply triple_bind with (Q := unique_ids).
  { destruct o as [room|]; [triple_step; auto|apply mock_createRoom_triple]. }
  intros room Hroom. apply mock_updateRoom_triple.
  exact (upsert_keeps_unique player (players room) Hroom).
Qed.

Lemma mock_updatePlayerVote_triple r pid v :
  triple unique_rooms (RedisMock.updatePlayerVote r pid v) (fun _ => True).
Proof.
  unfold RedisMock.updatePlayerVote.
  triple_step; [apply mock_getRoom_triple|]. rename a into o.
  destruct o as [room|]; [|triple_step; exact Logic.I].
  eapply triple_bind with (Q := Forall2 (fun p q => id q = id p) (players room)).
  { mapM_keeps_ids mock_Date_now_triple. }
  intros ps Hps.
  triple_step; [apply mock_updateRoom_triple, unique_ids_same; auto|].
  triple_step. exact Logic.I.
Qed.

Lemma mock_toggleReveal_triple r :
  triple unique_rooms (RedisMock.toggleReveal r) (fun _ => True).
Proof.
  unfold RedisMock.toggleReveal.
  triple_step; [apply mock_getRoom_triple|]. rename a into o.
  destruct o as [room|]; [|triple_step; exact Logic.I].
  triple_step; [apply mock_updateRoom_triple|].
  - assert (Hroom : unique_ids room) by auto. exact Hroom.
  - triple_step. exact Logic.I.
Qed.

Lemma mock_resetVotes_triple r :
  triple unique_rooms (RedisMock.resetVotes r) (fun _ => True).
Proof.
  unfold RedisMock.resetVotes.
  triple_step; [apply mock_getRoom_triple|]. rename a into o.
  destruct o as [room|]; [|triple_step; exact Logic.I].
  eapply triple_bind with (Q := Forall2 (fun p q => id q = id p) (players room)).
  { mapM_keeps_ids mock_Date_now_triple. }
  intros ps Hps.
  triple_step; [apply mock_updateRoom_triple|].
  - assert (Hroom : unique_ids room) by auto.
    exact (unique_ids_same room ps Hroom Hps).
  - triple_step. exact Logic.I.
Qed.

Lemma mock_updatePlayerHeartbeat_triple r pid :
  triple unique_rooms (RedisMock.updatePlayerHeartbeat r pid) (fun _ => True).
Proof.
  unfold RedisMock.updatePlayerHeartbeat.
  triple_step; [apply mock_getRoom_triple|]. rename a into o.
  destruct o as [room|]; [|triple_step; exact Logic.I].
  eapply triple_bind with (Q := Forall2 (fun p q => id q = id p) (players room)).
  { mapM_keeps_ids mock_Date_now_triple. }
  intros ps Hps.
  triple_step; [apply mock_updateRoom_triple, unique_ids_same; auto|].
  triple_step. exact Logic.I.
Qed.

(** *** The request handler, over either implementation *)

Section RouteTriples.
Context {S : Type} (svc : Route.Service S) (I : World S -> Prop).
Hypothesis H_now : triple I Date_now (fun _ => True).
Hypothesis H_getRoom : forall r, triple I (Route.getRoom svc r) (fun _ => True).
Hypothesis H_addPlayer : forall r p, triple I (Route.addPlayer svc r p) (fun _ => True).
Hypothesis H_vote : forall r pid v, triple I (Route.updatePlayerVote svc r pid v) (fun _ => True).
Hypothesis H_reveal : forall r, triple I (Route.toggleReveal svc r) (fun _ => True).
Hypothesis H_reset : forall r, triple I (Route.resetVotes svc r) (fun _ => True).
Hypothesis H_heartbeat : forall r pid, triple I (Route.updatePlayerHeartbeat svc r pid) (fun _ => True).

Lemma GET_triple r : triple I (Route.GET svc r) (fun _ => True).
Proof.
  unfold Route.GET. triple_step; [apply H_getRoom|].
  triple_step; triple_step; exact Logic.I.
Qed.

Lemma POST_triple r parsed : triple I (Route.POST svc r parsed) (fun _ => True).
Proof.
  unfold Route.POST.
  eapply triple_bind with (Q := fun _ => True).
  { destruct parsed; [triple_step; exact Logic.I|apply triple_throw]. }
  intros body _. apply triple_try_catch; [|intros e; triple_step; exact Logic.I].
  repeat (triple_step;
          try exact Logic.I;
          try apply H_now; try apply H_addPlayer; try apply H_vote;
          try apply H_reveal; try apply H_reset; try apply H_heartbeat).
Qed.

Lemma handle_keeps q w : I w -> I (world_of (handle svc q w)).
Proof.
  intros Hw. destruct q as [r|r parsed]; simpl.
  - pose proof (GET_triple r w Hw) as H. destruct (Route.GET svc r w); [apply H|exact H].
  - pose proof (POST_triple r parsed w Hw) as H.
    destruct (Route.POST svc r parsed w); [apply H|exact H].
Qed.

Lemma serve_keeps qs w : I w -> I (serve svc qs w).
Proof.
  revert w. induction qs as [|q qs IH]; intros w Hw; simpl; [exact Hw|].
  apply IH, handle_keeps, Hw.
Qed.

End RouteTriples.

(** C6.  Whatever the clock reads and whichever calls the service
    rejects: every request (the fetch, and "join", "vote", "reveal",
    "reset", "heartbeat" or any other action) leaves every stored room with
    pairwise distinct player ids if it found the store so, and so does any
    sequence of requests that starts from a store holding only a freshly
    created room.  The same holds on the in-memory stand-in. *)
Theorem participant_ids_stay_unique :
  (forall (w : World KV) q,
      unique_kv w -> unique_kv (world_of (handle Route.real q w))) /\
  (forall (w : World KV) r0 qs,
      data (backend w) = ∅ ->
      unique_kv (serve Route.real qs (world_of (Redis.createRoom r0 w)))) /\
  (forall (w : World Rooms) q,
      unique_rooms w -> unique_rooms (world_of (handle Route.mock q w))) /\
  (forall (w : World Rooms) r0 qs,
      backend w = ∅ ->
      unique_rooms (serve Route.mock qs (world_of (RedisMock.createRoom r0 w)))).
Proof.
  assert (Hreal : forall qs (w : World KV), unique_kv w -> unique_kv (serve Route.real qs w)).
  { apply (serve_keeps Route.real unique_kv kv_Date_now_triple).
    - intros r. exact (triple_weaken _ _ _ _ (getRoom_triple r) (fun _ _ => Logic.I)).
    - intros r p. exact (triple_weaken _ _ _ _ (addPlayer_triple r p) (fun _ _ => Logic.I)).
    - exact updatePlayerVote_triple.
    - exact toggleReveal_triple.
    - exact resetVotes_triple.
    - exact updatePlayerHeartbeat_triple. }
  assert (Hmock : forall qs (w : World Rooms), unique_rooms w -> unique_rooms (serve Route.mock qs w)).
  { apply (serve_keeps Route.mock unique_rooms mock_Date_now_triple).
    - intros r. exact (triple_weaken _ _ _ _ (mock_getRoom_triple r) (fun _ _ => Logic.I)).
    - intros r p. exact (triple_weaken _ _ _ _ (mock_addPlayer_triple r p) (fun _ _ => Logic.I)).
    - exact mock_updatePlayerVote_triple.
    - exact mock_toggleReveal_triple.
    - exact mock_resetVotes_triple.
    - exact mock_updatePlayerHeartbeat_triple. }
  split; [|split; [|split]].
  - intros w q Hw. exact (Hreal [q] w Hw).
  - intros w r0 qs Hempty. apply Hreal.
    assert (Hw : unique_kv w).
    { intros k e He. rewrite Hempty, lookup_empty in He. discriminate. }
    pose proof (createRoom_triple r0 w Hw) as H.
    destruct (Redis.createRoom r0 w); [apply H|exact H].
  - intros w q Hw. exact (Hmock [q] w Hw).
  - intros w r0 qs Hempty. apply Hmock.
    assert (Hw : unique_rooms w).
    { intros k e He. rewrite Hempty, lookup_empty in He. discriminate. }
    pose proof (mock_createRoom_triple r0 w Hw) as H.
    destruct (RedisMock.createRoom r0 w); [apply H|exact H].
Qed.

Lemma participant_ids_stay_unique_witness :
  (data (backend (world_at 910000 ∅)) = ∅ /\
   unique_kv (serve Route.real session
                (world_of (Redis.createRoom "r1" (world_at 910000 ∅))))) /\
  (backend (mock_at 910000 ∅) = ∅ /\
   unique_rooms (serve Route.mock session
                   (world_of (RedisMock.createRoom "r1" (mock_at 910000 ∅))))).
Proof.
  destruct participant_ids_stay_unique as (_ & Hreal & _ & Hmock).
  split; (split; [reflexivity|]).
  - apply Hreal. reflexivity.
  - apply Hmock. reflexivity.
Defined.

(* ===================================================================== *)
(** ** Failures at the request-handling boundary *)
(* ===================================================================== *)

(** Once the body is parsed, [POST] returns a response whatever the
    service does: what the actions throw is answered with status 500. *)
Lemma POST_catches {S} (svc : Route.Service S) r body w :
  exists resp w', Route.POST svc r (Some body) w = Ok resp w'.
Proof.
  unfold Route.POST. unfold bind at 1, ret at 1. unfold try_catch.
  match goal with |- context [match ?m w with _ => _ end] => destruct (m w) end;
    eexists _, _; reflexivity.
Qed.

(** [GET] has no handler of its own: what [getRoom] throws leaves it. *)
Lemma GET_propagates {S} (svc : Route.Service S) r w e w' :
  Route.getRoom svc r w = Threw e w' -> Route.GET svc r w = Threw e w'.
Proof. intros H. unfold Route.GET, bind. rewrite H. reflexivity. Qed.

(** C9 at the failing input.  With the service down, a "vote" request is
    answered with status 500 "Internal server error", and the fetch of the
    same room is not answered at all: the rejection of [kv.get] leaves
    [GET].  A request whose body does not parse leaves [POST] the same
    way, before its [try] is entered. *)
Theorem GET_lets_a_store_failure_escape :
  (exists w', Route.POST Route.real "r1"
                (Some (Route.mkBody "vote" "p1" "" "5")) down =
              Ok (Route.mkResponse (Route.ErrorJson "Internal server error") 500) w') /\
  (exists w', Route.GET Route.real "r1" down = Threw KvError w') /\
  (Route.POST Route.real "r1" None down = Threw SyntaxError down).
Proof.
  split; [|split].
  - eexists. vm_compute. reflexivity.
  - eexists. vm_compute. reflexivity.
  - reflexivity.
Qed.

(* ===================================================================== *)
(** ** The stand-in, read by value, against the durable backend *)
(* ===================================================================== *)

Lemma sim_ret {A} (a : A) : simulates (ret a) (ret a).
Proof. intros wr wm H. split; [reflexivity|exact H]. Qed.

Lemma sim_bind {A B} (m1 : M (World KV) A) m2 (k1 : A -> M (World KV) B) k2 :
  simulates m1 m2 -> (forall a, simulates (k1 a) (k2 a)) ->
  simulates (bind m1 k1) (bind m2 k2).
Proof.
  intros Hm Hk wr wm H. specialize (Hm wr wm H). unfold bind, agree_out in *.
  destruct (m1 wr) as [a w1|e w1], (m2 wm) as [b w2|e' w2]; try contradiction.
  destruct Hm as [<- Hw]. exact (Hk a w1 w2 Hw).
Qed.

Lemma sim_Date_now : simulates Date_now Date_now.
Proof.
  intros [c1 t1 b1] [c2 t2 b2] (Hc & Ht & Hh & Hd). simpl in *. subst t2.
  split; [apply Hc|]. repeat split; auto.
Qed.

Lemma sim_get k : simulates (kv_get k) (RedisMock.rooms_get k).
Proof.
  intros [c1 t1 [d out n]] [c2 t2 b2] (Hc & Ht & Hh & Hd).
  unfold healthy in Hh. simpl in *. unfold kv_get, RedisMock.rooms_get. simpl.
  rewrite Hh. split; [apply Hd|]. repeat split; auto.
Qed.

Lemma sim_set k v ex : simulates (kv_set k v ex) (RedisMock.rooms_set k v).
Proof.
  intros [c1 t1 [d out n]] [c2 t2 b2] (Hc & Ht & Hh & Hd).
  unfold healthy in Hh. simpl in *. unfold kv_set, RedisMock.rooms_set. simpl.
  rewrite Hh. split; [reflexivity|]. repeat split; auto. simpl.
  intros k'. destruct (decide (k = k')) as [->|Hne].
  - rewrite !lookup_insert_eq. reflexivity.
  - rewrite !lookup_insert_ne by exact Hne. apply Hd.
Qed.

Lemma sim_mapM {A B} (f1 : A -> M (World KV) B) f2 (l : list A) :
  (forall x, simulates (f1 x) (f2 x)) -> simulates (mapM f1 l) (mapM f2 l).
Proof.
  intros Hf. induction l as [|x l IH]; simpl; [apply sim_ret|].
  apply sim_bind; [apply Hf|]. intros y.
  apply sim_bind; [apply IH|]. intros ys. apply sim_ret.
Qed.

(** One step of a simulation proof, along the shape both sides share. *)
Ltac sim_step :=
  lazymatch goal with
  | |- simulates (bind _ _) (bind _ _) => apply sim_bind; [|intros]
  | |- simulates (ret _) (ret _) => apply sim_ret
  | |- simulates Date_now Date_now => apply sim_Date_now
  | |- simulates (kv_get _) _ => apply sim_get
  | |- simulates (kv_set _ _ _) _ => apply sim_set
  | |- simulates (mapM _ _) (mapM _ _) => apply sim_mapM; intros
  | |- simulates (match ?x with Some _ => _ | None => _ end) _ => destruct x
  | |- simulates (if ?b then _ else _) _ => destruct b
  end.

Lemma sim_updateRoom r st :
  simulates (Redis.updateRoom r st) (RedisMock.updateRoom r st).
Proof. unfold Redis.updateRoom, RedisMock.updateRoom. repeat sim_step. Qed.

Lemma sim_getRoom r : simulates (Redis.getRoom r) (RedisMock.getRoom r).
Proof.
  unfold Redis.getRoom, RedisMock.getRoom.
  unfold Redis.PLAYER_TIMEOUT, RedisMock.PLAYER_TIMEOUT.
  sim_step; [sim_step|]. sim_step; [|sim_step].
  sim_step; [sim_step|]. sim_step; [|sim_step].
  sim_step; [apply sim_updateRoom|]. sim_step.
Qed.

Lemma sim_createRoom r : simulates (Redis.createRoom r) (RedisMock.createRoom r).
Proof. unfold Redis.createRoom, RedisMock.createRoom. repeat sim_step. Qed.

Lemma sim_updatePlayerVote r pid v :
  simulates (Redis.updatePlayerVote r pid v) (RedisMock.updatePlayerVote r pid v).
Proof.
  unfold Redis.updatePlayerVote, RedisMock.updatePlayerVote.
  sim_step; [apply sim_getRoom|]. sim_step; [|sim_step].
  sim_step; [repeat sim_step|].
  sim_step; [apply sim_updateRoom|]. sim_step.
Qed.

Lemma sim_toggleReveal r :
  simulates (Redis.toggleReveal r) (RedisMock.toggleReveal r).
Proof.
  unfold Redis.toggleReveal, RedisMock.toggleReveal.
  sim_step; [apply sim_getRoom|]. sim_step; [|sim_step].
  sim_step; [apply sim_updateRoom|]. sim_step.
Qed.

Lemma sim_resetVotes r :
  simulates (Redis.resetVotes r) (RedisMock.resetVotes r).
Proof.
  unfold Redis.resetVotes, RedisMock.resetVotes.
  sim_step; [apply sim_getRoom|]. sim_step; [|sim_step].
  sim_step; [repeat sim_step|].
  sim_step; [apply sim_updateRoom|]. sim_step.
Qed.

Lemma sim_updatePlayerHeartbeat r pid :
  simulates (Redis.updatePlayerHeartbeat r pid) (RedisMock.updatePlayerHeartbeat r pid).
Proof.
  unfold Redis.updatePlayerHeartbeat, RedisMock.updatePlayerHeartbeat.
  sim_step; [apply sim_getRoom|]. sim_step; [|sim_step].
  sim_step; [repeat sim_step|].
  sim_step; [apply sim_updateRoom|]. sim_step.
Qed.

Lemma agree_single t k room secs :
  agree (world_at t {[ k := mkEntry room secs ]}) (mock_at t {[ k := room ]}).
Proof.
  split; [reflexivity|]. split; [reflexivity|]. split; [apply healthy_world_at|].
  intros k'. simpl. destruct (decide (k = k')) as [->|Hne].
  - rewrite !lookup_singleton_eq. reflexivity.
  - rewrite !lookup_singleton_ne by exact Hne. reflexivity.
Qed.

Lemma agree_empty t : agree (world_at t ∅) (mock_at t ∅).
Proof.
  split; [reflexivity|]. split; [reflexivity|]. split; [apply healthy_world_at|].
  intros k. simpl. rewrite !lookup_empty. reflexivity.
Qed.

(* ===================================================================== *)
(** ** More of the room service: heartbeat, reveal, create, and how the
       operations compose with the next fetch *)
(* ===================================================================== *)

(** A selected element of the list is in the stamped list, rewritten with
    a reading of the window. *)
Lemma stamp_member c g clk n (l : list Player) p :
  p ∈ l -> c p = true ->
  exists k, (n <= k < n + hits c l)%nat /\ g (clk k) p ∈ stamp c g clk n l.
Proof.
  revert n. induction l as [|a l IH]; intros n Hin Hc.
  - apply elem_of_nil in Hin. contradiction.
  - apply elem_of_cons in Hin as [->|Hin]; simpl.
    + rewrite Hc. exists n. split; [lia|left].
    + destruct (c a).
      * destruct (IH (S n) Hin Hc) as (k & Hk & Hmem).
        exists k. split; [lia|right; exact Hmem].
      * destruct (IH n Hin Hc) as (k & Hk & Hmem).
        exists k. split; [lia|right; exact Hmem].
Qed.

Lemma POST_heartbeat_eq {S} (svc : Route.Service S) r pid nm v :
  Route.POST svc r (Some (Route.mkBody "heartbeat" pid nm v)) =
  try_catch
    (Route.updatePlayerHeartbeat svc r pid ;;;
     ret (Route.mkResponse Route.SuccessJson 200))
    (fun _ => ret (Route.mkResponse (Route.ErrorJson "Internal server error") 500)).
Proof. reflexivity. Qed.

Lemma POST_reveal_eq {S} (svc : Route.Service S) r pid nm v :
  Route.POST svc r (Some (Route.mkBody "reveal" pid nm v)) =
  try_catch
    (room <- Route.toggleReveal svc r ;;
     match room with
     | None => ret Route.not_found
     | Some room => ret (Route.mkResponse (Route.RoomJson room) 200)
     end)
    (fun _ => ret (Route.mkResponse (Route.ErrorJson "Internal server error") 500)).
Proof. reflexivity. Qed.

(** X1.  While the service answers, a heartbeat for a room without record
    returns without error and creates nothing, and the handler answers
    it with [{ success: true }], status 200, not with 404.  For a room
    with a record, the inactive players are dropped; of the active ones,
    each player with the id [pid] gets a [lastSeen] read during the call
    and keeps its name, vote and [hasVoted]; every other one is kept as it
    is; [revealed], [createdAt] and [roomId] are kept. *)
Theorem heartbeat_refreshes_only_lastSeen (w : World KV) (r pid : string) :
  healthy w ->
  match stored w r with
  | None =>
      (exists w', Redis.updatePlayerHeartbeat r pid w = Ok tt w' /\
                  data (backend w') = data (backend w)) /\
      (forall nm v, exists w',
          Route.POST Route.real r (Some (Route.mkBody "heartbeat" pid nm v)) w =
          Ok (Route.mkResponse Route.SuccessJson 200) w' /\
          data (backend w') = data (backend w))
  | Some room =>
      exists room' w',
        Redis.updatePlayerHeartbeat r pid w = Ok tt w' /\
        stored w' r = Some room' /\
        revealed room' = revealed room /\
        createdAt room' = createdAt room /\
        roomId room' = roomId room /\
        Forall2 (fun p q =>
                   (id p = pid /\
                    exists k, (tick w <= k < tick w')%nat /\
                      q = {| id := id p; name := name p; vote := vote p;
                             hasVoted := hasVoted p; lastSeen := clock w k |}) \/
                   (id p <> pid /\ q = p))
                (active_at (clock w (tick w)) (players room)) (players room')
  end.
Proof.
  intros Hh. destruct w as [clk tk [d out c]]. unfold healthy, stored in *.
  simpl in *. destruct (d !! Redis.room_key r) as [e|] eqn:He; simpl.
  - destruct (updatePlayerHeartbeat_run clk out Hh tk d c r pid e He)
      as (n & m & Hn & Hrun). simpl in Hrun.
    eexists _, _. split; [exact Hrun|]. simpl.
    split; [rewrite lookup_insert_eq; reflexivity|].
    split; [reflexivity|]. split; [reflexivity|]. split; [reflexivity|].
    eapply Forall2_impl.
    + apply stamp_Forall2 with (lo := tk)
        (hi := S (S (tk + n) + hits (fun p => String.eqb (id p) pid)
                                    (active_at (clk tk) (players (value e))))); lia.
    + intros p q. simpl. destruct (String.eqb_spec (id p) pid) as [Heq|Hne].
      * intros (k & Hk & ->). left. split; [exact Heq|].
        exists k. split; [lia|reflexivity].
      * intros ->. right. split; [exact Hne|reflexivity].
  - split.
    + eexists. rewrite (updatePlayerHeartbeat_absent clk out Hh) by exact He.
      split; reflexivity.
    + intros nm v. eexists. rewrite POST_heartbeat_eq. unfold try_catch, bind. simpl.
      rewrite (updatePlayerHeartbeat_absent clk out Hh) by exact He.
      split; reflexivity.
Qed.

Lemma heartbeat_refreshes_only_lastSeen_witness :
  healthy early /\
  (exists w', Route.POST Route.real "r7" (Some (Route.mkBody "heartbeat" "p1" "" "")) early =
              Ok (Route.mkResponse Route.SuccessJson 200) w' /\
              data (backend w') = data (backend early)) /\
  exists room' w',
    Redis.updatePlayerHeartbeat "r1" "p2" early = Ok tt w' /\
    stored w' "r1" = Some room' /\
    revealed room' = revealed room_r1.
Proof.
  split; [apply healthy_world_at|]. split.
  - pose proof (heartbeat_refreshes_only_lastSeen early "r7" "p1" (healthy_world_at _ _)) as H.
    change (stored early "r7") with (@None GameState) in H.
    destruct H as [_ H]. exact (H "" "").
  - pose proof (heartbeat_refreshes_only_lastSeen early "r1" "p2" (healthy_world_at _ _)) as H.
    change (stored early "r1") with (Some room_r1) in H.
    destruct H as (room' & w' & H1 & H2 & H3 & _).
    exists room', w'. split; [exact H1|]. split; [exact H2|exact H3].
Defined.

(** X2.  A heartbeat keeps a member in the room.  While the service
    answers: if the stored room has a player [p] with the id [pid] that is
    active at the reading of the heartbeat, and the reading of the next
    fetch is less than 300000 after every reading the heartbeat took, then
    the fetch that follows the heartbeat returns a player with the id
    [pid], with the name, the vote and the [hasVoted] of [p]. *)
Theorem heartbeat_keeps_member (w : World KV) (r pid : string) (room : GameState)
        (p : Player) :
  healthy w ->
  stored w r = Some room ->
  p ∈ players room -> id p = pid ->
  (clock w (tick w) - lastSeen p < 300000)%Z ->
  exists w',
    Redis.updatePlayerHeartbeat r pid w = Ok tt w' /\
    ((forall k, (tick w <= k < tick w')%nat ->
                (clock w (tick w') - clock w k < 300000)%Z) ->
     exists room'' w'' q,
       Redis.getRoom r w' = Ok (Some room'') w'' /\
       q ∈ players room'' /\
       id q = pid /\ name q = name p /\ vote q = vote p /\ hasVoted q = hasVoted p).
Proof.
  intros Hh Hst Hin Hid Hact.
  destruct w as [clk tk [d out c]]. unfold healthy, stored in *. simpl in *.
  destruct (d !! Redis.room_key r) as [e|] eqn:He; [|discriminate].
  simpl in Hst. injection Hst as <-.
  destruct (updatePlayerHeartbeat_run clk out Hh tk d c r pid e He)
    as (n & m & Hn & Hrun). simpl in Hrun.
  eexists. split; [exact Hrun|]. simpl. intros Hsoon.
  set (sel := fun p0 : Player => String.eqb (id p0) pid) in *.
  set (act := active_at (clk tk) (players (value e))) in *.
  assert (Hp : p ∈ act) by (apply active_at_elem; split; assumption).
  assert (Hsel : sel p = true) by (apply String.eqb_eq; exact Hid).
  destruct (stamp_member sel set_lastSeen clk (S (tk + n)) act p Hp Hsel)
    as (k & Hk & Hmem).
  match type of Hrun with
  | _ = Ok tt ?w1 =>
      destruct (getRoom_players w1 r
                  (set_lastActivity (clk (S (tk + n) + hits sel act))
                     (set_players (stamp sel set_lastSeen clk (S (tk + n)) act) (value e))))
        as (room'' & w'' & Hget & Hps)
  end.
  { intros i. apply Hh. }
  { unfold stored. simpl. rewrite lookup_insert_eq. reflexivity. }
  simpl in Hps.
  exists room'', w'', (set_lastSeen (clk k) p).
  split; [exact Hget|]. split.
  - rewrite Hps. apply active_at_elem. split; [|exact Hmem].
    simpl. apply Hsoon. lia.
  - repeat split; try reflexivity. exact Hid.
Qed.

Lemma heartbeat_keeps_member_witness :
  healthy early /\ stored early "r1" = Some room_r1 /\
  bob ∈ players room_r1 /\
  exists w',
    Redis.updatePlayerHeartbeat "r1" "p2" early = Ok tt w' /\
    exists room'' w'' q,
      Redis.getRoom "r1" w' = Ok (Some room'') w'' /\
      q ∈ players room'' /\ id q = "p2" /\ vote q = Some "8".
Proof.
  split; [apply healthy_world_at|]. split; [reflexivity|].
  split; [right; left|].
  destruct (heartbeat_keeps_member early "r1" "p2" room_r1 bob
              (healthy_world_at _ _) eq_refl) as (w' & Hrun & Hnext).
  - right; left.
  - reflexivity.
  - simpl. lia.
  - exists w'. split; [exact Hrun|].
    destruct Hnext as (room'' & w'' & q & Hget & Hq & Hid & _ & Hvote & _).
    + intros k _. simpl. lia.
    + exists room'', w'', q. repeat split; assumption.
Defined.

(** X3.  A vote is there at the next fetch, and it is taken whether or
    not the votes are revealed.  While the service answers: if the stored
    room has a player [p] with the id [pid] that is active at the reading
    of the vote, the vote leaves [revealed] as it was; and if the reading
    of the next fetch is less than 300000 after every reading the vote
    took, that fetch returns a player with the id [pid], the name of [p],
    [vote = v] and [hasVoted = true]. *)
Theorem vote_is_there_at_next_fetch (w : World KV) (r pid v : string)
        (room : GameState) (p : Player) :
  healthy w ->
  stored w r = Some room ->
  p ∈ players room -> id p = pid ->
  (clock w (tick w) - lastSeen p < 300000)%Z ->
  exists room' w',
    Redis.updatePlayerVote r pid v w = Ok (Some room') w' /\
    revealed room' = revealed room /\
    ((forall k, (tick w <= k < tick w')%nat ->
                (clock w (tick w') - clock w k < 300000)%Z) ->
     exists room'' w'' q,
       Redis.getRoom r w' = Ok (Some room'') w'' /\
       q ∈ players room'' /\
       id q = pid /\ name q = name p /\ vote q = Some v /\ hasVoted q = true).
Proof.
  intros Hh Hst Hin Hid Hact.
  destruct w as [clk tk [d out c]]. unfold healthy, stored in *. simpl in *.
  destruct (d !! Redis.room_key r) as [e|] eqn:He; [|discriminate].
  simpl in Hst. injection Hst as <-.
  destruct (updatePlayerVote_run clk out Hh tk d c r pid v e He)
    as (n & m & Hn & Hrun). simpl in Hrun.
  eexists _, _. split; [exact Hrun|]. simpl. split; [reflexivity|]. intros Hsoon.
  set (sel := fun p0 : Player => String.eqb (id p0) pid) in *.
  set (act := active_at (clk tk) (players (value e))) in *.
  assert (Hp : p ∈ act) by (apply active_at_elem; split; assumption).
  assert (Hsel : sel p = true) by (apply String.eqb_eq; exact Hid).
  destruct (stamp_member sel (cast_vote v) clk (S (tk + n)) act p Hp Hsel)
    as (k & Hk & Hmem).
  match type of Hrun with
  | _ = Ok (Some ?room1) ?w1 =>
      destruct (getRoom_players w1 r room1) as (room'' & w'' & Hget & Hps)
  end.
  { intros i. apply Hh. }
  { unfold stored. simpl. rewrite lookup_insert_eq. reflexivity. }
  simpl in Hps.
  exists room'', w'', (cast_vote v (clk k) p).
  split; [exact Hget|]. split.
  - rewrite Hps. apply active_at_elem. split; [|exact Hmem].
    simpl. apply Hsoon. lia.
  - repeat split; try reflexivity. exact Hid.
Qed.

Lemma vote_is_there_at_next_fetch_witness :
  healthy early /\ stored early "r1" = Some room_r1 /\
  alice ∈ players room_r1 /\
  exists room' w',
    Redis.updatePlayerVote "r1" "p1" "5" early = Ok (Some room') w' /\
    exists room'' w'' q,
      Redis.getRoom "r1" w' = Ok (Some room'') w'' /\
      q ∈ players room'' /\ id q = "p1" /\ vote q = Some "5" /\ hasVoted q = true.
Proof.
  split; [apply healthy_world_at|]. split; [reflexivity|]. split; [left|].
  destruct (vote_is_there_at_next_fetch early "r1" "p1" "5" room_r1 alice
              (healthy_world_at _ _) eq_refl) as (room' & w' & Hrun & _ & Hnext).
  - left.
  - reflexivity.
  - simpl. lia.
  - exists room', w'. split; [exact Hrun|].
    destruct Hnext as (room'' & w'' & q & Hget & Hq & Hid & _ & Hvote & Hvoted).
    + intros k _. simpl. lia.
    + exists room'', w'', q. repeat split; assumption.
Defined.

(** X4.  Reveal touches nobody.  While the service answers, a reveal for
    a room without record returns null, is answered with 404 and creates
    nothing; for a room with a record it returns and stores the room with
    exactly its active players, each with the name, vote, [hasVoted] and
    [lastSeen] it had (a reveal is no sign of life), and with [createdAt]
    and [roomId] as they were. *)
Theorem toggleReveal_keeps_players (w : World KV) (r : string) :
  healthy w ->
  match stored w r with
  | None =>
      (exists w', Redis.toggleReveal r w = Ok None w' /\
                  data (backend w') = data (backend w)) /\
      (forall pid nm v, exists w',
          Route.POST Route.real r (Some (Route.mkBody "reveal" pid nm v)) w =
          Ok (Route.mkResponse (Route.ErrorJson "Room not found") 404) w' /\
          data (backend w') = data (backend w))
  | Some room =>
      exists room' w',
        Redis.toggleReveal r w = Ok (Some room') w' /\
        stored w' r = Some room' /\
        players room' = active_at (clock w (tick w)) (players room) /\
        createdAt room' = createdAt room /\
        roomId room' = roomId room
  end.
Proof.
  intros Hh. destruct w as [clk tk [d out c]]. unfold healthy, stored in *.
  simpl in *. destruct (d !! Redis.room_key r) as [e|] eqn:He; simpl.
  - destruct (toggleReveal_run clk out Hh tk d c r e He) as (n & m & Hn & Hrun).
    simpl in Hrun. eexists _, _. split; [exact Hrun|]. simpl.
    split; [rewrite lookup_insert_eq; reflexivity|]. repeat split.
  - split.
    + eexists. rewrite (toggleReveal_absent clk out Hh) by exact He. split; reflexivity.
    + intros pid nm v. eexists. rewrite POST_reveal_eq. unfold try_catch, bind. simpl.
      rewrite (toggleReveal_absent clk out Hh) by exact He. split; reflexivity.
Qed.

Lemma toggleReveal_keeps_players_witness :
  healthy late /\
  exists room' w',
    Redis.toggleReveal "r1" late = Ok (Some room') w' /\
    stored w' "r1" = Some room' /\
    players room' = [bob].
Proof.
  split; [apply healthy_world_at|].
  pose proof (toggleReveal_keeps_players late "r1" (healthy_world_at _ _)) as H.
  change (stored late "r1") with (Some room_r1) in H.
  destruct H as (room' & w' & H1 & H2 & H3 & _).
  exists room', w'. split; [exact H1|]. split; [exact H2|exact H3].
Defined.

(** X5.  [createRoom] starts the room over.  While the service answers,
    whatever was stored for [r]: [createRoom] returns and stores, with
    86400 seconds to live, a room without players, not revealed, with the
    id [r], [createdAt] its first reading and [lastActivity] its second; no
    other room changes; and the fetch that follows returns that very room
    and writes nothing. *)
Theorem createRoom_starts_over (w : World KV) (r : string) :
  healthy w ->
  exists room w',
    Redis.createRoom r w = Ok room w' /\
    room = {| players := []; revealed := false; roomId := r;
              createdAt := clock w (tick w);
              lastActivity := clock w (S (tick w)) |} /\
    data (backend w') !! Redis.room_key r = Some (mkEntry room 86400) /\
    (forall k, k <> Redis.room_key r ->
               data (backend w') !! k = data (backend w) !! k) /\
    exists w'', Redis.getRoom r w' = Ok (Some room) w'' /\
                data (backend w'') = data (backend w').
Proof.
  intros Hh. destruct w as [clk tk [d out c]]. unfold healthy in Hh. simpl in *.
  rewrite (createRoom_run clk out Hh). eexists _, _. split; [reflexivity|].
  split; [reflexivity|]. simpl. split; [apply lookup_insert_eq|].
  split; [intros k Hk; apply lookup_insert_ne; congruence|].
  rewrite (getRoom_run clk out Hh), lookup_insert_eq. simpl.
  eexists. split; reflexivity.
Qed.

Lemma createRoom_starts_over_witness :
  healthy early /\ stored early "r1" = Some room_r1 /\
  exists room w',
    Redis.createRoom "r1" early = Ok room w' /\
    players room = [] /\
    stored w' "r1" = Some room.
Proof.
  split; [apply healthy_world_at|]. split; [reflexivity|].
  destruct (createRoom_starts_over early "r1" (healthy_world_at _ _))
    as (room & w' & H1 & H2 & H3 & _).
  exists room, w'. split; [exact H1|]. split; [rewrite H2; reflexivity|].
  unfold stored. rewrite H3. reflexivity.
Defined.

(** X6.  The fetch of the handler.  While the service answers, [GET] for
    a room without record answers 404 "Room not found" and creates
    nothing; for a room with a record it answers 200 with the room and
    exactly its active players, each as it is stored, vote included,
    whether the votes are revealed or not. *)
Theorem GET_answers (w : World KV) (r : string) :
  healthy w ->
  match stored w r with
  | None =>
      exists w', Route.GET Route.real r w =
                 Ok (Route.mkResponse (Route.ErrorJson "Room not found") 404) w' /\
                 data (backend w') = data (backend w)
  | Some room =>
      exists room' w',
        Route.GET Route.real r w = Ok (Route.mkResponse (Route.RoomJson room') 200) w' /\
        players room' = active_at (clock w (tick w)) (players room) /\
        revealed room' = revealed room
  end.
Proof.
  intros Hh. destruct w as [clk tk [d out c]]. unfold healthy, stored in *.
  simpl in *. unfold Route.GET, bind. simpl.
  destruct (d !! Redis.room_key r) as [e|] eqn:He; simpl.
  - destruct (getRoom_fetch clk out Hh tk d c r e He) as (la & n & m & d' & _ & _ & Hget).
    rewrite Hget. eexists _, _. split; [reflexivity|]. split; reflexivity.
  - rewrite (getRoom_run clk out Hh), He. eexists. split; reflexivity.
Qed.

Lemma GET_answers_witness :
  healthy late /\
  (exists w', Route.GET Route.real "r7" late =
              Ok (Route.mkResponse (Route.ErrorJson "Room not found") 404) w') /\
  exists room' w',
    Route.GET Route.real "r1" late = Ok (Route.mkResponse (Route.RoomJson room') 200) w' /\
    players room' = [bob] /\ revealed room' = false.
Proof.
  split; [apply healthy_world_at|]. split.
  - pose proof (GET_answers late "r7" (healthy_world_at _ _)) as H.
    change (stored late "r7") with (@None GameState) in H.
    destruct H as (w' & H & _). exists w'. exact H.
  - pose proof (GET_answers late "r1" (healthy_world_at _ _)) as H.
    change (stored late "r1") with (Some room_r1) in H. exact H.
Defined.

(* ===================================================================== *)
(** ** The handler and the failures of the service *)
(* ===================================================================== *)

(** X7.  An action the handler does not know is answered with 400
    "Invalid action" without calling the service or reading the clock:
    the world is left as it was, with either implementation and also when
    the service is down. *)
Theorem POST_rejects_unknown_action {S} (svc : Route.Service S) (r : string)
        (body : Route.Body) (w : World S) :
  Route.action body <> "join" -> Route.action body <> "vote" ->
  Route.action body <> "reveal" -> Route.action body <> "reset" ->
  Route.action body <> "heartbeat" ->
  Route.POST svc r (Some body) w =
  Ok (Route.mkResponse (Route.ErrorJson "Invalid action") 400) w.
Proof.
  intros H1 H2 H3 H4 H5. unfold Route.POST. unfold bind at 1, ret at 1, try_catch.
  apply String.eqb_neq in H1, H2, H3, H4, H5.
  rewrite H1, H2, H3, H4, H5. reflexivity.
Qed.

Lemma POST_rejects_unknown_action_witness :
  Route.POST Route.real "r1" (Some (Route.mkBody "leave" "p1" "" "")) down =
  Ok (Route.mkResponse (Route.ErrorJson "Invalid action") 400) down.
Proof.
  apply (POST_rejects_unknown_action Route.real "r1"
           (Route.mkBody "leave" "p1" "" "") down); discriminate.
Defined.

(** X8.  Whatever a function of the service throws inside [POST] is
    answered with 500 "Internal server error", with either
    implementation; the world is left as the failure left it.  For a
    "join" the function is called after the handler has read the clock for
    the player's [lastSeen]. *)
Theorem POST_answers_500_when_the_service_throws {S} (svc : Route.Service S)
        (r pid nm v : string) (w w' : World S) (e : Exn) :
  let internal := Route.mkResponse (Route.ErrorJson "Internal server error") 500 in
  (Route.addPlayer svc r (mkPlayer pid nm None false (clock w (tick w)))
                   (mkWorld (clock w) (Datatypes.S (tick w)) (backend w)) = Threw e w' ->
   Route.POST svc r (Some (Route.mkBody "join" pid nm v)) w = Ok internal w') /\
  (Route.updatePlayerVote svc r pid v w = Threw e w' ->
   Route.POST svc r (Some (Route.mkBody "vote" pid nm v)) w = Ok internal w') /\
  (Route.toggleReveal svc r w = Threw e w' ->
   Route.POST svc r (Some (Route.mkBody "reveal" pid nm v)) w = Ok internal w') /\
  (Route.resetVotes svc r w = Threw e w' ->
   Route.POST svc r (Some (Route.mkBody "reset" pid nm v)) w = Ok internal w') /\
  (Route.updatePlayerHeartbeat svc r pid w = Threw e w' ->
   Route.POST svc r (Some (Route.mkBody "heartbeat" pid nm v)) w = Ok internal w').
Proof.
  simpl. repeat split; intros H.
  - rewrite POST_join_eq. unfold try_catch, bind, Date_now. rewrite H. reflexivity.
  - rewrite POST_vote_eq. unfold try_catch, bind. rewrite H. reflexivity.
  - rewrite POST_reveal_eq. unfold try_catch, bind. rewrite H. reflexivity.
  - rewrite POST_reset_eq. unfold try_catch, bind. rewrite H. reflexivity.
  - rewrite POST_heartbeat_eq. unfold try_catch, bind. rewrite H. reflexivity.
Qed.

Lemma POST_answers_500_when_the_service_throws_witness :
  (exists w', Redis.resetVotes "r1" down = Threw KvError w' /\
              Route.POST Route.real "r1" (Some (Route.mkBody "reset" "p1" "" "")) down =
              Ok (Route.mkResponse (Route.ErrorJson "Internal server error") 500) w') /\
  (exists w', Redis.resetVotes "r1" (flaky 1) = Threw KvError w' /\
              Route.POST Route.real "r1" (Some (Route.mkBody "reset" "p1" "" "")) (flaky 1) =
              Ok (Route.mkResponse (Route.ErrorJson "Internal server error") 500) w').
Proof.
  split; eexists; (split; [vm_compute; reflexivity|]).
  - apply (POST_answers_500_when_the_service_throws Route.real "r1" "p1" "" "" down _ KvError).
    vm_compute. reflexivity.
  - apply (POST_answers_500_when_the_service_throws Route.real "r1" "p1" "" "" (flaky 1) _ KvError).
    vm_compute. reflexivity.
Defined.

(** *** What a failed request leaves in the store *)

Lemma getRoom_at_most_prunes r (w : World KV) :
  at_most_pruned r w (world_of (Redis.getRoom r w)).
Proof.
  destruct w as [clk tk [d out c]]. unfold at_most_pruned, stored.
  unfold Redis.getRoom, Redis.updateRoom, bind, kv_get. simpl.
  destruct (out c); [left; reflexivity|].
  destruct (d !! Redis.room_key r) as [e|] eqn:He; simpl; [|left; reflexivity].
  change (filter _ (players (value e))) with (active_at (clk tk) (players (value e))).
  destruct (Nat.eqb_spec (length (active_at (clk tk) (players (value e))))
                         (length (players (value e)))) as [Hlen|Hlen];
    simpl; [left; reflexivity|].
  unfold kv_set. simpl. destruct (out (S c)); simpl; [left; reflexivity|].
  right. exists (value e). split; [reflexivity|]. split; [|reflexivity].
  pose proof (length_filter (fun p => (clk tk - lastSeen p < 300000)%Z) (players (value e))) as Hle.
  unfold active_at in *. simpl. lia.
Qed.

Lemma getRoom_keeps_clock r (w w' : World KV) o :
  Redis.getRoom r w = Ok o w' -> clock w' = clock w.
Proof.
  destruct w as [clk tk [d out c]].
  unfold Redis.getRoom, Redis.updateRoom, bind, kv_get. simpl.
  destruct (out c); [discriminate|].
  destruct (d !! Redis.room_key r) as [e|]; simpl; [|intros [= _ <-]; reflexivity].
  destruct (negb _); simpl; [|intros [= _ <-]; reflexivity].
  unfold kv_set. simpl. destruct (out (S c)); simpl; [discriminate|].
  intros [= _ <-]. reflexivity.
Qed.

Lemma updateRoom_throws_nothing_written r st (w w' : World KV) e :
  Redis.updateRoom r st w = Threw e w' -> data (backend w') = data (backend w).
Proof.
  destruct w as [clk tk [d out c]]. unfold Redis.updateRoom, bind, Date_now, kv_set.
  simpl. destruct (out c); simpl; [|discriminate]. intros [= _ <-]. reflexivity.
Qed.

Lemma at_most_pruned_then_same r (w w1 w2 : World KV) :
  at_most_pruned r w w1 -> data (backend w2) = data (backend w1) ->
  at_most_pruned r w w2.
Proof. unfold at_most_pruned. intros [H|H] Heq; rewrite Heq; [left|right]; exact H. Qed.

Lemma bind_threw {W A B} (m : M W A) (k : A -> M W B) w e w' :
  bind m k w = Threw e w' ->
  m w = Threw e w' \/ exists a w1, m w = Ok a w1 /\ k a w1 = Threw e w'.
Proof.
  unfold bind. destruct (m w) as [a w1|e1 w1]; intros H.
  - right. exists a, w1. split; [reflexivity|exact H].
  - left. injection H as -> ->. reflexivity.
Qed.

Lemma mapM_stamp_backend {S} (c : Player -> bool) (g : Z -> Player -> Player)
      (f : Player -> M (World S) Player) l (w : World S) :
  (forall p w, f p w = (if c p then t <- Date_now ;; ret (g t p) else ret p) w) ->
  exists ps w', mapM f l w = Ok ps w' /\ backend w' = backend w.
Proof.
  intros Hf. rewrite (mapM_stamp c g f l w Hf). eexists _, _. split; reflexivity.
Qed.

(** A failed call of a function that starts with a fetch and ends with
    its one write: what the fetch threw, or (after steps that write
    nothing) what [updateRoom] threw. *)
Lemma failed_fetch r (w w' : World KV) e :
  Redis.getRoom r w = Threw e w' -> at_most_pruned r w w'.
Proof. intros H. pose proof (getRoom_at_most_prunes r w) as Hf. rewrite H in Hf. exact Hf. Qed.

Lemma failed_write r st (w w1 w2 w' : World KV) o e :
  Redis.getRoom r w = Ok o w1 -> backend w2 = backend w1 ->
  Redis.updateRoom r st w2 = Threw e w' -> at_most_pruned r w w'.
Proof.
  intros Hget Hb Hup. pose proof (getRoom_at_most_prunes r w) as Hf.
  rewrite Hget in Hf. simpl in Hf.
  apply updateRoom_throws_nothing_written in Hup.
  apply (at_most_pruned_then_same r w w1); [exact Hf|]. rewrite Hup, Hb. reflexivity.
Qed.

(** X9.  A failed request is not half applied.  If [updatePlayerVote],
    [toggleReveal], [resetVotes] or [updatePlayerHeartbeat] throws,
    whichever call of the service was rejected, the records of the service
    are what they were, except that the room may have been written with
    exactly the players dropped that are inactive at the first reading of
    the call (and its [lastActivity] set to the second reading): no vote,
    no flag and no [lastSeen] of the failed request is stored. *)
Theorem failed_request_is_not_half_applied (w w' : World KV) (r pid v : string)
        (e : Exn) :
  (Redis.updatePlayerVote r pid v w = Threw e w' -> at_most_pruned r w w') /\
  (Redis.toggleReveal r w = Threw e w' -> at_most_pruned r w w') /\
  (Redis.resetVotes r w = Threw e w' -> at_most_pruned r w w') /\
  (Redis.updatePlayerHeartbeat r pid w = Threw e w' -> at_most_pruned r w w').
Proof.
  repeat split; intros H.
  - unfold Redis.updatePlayerVote in H.
    apply bind_threw in H as [H|(o & w1 & Hget & H)]; [exact (failed_fetch _ _ _ _ H)|].
    destruct o as [room|]; [|discriminate H].
    apply bind_threw in H as [H|(ps & w2 & Hmap & H)].
    + destruct (mapM_stamp_backend (fun p => String.eqb (id p) pid) (cast_vote v)
                  (fun p => if String.eqb (id p) pid
                            then t <- Date_now ;; ret (cast_vote v t p) else ret p)
                  (players room) w1) as (ps & w2 & Hmap & _); [reflexivity|].
      rewrite Hmap in H. discriminate H.
    + apply bind_threw in H as [H|(g & w3 & _ & H)]; [|discriminate H].
      refine (failed_write r _ w w1 w2 w' _ e Hget _ H).
      rewrite (mapM_stamp (fun p => String.eqb (id p) pid) (cast_vote v)) in Hmap
        by reflexivity.
      injection Hmap as _ <-. reflexivity.
  - unfold Redis.toggleReveal in H.
    apply bind_threw in H as [H|(o & w1 & Hget & H)]; [exact (failed_fetch _ _ _ _ H)|].
    destruct o as [room|]; [|discriminate H].
    apply bind_threw in H as [H|(g & w3 & _ & H)]; [|discriminate H].
    exact (failed_write r _ w w1 w1 w' _ e Hget eq_refl H).
  - unfold Redis.resetVotes in H.
    apply bind_threw in H as [H|(o & w1 & Hget & H)]; [exact (failed_fetch _ _ _ _ H)|].
    destruct o as [room|]; [|discriminate H].
    apply bind_threw in H as [H|(ps & w2 & Hmap & H)].
    + destruct (mapM_stamp_backend (fun _ => true) clear_vote
                  (fun p => t <- Date_now ;; ret (clear_vote t p))
                  (players room) w1) as (ps & w2 & Hmap & _); [reflexivity|].
      rewrite Hmap in H. discriminate H.
    + apply bind_threw in H as [H|(g & w3 & _ & H)]; [|discriminate H].
      refine (failed_write r _ w w1 w2 w' _ e Hget _ H).
      rewrite (mapM_stamp (fun _ => true) clear_vote) in Hmap by reflexivity.
      injection Hmap as _ <-. reflexivity.
  - unfold Redis.updatePlayerHeartbeat in H.
    apply bind_threw in H as [H|(o & w1 & Hget & H)]; [exact (failed_fetch _ _ _ _ H)|].
    destruct o as [room|]; [|discriminate H].
    apply bind_threw in H as [H|(ps & w2 & Hmap & H)].
    + destruct (mapM_stamp_backend (fun p => String.eqb (id p) pid) set_lastSeen
                  (fun p => if String.eqb (id p) pid
                            then t <- Date_now ;; ret (set_lastSeen t p) else ret p)
                  (players room) w1) as (ps & w2 & Hmap & _); [reflexivity|].
      rewrite Hmap in H. discriminate H.
    + apply bind_threw in H as [H|(g & w3 & _ & H)]; [|discriminate H].
      refine (failed_write r _ w w1 w2 w' _ e Hget _ H).
      rewrite (mapM_stamp (fun p => String.eqb (id p) pid) set_lastSeen) in Hmap
        by reflexivity.
      injection Hmap as _ <-. reflexivity.
Qed.

Lemma failed_request_is_not_half_applied_witness :
  exists w',
    Redis.updatePlayerVote "r1" "p2" "3" (flaky 2) = Threw KvError w' /\
    at_most_pruned "r1" (flaky 2) w' /\
    (exists room', stored w' "r1" = Some room' /\ players room' = [bob]).
Proof.
  eexists. split; [vm_compute; reflexivity|]. split.
  - apply (failed_request_is_not_half_applied (flaky 2) _ "r1" "p2" "3" KvError).
    vm_compute. reflexivity.
  - eexists. split; reflexivity.
Defined.

(* ===================================================================== *)
(** ** What requests never do: touch another room, delete a room, change
       when it was created *)
(* ===================================================================== *)

Section Kept.
Variables (k : string) (P : option Entry -> Prop).

Lemma kept_Date_now : triple (kept k P) Date_now (fun _ => True).
Proof. intros w Hw. split; [exact Hw|exact Logic.I]. Qed.

Lemma kept_kv_get r :
  may_write k P r ->
  triple (kept k P) (kv_get (Redis.room_key r))
         (fun o => match o with
                   | Some g => origin_ok k P r g
                   | None => Redis.room_key r <> k
                   end).
Proof.
  intros Hm w Hw. unfold kv_get. destruct (outage _ _); [exact Hw|].
  split; [exact Hw|]. unfold kept in Hw.
  destruct (data (backend w) !! Redis.room_key r) as [e|] eqn:He; simpl.
  - intros Hk. exists e. rewrite Hk in He. rewrite He in Hw.
    split; [exact Hw|split; reflexivity].
  - intros Hk. destruct Hm as [Hne|[HnN _]]; [contradiction|].
    rewrite Hk in He. rewrite He in Hw. contradiction.
Qed.

Lemma kept_kv_set r v ex :
  may_write k P r -> origin_ok k P r v ->
  triple (kept k P) (kv_set (Redis.room_key r) v ex) (fun _ => True).
Proof.
  intros Hm Hv w Hw. unfold kv_set. destruct (outage _ _); [exact Hw|].
  split; [|exact Logic.I]. unfold kept in *. simpl.
  destruct (decide (Redis.room_key r = k)) as [Hk|Hne].
  - rewrite Hk, lookup_insert_eq. destruct (Hv Hk) as (e & He & Ho).
    destruct Hm as [Hne|[_ Hst]]; [contradiction|]. exact (Hst e v ex He Ho).
  - rewrite lookup_insert_ne by exact Hne. exact Hw.
Qed.

Lemma kept_updateRoom r st :
  may_write k P r -> origin_ok k P r st ->
  triple (kept k P) (Redis.updateRoom r st) (origin_ok k P r).
Proof.
  intros Hm Hst. unfold Redis.updateRoom.
  triple_step; [apply kept_Date_now|].
  triple_step; [apply kept_kv_set; [exact Hm|exact Hst]|].
  triple_step. exact Hst.
Qed.

Lemma kept_getRoom r :
  may_write k P r ->
  triple (kept k P) (Redis.getRoom r)
         (fun o => match o with
                   | Some g => origin_ok k P r g
                   | None => Redis.room_key r <> k
                   end).
Proof.
  intros Hm. unfold Redis.getRoom.
  triple_step; [apply kept_kv_get; exact Hm|]. rename a into o.
  destruct o as [room|]; [|triple_step; assumption].
  triple_step; [apply kept_Date_now|].
  triple_step.
  - triple_step; [apply kept_updateRoom; [exact Hm|assumption]|].
    triple_step. assumption.
  - triple_step. assumption.
Qed.

Lemma kept_createRoom r :
  Redis.room_key r <> k -> triple (kept k P) (Redis.createRoom r) (origin_ok k P r).
Proof.
  intros Hne. unfold Redis.createRoom.
  triple_step; [apply kept_Date_now|].
  triple_step; [apply kept_Date_now|].
  triple_step; [apply kept_kv_set; [left; exact Hne|intros Hk; contradiction]|].
  triple_step. intros Hk. contradiction.
Qed.

Lemma kept_addPlayer r player :
  may_write k P r -> triple (kept k P) (Redis.addPlayer r player) (fun _ => True).
Proof.
  intros Hm. unfold Redis.addPlayer.
  triple_step; [apply kept_getRoom; exact Hm|]. rename a into o.
  eapply triple_bind with (Q := origin_ok k P r).
  { destruct o as [room|]; [triple_step; assumption|apply kept_createRoom; assumption]. }
  intros room Hroom.
  eapply triple_bind with (Q := fun _ => True).
  { destruct (0 <=? _)%Z; (triple_step; [apply kept_Date_now|]); triple_step; exact Logic.I. }
  intros ps _. eapply triple_weaken; [apply kept_updateRoom; [exact Hm|exact Hroom]|].
  intros; exact Logic.I.
Qed.

(** The map over the players writes nothing. *)
Ltac kept_map :=
  eapply triple_weaken;
  [ apply triple_mapM with (R := fun _ _ => True); intros p;
    first [ destruct (String.eqb (id p) _); [|apply triple_ret; exact Logic.I] | idtac ];
    (eapply triple_bind; [apply kept_Date_now|]); intros; apply triple_ret; exact Logic.I
  | intros; exact Logic.I ].

Lemma kept_updatePlayerVote r pid v :
  may_write k P r -> triple (kept k P) (Redis.updatePlayerVote r pid v) (fun _ => True).
Proof.
  intros Hm. unfold Redis.updatePlayerVote.
  triple_step; [apply kept_getRoom; exact Hm|]. rename a into o.
  destruct o as [room|]; [|triple_step; exact Logic.I].
  eapply triple_bind with (Q := fun _ => True); [kept_map|]. intros ps _.
  triple_step; [apply kept_updateRoom; [exact Hm|assumption]|].
  triple_step. exact Logic.I.
Qed.

Lemma kept_toggleReveal r :
  may_write k P r -> triple (kept k P) (Redis.toggleReveal r) (fun _ => True).
Proof.
  intros Hm. unfold Redis.toggleReveal.
  triple_step; [apply kept_getRoom; exact Hm|]. rename a into o.
  destruct o as [room|]; [|triple_step; exact Logic.I].
  triple_step; [apply kept_updateRoom; [exact Hm|assumption]|].
  triple_step. exact Logic.I.
Qed.

Lemma kept_resetVotes r :
  may_write k P r -> triple (kept k P) (Redis.resetVotes r) (fun _ => True).
Proof.
  intros Hm. unfold Redis.resetVotes.
  triple_step; [apply kept_getRoom; exact Hm|]. rename a into o.
  destruct o as [room|]; [|triple_step; exact Logic.I].
  eapply triple_bind with (Q := fun _ => True); [kept_map|]. intros ps _.
  triple_step; [apply kept_updateRoom; [exact Hm|assumption]|].
  triple_step. exact Logic.I.
Qed.

Lemma kept_updatePlayerHeartbeat r pid :
  may_write k P r -> triple (kept k P) (Redis.updatePlayerHeartbeat r pid) (fun _ => True).
Proof.
  intros Hm. unfold Redis.updatePlayerHeartbeat.
  triple_step; [apply kept_getRoom; exact Hm|]. rename a into o.
  destruct o as [room|]; [|triple_step; exact Logic.I].
  eapply triple_bind with (Q := fun _ => True); [kept_map|]. intros ps _.
  triple_step; [apply kept_updateRoom; [exact Hm|assumption]|].
  triple_step. exact Logic.I.
Qed.

(** One step of a proof about the handler: the function of the service a
    branch calls, by its name. *)
Ltac kept_call Hm :=
  lazymatch goal with
  | |- triple _ Date_now _ => apply kept_Date_now
  | |- triple _ (Redis.getRoom _) _ => apply kept_getRoom; exact Hm
  | |- triple _ (Redis.addPlayer _ _) _ => apply kept_addPlayer; exact Hm
  | |- triple _ (Redis.updatePlayerVote _ _ _) _ => apply kept_updatePlayerVote; exact Hm
  | |- triple _ (Redis.toggleReveal _) _ => apply kept_toggleReveal; exact Hm
  | |- triple _ (Redis.resetVotes _) _ => apply kept_resetVotes; exact Hm
  | |- triple _ (Redis.updatePlayerHeartbeat _ _) _ =>
      apply kept_updatePlayerHeartbeat; exact Hm
  | |- True => exact Logic.I
  | |- _ => triple_step
  end.

Lemma kept_GET r :
  may_write k P r -> triple (kept k P) (Route.GET Route.real r) (fun _ => True).
Proof.
  intros Hm. unfold Route.GET.
  cbn [Route.getRoom Route.real]. repeat kept_call Hm.
Qed.

Lemma kept_POST r parsed :
  may_write k P r -> triple (kept k P) (Route.POST Route.real r parsed) (fun _ => True).
Proof.
  intros Hm. unfold Route.POST.
  cbn [Route.addPlayer Route.updatePlayerVote Route.toggleReveal Route.resetVotes
       Route.updatePlayerHeartbeat Route.real].
  eapply triple_bind with (Q := fun _ => True).
  { destruct parsed; [triple_step; exact Logic.I|apply triple_throw]. }
  intros body _. apply triple_try_catch; [|intros e; triple_step; exact Logic.I].
  repeat kept_call Hm.
Qed.

(** One request for a room that may write. *)
Lemma kept_handle q w :
  may_write k P (room_of q) -> kept k P w -> kept k P (world_of (handle Route.real q w)).
Proof.
  intros Hm Hw. destruct q as [r|r parsed]; unfold handle, room_of in *.
  - pose proof (kept_GET r Hm w Hw) as H.
    destruct (Route.GET Route.real r w); [apply H|exact H].
  - pose proof (kept_POST r parsed Hm w Hw) as H.
    destruct (Route.POST Route.real r parsed w); [apply H|exact H].
Qed.

End Kept.

(** X10.  A request touches no other room.  Whatever the clock reads and
    whichever calls the service rejects, a request for the room [r] (the
    fetch or any action, parsed or not) leaves what the service holds
    under every key other than "room:" ++ [r] as it was: record, time to
    live, or absence. *)
Theorem requests_leave_other_rooms_alone (w : World KV) (q : Request) (k : string) :
  k <> Redis.room_key (room_of q) ->
  data (backend (world_of (handle Route.real q w))) !! k = data (backend w) !! k.
Proof.
  intros Hne.
  apply (kept_handle k (fun o => o = data (backend w) !! k) q w).
  - left. congruence.
  - reflexivity.
Qed.

Lemma requests_leave_other_rooms_alone_witness :
  "room:r1" <> Redis.room_key "r2" /\
  data (backend (world_of (handle Route.real
                             (Post "r2" (Some (Route.mkBody "join" "p3" "Carol" "")))
                             two_rooms))) !! "room:r1"
  = Some (mkEntry room_r1 500).
Proof.
  split; [discriminate|].
  rewrite (requests_leave_other_rooms_alone two_rooms
             (Post "r2" (Some (Route.mkBody "join" "p3" "Carol" ""))) "room:r1")
    by discriminate.
  reflexivity.
Defined.

(** X11.  No request deletes a room or changes its origin.  Whatever the
    clock reads and whichever calls the service rejects: if the service
    holds a record for [r], then after any sequence of requests (for any
    rooms) it still holds one for [r], with the [createdAt] and the
    [roomId] it had.  Only the expiry of the service removes a room. *)
Theorem rooms_are_never_deleted (w : World KV) (qs : list Request) (r : string)
        (e : Entry) :
  data (backend w) !! Redis.room_key r = Some e ->
  exists e',
    data (backend (serve Route.real qs w)) !! Redis.room_key r = Some e' /\
    createdAt (value e') = createdAt (value e) /\
    roomId (value e') = roomId (value e).
Proof.
  intros He.
  set (P := fun o : option Entry =>
              exists e', o = Some e' /\ same_origin (value e) (value e')).
  assert (Hst : origin_stable P).
  { split.
    - intros (e' & Hn & _). discriminate.
    - intros e1 g ex (e' & [= <-] & Ho1 & Ho2) [Hg1 Hg2].
      exists (mkEntry g ex). split; [reflexivity|]. split; simpl; congruence. }
  assert (Hall : forall qs w, kept (Redis.room_key r) P w ->
                              kept (Redis.room_key r) P (serve Route.real qs w)).
  { clear w He. intros qs'. induction qs' as [|q qs' IH]; intros w Hw; simpl; [exact Hw|].
    apply IH. apply kept_handle; [right; exact Hst|exact Hw]. }
  destruct (Hall qs w) as (e' & He' & Ho1 & Ho2).
  - exists e. split; [exact He|split; reflexivity].
  - exists e'. split; [exact He'|]. split; assumption.
Qed.

Lemma rooms_are_never_deleted_witness :
  data (backend early) !! Redis.room_key "r1" = Some (mkEntry room_r1 86400) /\
  exists e',
    data (backend (serve Route.real session early)) !! Redis.room_key "r1" = Some e' /\
    createdAt (value e') = 600000%Z /\
    roomId (value e') = "r1".
Proof.
  split; [reflexivity|].
  exact (rooms_are_never_deleted early session "r1" (mkEntry room_r1 86400) eq_refl).
Defined.

(* ===================================================================== *)
(** ** Joining on the stand-in *)
(* ===================================================================== *)

Section MockJoin.
Variable clk : nat -> Z.

Local Abbreviation Wm tk d := (mkWorld clk tk (d : Rooms)).
Local Abbreviation key := RedisMock.room_key.

Lemma mock_addPlayer_absent tk d r player :
  d !! key r = None ->
  let room := mkGameState [player] false r (clk tk) (clk (S (S tk))) in
  RedisMock.addPlayer r player (Wm tk d) =
  Ok room (Wm (S (S (S tk))) (<[key r := room]> d)).
Proof.
  intros He. simpl. unfold RedisMock.addPlayer. unfold bind at 1.
  rewrite mock_getRoom_run, He. unfold bind at 1. unfold RedisMock.createRoom.
  unfold bind, Date_now, RedisMock.rooms_set, ret. simpl.
  unfold set_backend. simpl. rewrite mock_updateRoom_run. simpl.
  rewrite insert_insert_eq. reflexivity.
Qed.

Lemma mock_addPlayer_present tk d r player room :
  d !! key r = Some room ->
  exists n,
    (n <= 1)%nat /\
    let act := active_at (clk tk) (players room) in
    let room' := set_lastActivity (clk (S (tk + n)))
                   (set_players (upsert player act) room) in
    RedisMock.addPlayer r player (Wm tk d) =
    Ok room' (Wm (S (S (tk + n))) (<[key r := room']> d)).
Proof.
  intros He. unfold RedisMock.addPlayer. unfold bind at 1.
  rewrite mock_getRoom_run, He. simpl.
  destruct (Nat.eqb_spec (length (active_at (clk tk) (players room)))
                         (length (players room))) as [Hlen|Hlen].
  - exists 0%nat. split; [lia|]. simpl.
    unfold bind at 1, ret at 1. rewrite mock_updateRoom_run.
    rewrite !Nat.add_0_r. unfold active_at in *.
    rewrite (filter_length_eq _ _ Hlen). reflexivity.
  - exists 1%nat. split; [lia|]. simpl.
    unfold bind at 1, ret at 1. rewrite mock_updateRoom_run.
    rewrite !Nat.add_1_r. rewrite insert_insert_eq. reflexivity.
Qed.

End MockJoin.

(** X12.  Joining on the stand-in.  A "join" request for [pid] under the
    name [nm] is always answered with a room that is the room the map holds
    for [r] afterwards.  The player it puts there is the one the handler
    made: [vote = null], [hasVoted = false] and as [lastSeen] the reading
    the handler took, the first of the request ([addPlayer] of the
    stand-in takes none of its own).  When [r] had no room, that player is
    the only one; otherwise it overwrites the first active player with the
    id [pid], or goes to the end when no active player has that id. *)
Theorem join_on_the_stand_in (w : World Rooms) (r pid nm v : string) :
  let fresh := {| id := pid; name := nm; vote := None; hasVoted := false;
                  lastSeen := clock w (tick w) |} in
  exists room' w',
    Route.POST Route.mock r (Some (Route.mkBody "join" pid nm v)) w =
    Ok (Route.mkResponse (Route.RoomJson room') 200) w' /\
    backend w' !! RedisMock.room_key r = Some room' /\
    fresh ∈ players room' /\
    match backend w !! RedisMock.room_key r with
    | None => players room' = [fresh]
    | Some room =>
        let act := active_at (clock w (S (tick w))) (players room) in
        (forall i p,
            act !! i = Some p -> id p = pid ->
            (forall j p', (j < i)%nat -> act !! j = Some p' -> id p' <> pid) ->
            players room' = <[i := fresh]> act) /\
        ((forall p, p ∈ act -> id p <> pid) ->
         players room' = (act ++ [fresh])%list)
    end.
Proof.
  destruct w as [clk tk d]. simpl.
  rewrite POST_join_eq. unfold try_catch. unfold bind at 1, Date_now at 1.
  simpl. unfold bind at 1.
  set (fresh := {| id := pid; name := nm; vote := None; hasVoted := false;
                   lastSeen := clk tk |}).
  destruct (d !! RedisMock.room_key r) as [room|] eqn:He.
  - destruct (mock_addPlayer_present clk (S tk) d r fresh room He) as (n & Hn & Hrun).
    simpl in Hrun. rewrite Hrun. unfold ret.
    eexists _, _. split; [reflexivity|]. simpl.
    split; [apply lookup_insert_eq|].
    set (act := active_at (clk (S tk)) (players room)).
    split; [|split].
    + unfold upsert.
      destruct (Z.leb_spec 0 (findIndex (fun p => String.eqb (id p) (id fresh)) act)) as [Hge|Hlt].
      * destruct (findIndex_some _ _ Hge) as (x & Hx & _).
        apply list_elem_of_insert. apply lookup_lt_Some in Hx. exact Hx.
      * apply elem_of_app. right. left.
    + intros i p Hi Hid Hfirst. apply (upsert_replace fresh act i p); assumption.
    + intros Hnone. apply upsert_append. exact Hnone.
  - rewrite mock_addPlayer_absent by exact He. unfold ret.
    eexists _, _. split; [reflexivity|]. simpl.
    split; [apply lookup_insert_eq|]. split; [left|reflexivity].
Qed.

(* ===================================================================== *)
(** ** What the component shows *)
(* ===================================================================== *)

(** X13.  "Everybody voted" is "as many voted as there are players": the
    Reveal button is enabled exactly when the count the page shows equals
    the number of players; in a room without players it is enabled. *)
Theorem allVoted_iff_count (ps : list Player) :
  PlanningPoker.allVoted ps = true <->
  PlanningPoker.votedCount ps = length ps.
Proof.
  unfold PlanningPoker.allVoted, PlanningPoker.votedCount.
  induction ps as [|p ps IH]; simpl; [split; reflexivity|].
  destruct (hasVoted p); simpl.
  - rewrite IH. split; [intros ->; reflexivity|intros [= H]; exact H].
  - split; [discriminate|]. intros H.
    pose proof (List.filter_length_le hasVoted ps). lia.
Qed.

Lemma remove_dups_one {A} `{EqDecision A} (l : list A) :
  length (remove_dups l) = 1%nat <-> exists x, l <> [] /\ forall y, y ∈ l -> y = x.
Proof.
  split.
  - intros Hlen. destruct (remove_dups l) as [|x [|? ?]] eqn:Hd; try discriminate.
    exists x. split.
    + intros ->. discriminate.
    + intros y Hy. apply elem_of_remove_dups in Hy. rewrite Hd in Hy.
      apply list_elem_of_singleton in Hy. exact Hy.
  - intros (x & Hne & Hall).
    pose proof (NoDup_remove_dups l) as Hnd.
    assert (Hall' : forall y, y ∈ remove_dups l -> y = x)
      by (intros y Hy; apply Hall, elem_of_remove_dups, Hy).
    destruct (remove_dups l) as [|a [|b l']] eqn:Hd.
    + destruct l as [|z l]; [contradiction|].
      assert (Hz : z ∈ remove_dups (z :: l)) by (apply elem_of_remove_dups; left).
      rewrite Hd in Hz. apply elem_of_nil in Hz. contradiction.
    + reflexivity.
    + exfalso. apply NoDup_cons in Hnd as [Hnotin _]. apply Hnotin.
      rewrite (Hall' a) by left. rewrite (Hall' b) by (right; left). left.
Qed.

(** X14.  The page says "Unanimous" exactly when there is at least one
    player and all players have the same vote, where not having voted
    ([null]) counts as a vote of its own. *)
Theorem unanimous_iff_one_vote (ps : list Player) :
  PlanningPoker.unanimous ps = true <->
  exists v, ps <> [] /\ forall p, p ∈ ps -> vote p = v.
Proof.
  unfold PlanningPoker.unanimous. rewrite Nat.eqb_eq, remove_dups_one.
  split; intros (v & Hne & Hall); exists v; split.
  - intros ->. apply Hne. reflexivity.
  - intros p Hp. apply Hall. apply list_elem_of_fmap. exists p. split; [reflexivity|exact Hp].
  - intros Hnil. apply fmap_nil_inv in Hnil. contradiction.
  - intros y Hy. apply list_elem_of_fmap in Hy as (p & -> & Hp). apply Hall. exact Hp.
Qed.

(** X15.  A card shows a vote only in the open: it shows the vote [v]
    exactly when the votes are revealed and the player's vote is [v], not
    empty; otherwise it shows a card face down when [hasVoted] is set and
    a dash when it is not.  In particular nothing is shown of a vote while
    [revealed] is false, and a revealed empty vote shows as a card face
    down. *)
Theorem cardFace_shows_votes_only_when_revealed (revealed : bool) (p : Player) :
  (forall v, PlanningPoker.cardFace revealed p = PlanningPoker.ShowVote v <->
             revealed = true /\ vote p = Some v /\ v <> "") /\
  ((revealed = false \/ vote p = None \/ vote p = Some "") ->
   PlanningPoker.cardFace revealed p =
   if hasVoted p then PlanningPoker.CardBack else PlanningPoker.Dash).
Proof.
  unfold PlanningPoker.cardFace. split.
  - intros v. destruct (vote p) as [u|]; simpl.
    + destruct revealed; simpl.
      * destruct (String.eqb_spec u "") as [->|Hne]; simpl.
        -- destruct (hasVoted p); split; try discriminate;
             intros (_ & [= <-] & H); contradiction.
        -- split; [intros [= <-]; auto|]. intros (_ & [= <-] & _). reflexivity.
      * destruct (hasVoted p); split; try discriminate; intros [? _]; discriminate.
    + destruct (hasVoted p); split; try discriminate; intros (_ & ? & _); discriminate.
  - intros H. destruct (vote p) as [u|]; [|reflexivity].
    destruct H as [ -> | [H | H] ]; [reflexivity|discriminate|].
    injection H as ->. simpl. rewrite andb_false_r. reflexivity.
Qed.

Lemma cardFace_shows_votes_only_when_revealed_witness :
  (PlanningPoker.cardFace true bob = PlanningPoker.ShowVote "8") /\
  (PlanningPoker.cardFace false bob = PlanningPoker.CardBack).
Proof.
  destruct (cardFace_shows_votes_only_when_revealed true bob) as [Hshow _].
  destruct (cardFace_shows_votes_only_when_revealed false bob) as [_ Hhide].
  split.
  - apply Hshow. repeat split. discriminate.
  - apply Hhide. left. reflexivity.
Defined.

(** X16.  After a reset the page shows no votes.  While the service
    answers, the players of the room [resetVotes] returns count as zero
    voted, each of their cards shows a dash whether or not votes are
    revealed, the summary card is not rendered, and unless the room is
    empty the Reveal button is disabled. *)
Theorem after_reset_every_card_is_a_dash (w : World KV) (r : string)
        (room : GameState) :
  healthy w ->
  stored w r = Some room ->
  exists room' w',
    Redis.resetVotes r w = Ok (Some room') w' /\
    PlanningPoker.votedCount (players room') = 0%nat /\
    (forall b p, p ∈ players room' -> PlanningPoker.cardFace b p = PlanningPoker.Dash) /\
    PlanningPoker.showSummary (revealed room') (players room') = false /\
    (players room' <> [] -> PlanningPoker.allVoted (players room') = false).
Proof.
  intros Hh Hst. destruct w as [clk tk [d out c]]. unfold healthy, stored in *.
  simpl in *. destruct (d !! Redis.room_key r) as [e|] eqn:He; [|discriminate].
  destruct (resetVotes_run clk out Hh tk d c r e He) as (n & m & Hn & Hrun).
  simpl in Hrun. eexists _, _. split; [exact Hrun|]. simpl.
  set (ps := stamp _ _ _ _ _).
  assert (Hall : Forall (fun q => vote q = None /\ hasVoted q = false) ps).
  { eapply Forall2_right.
    - apply stamp_Forall2 with (lo := 0%nat)
        (hi := (S (tk + n) + hits (fun _ => true) (active_at (clk tk) (players (value e))))%nat); lia.
    - simpl. intros p q (k & _ & ->). split; reflexivity. }
  clearbody ps. split; [|split; [|split]].
  - unfold PlanningPoker.votedCount. induction Hall as [|q l [_ Hq] _ IH]; simpl; [reflexivity|].
    rewrite Hq. exact IH.
  - intros b p Hp. rewrite Forall_forall in Hall. destruct (Hall p Hp) as [Hv Hq].
    unfold PlanningPoker.cardFace. rewrite Hv, Hq. reflexivity.
  - reflexivity.
  - intros Hne. destruct Hall as [|q l [_ Hq] _]; [contradiction|].
    unfold PlanningPoker.allVoted. simpl. rewrite Hq. reflexivity.
Qed.

Lemma after_reset_every_card_is_a_dash_witness :
  healthy early /\ stored early "r1" = Some room_r1 /\
  PlanningPoker.votedCount (players room_r1) = 1%nat /\
  exists room' w',
    Redis.resetVotes "r1" early = Ok (Some room') w' /\
    PlanningPoker.votedCount (players room') = 0%nat.
Proof.
  split; [apply healthy_world_at|]. split; [reflexivity|]. split; [reflexivity|].
  destruct (after_reset_every_card_is_a_dash early "r1" room_r1
              (healthy_world_at _ _) eq_refl) as (room' & w' & H1 & H2 & _).
  exists room', w'. split; assumption.
Defined.

(* ===================================================================== *)
(** ** What requests never do, on the stand-in *)
(* ===================================================================== *)

Section MockKept.
Variables (k : string) (P : option GameState -> Prop).

Lemma mock_kept_Date_now : triple (mock_kept k P) Date_now (fun _ => True).
Proof. intros w Hw. split; [exact Hw|exact Logic.I]. Qed.

Lemma mock_kept_get r :
  mock_may_write k P r ->
  triple (mock_kept k P) (RedisMock.rooms_get (RedisMock.room_key r))
         (fun o => match o with
                   | Some g => mock_origin_ok k P r g
                   | None => RedisMock.room_key r <> k
                   end).
Proof.
  intros Hm w Hw. unfold RedisMock.rooms_get. split; [exact Hw|].
  unfold mock_kept in Hw.
  destruct (backend w !! RedisMock.room_key r) as [g|] eqn:He.
  - intros Hk. exists g. rewrite Hk in He. rewrite He in Hw.
    split; [exact Hw|split; reflexivity].
  - intros Hk. destruct Hm as [Hne|[HnN _]]; [contradiction|].
    rewrite Hk in He. rewrite He in Hw. contradiction.
Qed.

Lemma mock_kept_set r v :
  mock_may_write k P r -> mock_origin_ok k P r v ->
  triple (mock_kept k P) (RedisMock.rooms_set (RedisMock.room_key r) v) (fun _ => True).
Proof.
  intros Hm Hv w Hw. unfold RedisMock.rooms_set.
  split; [|exact Logic.I]. unfold mock_kept in *. simpl.
  destruct (decide (RedisMock.room_key r = k)) as [Hk|Hne].
  - rewrite Hk, lookup_insert_eq. destruct (Hv Hk) as (g0 & Hg0 & Ho).
    destruct Hm as [Hne|[_ Hst]]; [contradiction|]. exact (Hst g0 v Hg0 Ho).
  - rewrite lookup_insert_ne by exact Hne. exact Hw.
Qed.

Lemma mock_kept_updateRoom r st :
  mock_may_write k P r -> mock_origin_ok k P r st ->
  triple (mock_kept k P) (RedisMock.updateRoom r st) (mock_origin_ok k P r).
Proof.
  intros Hm Hst. unfold RedisMock.updateRoom.
  triple_step; [apply mock_kept_Date_now|].
  triple_step; [apply mock_kept_set; [exact Hm|exact Hst]|].
  triple_step. exact Hst.
Qed.

Lemma mock_kept_getRoom r :
  mock_may_write k P r ->
  triple (mock_kept k P) (RedisMock.getRoom r)
         (fun o => match o with
                   | Some g => mock_origin_ok k P r g
                   | None => RedisMock.room_key r <> k
                   end).
Proof.
  intros Hm. unfold RedisMock.getRoom.
  triple_step; [apply mock_kept_get; exact Hm|]. rename a into o.
  destruct o as [room|]; [|triple_step; assumption].
  triple_step; [apply mock_kept_Date_now|].
  triple_step.
  - triple_step; [apply mock_kept_updateRoom; [exact Hm|assumption]|].
    triple_step. assumption.
  - triple_step. assumption.
Qed.

Lemma mock_kept_createRoom r :
  RedisMock.room_key r <> k ->
  triple (mock_kept k P) (RedisMock.createRoom r) (mock_origin_ok k P r).
Proof.
  intros Hne. unfold RedisMock.createRoom.
  triple_step; [apply mock_kept_Date_now|].
  triple_step; [apply mock_kept_Date_now|].
  triple_step; [apply mock_kept_set; [left; exact Hne|intros Hk; contradiction]|].
  triple_step. intros Hk. contradiction.
Qed.

Lemma mock_kept_addPlayer r player :
  mock_may_write k P r ->
  triple (mock_kept k P) (RedisMock.addPlayer r player) (fun _ => True).
Proof.
  intros Hm. unfold RedisMock.addPlayer.
  triple_step; [apply mock_kept_getRoom; exact Hm|]. rename a into o.
  eapply triple_bind with (Q := mock_origin_ok k P r).
  { destruct o as [room|]; [triple_step; assumption|apply mock_kept_createRoom; assumption]. }
  intros room Hroom.
  eapply triple_weaken; [apply mock_kept_updateRoom; [exact Hm|exact Hroom]|].
  intros; exact Logic.I.
Qed.

Ltac mock_kept_map :=
  eapply triple_weaken;
  [ apply triple_mapM with (R := fun _ _ => True); intros p;
    first [ destruct (String.eqb (id p) _); [|apply triple_ret; exact Logic.I] | idtac ];
    (eapply triple_bind; [apply mock_kept_Date_now|]); intros; apply triple_ret; exact Logic.I
  | intros; exact Logic.I ].

Lemma mock_kept_updatePlayerVote r pid v :
  mock_may_write k P r ->
  triple (mock_kept k P) (RedisMock.updatePlayerVote r pid v) (fun _ => True).
Proof.
  intros Hm. unfold RedisMock.updatePlayerVote.
  triple_step; [apply mock_kept_getRoom; exact Hm|]. rename a into o.
  destruct o as [room|]; [|triple_step; exact Logic.I].
  eapply triple_bind with (Q := fun _ => True); [mock_kept_map|]. intros ps _.
  triple_step; [apply mock_kept_updateRoom; [exact Hm|assumption]|].
  triple_step. exact Logic.I.
Qed.

Lemma mock_kept_toggleReveal r :
  mock_may_write k P r ->
  triple (mock_kept k P) (RedisMock.toggleReveal r) (fun _ => True).
Proof.
  intros Hm. unfold RedisMock.toggleReveal.
  triple_step; [apply mock_kept_getRoom; exact Hm|]. rename a into o.
  destruct o as [room|]; [|triple_step; exact Logic.I].
  triple_step; [apply mock_kept_updateRoom; [exact Hm|assumption]|].
  triple_step. exact Logic.I.
Qed.

Lemma mock_kept_resetVotes r :
  mock_may_write k P r ->
  triple (mock_kept k P) (RedisMock.resetVotes r) (fun _ => True).
Proof.
  intros Hm. unfold RedisMock.resetVotes.
  triple_step; [apply mock_kept_getRoom; exact Hm|]. rename a into o.
  destruct o as [room|]; [|triple_step; exact Logic.I].
  eapply triple_bind with (Q := fun _ => True); [mock_kept_map|]. intros ps _.
  triple_step; [apply mock_kept_updateRoom; [exact Hm|assumption]|].
  triple_step. exact Logic.I.
Qed.

Lemma mock_kept_updatePlayerHeartbeat r pid :
  mock_may_write k P r ->
  triple (mock_kept k P) (RedisMock.updatePlayerHeartbeat r pid) (fun _ => True).
Proof.
  intros Hm. unfold RedisMock.updatePlayerHeartbeat.
  triple_step; [apply mock_kept_getRoom; exact Hm|]. rename a into o.
  destruct o as [room|]; [|triple_step; exact Logic.I].
  eapply triple_bind with (Q := fun _ => True); [mock_kept_map|]. intros ps _.
  triple_step; [apply mock_kept_updateRoom; [exact Hm|assumption]|].
  triple_step. exact Logic.I.
Qed.

Ltac mock_kept_call Hm :=
  lazymatch goal with
  | |- triple _ Date_now _ => apply mock_kept_Date_now
  | |- triple _ (RedisMock.getRoom _) _ => apply mock_kept_getRoom; exact Hm
  | |- triple _ (RedisMock.addPlayer _ _) _ => apply mock_kept_addPlayer; exact Hm
  | |- triple _ (RedisMock.updatePlayerVote _ _ _) _ =>
      apply mock_kept_updatePlayerVote; exact Hm
  | |- triple _ (RedisMock.toggleReveal _) _ => apply mock_kept_toggleReveal; exact Hm
  | |- triple _ (RedisMock.resetVotes _) _ => apply mock_kept_resetVotes; exact Hm
  | |- triple _ (RedisMock.updatePlayerHeartbeat _ _) _ =>
      apply mock_kept_updatePlayerHeartbeat; exact Hm
  | |- True => exact Logic.I
  | |- _ => triple_step
  end.

Lemma mock_kept_GET r :
  mock_may_write k P r ->
  triple (mock_kept k P) (Route.GET Route.mock r) (fun _ => True).
Proof.
  intros Hm. unfold Route.GET.
  cbn [Route.getRoom Route.mock]. repeat mock_kept_call Hm.
Qed.

Lemma mock_kept_POST r parsed :
  mock_may_write k P r ->
  triple (mock_kept k P) (Route.POST Route.mock r parsed) (fun _ => True).
Proof.
  intros Hm. unfold Route.POST.
  cbn [Route.addPlayer Route.updatePlayerVote Route.toggleReveal Route.resetVotes
       Route.updatePlayerHeartbeat Route.mock].
  eapply triple_bind with (Q := fun _ => True).
  { destruct parsed; [triple_step; exact Logic.I|apply triple_throw]. }
  intros body _. apply triple_try_catch; [|intros e; triple_step; exact Logic.I].
  repeat mock_kept_call Hm.
Qed.

Lemma mock_kept_handle q w :
  mock_may_write k P (room_of q) -> mock_kept k P w ->
  mock_kept k P (world_of (handle Route.mock q w)).
Proof.
  intros Hm Hw. destruct q as [r|r parsed]; unfold handle, room_of in *.
  - pose proof (mock_kept_GET r Hm w Hw) as H.
    destruct (Route.GET Route.mock r w); [apply H|exact H].
  - pose proof (mock_kept_POST r parsed Hm w Hw) as H.
    destruct (Route.POST Route.mock r parsed w); [apply H|exact H].
Qed.

End MockKept.

(** X17.  On the stand-in: a request for the room [r] leaves what the
    map holds under every other key as it was; and a room the map holds is
    still there after any sequence of requests, with the [createdAt] and
    the [roomId] it had.  Nothing ever removes a room from the map. *)
Theorem stand_in_keeps_rooms :
  (forall (w : World Rooms) q k,
      k <> RedisMock.room_key (room_of q) ->
      backend (world_of (handle Route.mock q w)) !! k = backend w !! k) /\
  (forall (w : World Rooms) qs r g,
      backend w !! RedisMock.room_key r = Some g ->
      exists g',
        backend (serve Route.mock qs w) !! RedisMock.room_key r = Some g' /\
        createdAt g' = createdAt g /\ roomId g' = roomId g).
Proof.
  split.
  - intros w q k Hne.
    apply (mock_kept_handle k (fun o => o = backend w !! k) q w).
    + left. congruence.
    + reflexivity.
  - intros w qs r g Hg.
    set (P := fun o : option GameState => exists g', o = Some g' /\ same_origin g g').
    assert (Hst : mock_origin_stable P).
    { split.
      - intros (g' & Hn & _). discriminate.
      - intros g1 g2 (g' & [= <-] & Ho1 & Ho2) [Hg1 Hg2].
        exists g2. split; [reflexivity|]. split; congruence. }
    assert (Hall : forall qs w, mock_kept (RedisMock.room_key r) P w ->
                                mock_kept (RedisMock.room_key r) P (serve Route.mock qs w)).
    { clear w Hg. intros qs'. induction qs' as [|q qs' IH]; intros w Hw; simpl; [exact Hw|].
      apply IH. apply mock_kept_handle; [right; exact Hst|exact Hw]. }
    destruct (Hall qs w) as (g' & Hg' & Ho1 & Ho2).
    + exists g. split; [exact Hg|split; reflexivity].
    + exists g'. split; [exact Hg'|]. split; assumption.
Qed.

Lemma stand_in_keeps_rooms_witness :
  ("room:r1" <> RedisMock.room_key "r2" /\
   backend (world_of (handle Route.mock
                        (Post "r2" (Some (Route.mkBody "join" "p3" "Carol" "")))
                        mock_two_rooms)) !! "room:r1" = Some room_r1) /\
  (backend mock_early !! RedisMock.room_key "r1" = Some room_r1 /\
   exists g',
     backend (serve Route.mock session mock_early) !! RedisMock.room_key "r1" = Some g' /\
     createdAt g' = 600000%Z /\ roomId g' = "r1").
Proof.
  destruct stand_in_keeps_rooms as [Hframe Hkeep].
  split.
  - split; [discriminate|].
    rewrite (Hframe mock_two_rooms
               (Post "r2" (Some (Route.mkBody "join" "p3" "Carol" ""))) "room:r1")
      by discriminate.
    reflexivity.
  - split; [reflexivity|].
    exact (Hkeep mock_early session "r1" room_r1 eq_refl).
Defined.

(* ===================================================================== *)
(** ** What a failed join leaves in the store *)
(* ===================================================================== *)

Lemma getRoom_null r (w w1 : World KV) :
  Redis.getRoom r w = Ok None w1 ->
  stored w r = None /\ data (backend w1) = data (backend w) /\
  clock w1 = clock w /\ tick w1 = tick w.
Proof.
  destruct w as [clk tk [d out c]]. unfold stored.
  unfold Redis.getRoom, Redis.updateRoom, bind, kv_get. simpl.
  destruct (out c); [discriminate|].
  destruct (d !! Redis.room_key r) as [e|]; simpl.
  - destruct (negb _); simpl; [|discriminate].
    unfold kv_set. simpl. destruct (out (S c)); discriminate.
  - intros [= <-]. repeat split; reflexivity.
Qed.

Lemma createRoom_effect r (w : World KV) :
  match Redis.createRoom r w with
  | Ok room w' =>
      room = mkGameState [] false r (clock w (tick w)) (clock w (S (tick w))) /\
      data (backend w') = <[Redis.room_key r := mkEntry room 86400]> (data (backend w))
  | Threw _ w' => data (backend w') = data (backend w)
  end.
Proof.
  destruct w as [clk tk [d out c]].
  unfold Redis.createRoom, bind, Date_now, kv_set. simpl.
  destruct (out c); simpl; [reflexivity|]. split; reflexivity.
Qed.

(** X18.  A failed join may leave an empty room.  If [addPlayer] throws,
    whichever call of the service was rejected, then either the records
    of the service are what they were, except that the room may have been
    written with exactly the players dropped that are inactive at the first
    reading of the call; or the room had no record and now has the one
    [createRoom] wrote before the write of the player failed: no players,
    not revealed, [createdAt] the first and [lastActivity] the second
    reading of the call.  The player is never stored. *)
Theorem failed_join_may_leave_an_empty_room (w w' : World KV) (r : string)
        (player : Player) (e : Exn) :
  Redis.addPlayer r player w = Threw e w' ->
  at_most_pruned r w w' \/
  (stored w r = None /\
   data (backend w') =
   <[Redis.room_key r :=
       mkEntry (mkGameState [] false r (clock w (tick w)) (clock w (S (tick w))))
               86400]> (data (backend w))).
Proof.
  intros H. unfold Redis.addPlayer in H.
  apply bind_threw in H as [H|(o & w1 & Hget & H)];
    [left; exact (failed_fetch _ _ _ _ H)|].
  apply bind_threw in H as [H|(room & w2 & Hroom & H)].
  - destruct o as [room|]; [discriminate H|].
    apply getRoom_null in Hget as (_ & Hsame & _).
    pose proof (createRoom_effect r w1) as Hc. rewrite H in Hc.
    left. left. rewrite Hc. exact Hsame.
  - apply bind_threw in H as [H|(ps & w3 & Hps & H)].
    { destruct (0 <=? _)%Z; unfold bind, Date_now, ret in H; discriminate H. }
    assert (Hb : backend w3 = backend w2).
    { destruct (0 <=? _)%Z; unfold bind, Date_now, ret in Hps;
        injection Hps as _ <-; reflexivity. }
    apply updateRoom_throws_nothing_written in H. rewrite Hb in H.
    destruct o as [room0|].
    + unfold ret in Hroom. injection Hroom as -> ->.
      left. pose proof (getRoom_at_most_prunes r w) as Hf. rewrite Hget in Hf.
      simpl in Hf. exact (at_most_pruned_then_same r w w2 w' Hf H).
    + apply getRoom_null in Hget as (Hnone & Hsame & Hclk & Htk).
      pose proof (createRoom_effect r w1) as Hc. rewrite Hroom in Hc.
      destruct Hc as (-> & Hd).
      right. split; [exact Hnone|]. rewrite H, Hd, Hsame, Hclk, Htk. reflexivity.
Qed.

Lemma failed_join_may_leave_an_empty_room_witness :
  stored (flaky 2) "r2" = None /\
  exists w',
    Redis.addPlayer "r2" carol (flaky 2) = Threw KvError w' /\
    (at_most_pruned "r2" (flaky 2) w' \/
     (stored (flaky 2) "r2" = None /\
      data (backend w') =
      <[Redis.room_key "r2" :=
          mkEntry (mkGameState [] false "r2" (clock (flaky 2) (tick (flaky 2)))
                               (clock (flaky 2) (S (tick (flaky 2))))) 86400]>
        (data (backend (flaky 2))))) /\
    exists room', stored w' "r2" = Some room' /\ players room' = [].
Proof.
  split; [reflexivity|].
  eexists. split; [vm_compute; reflexivity|]. split.
  - apply (failed_join_may_leave_an_empty_room (flaky 2) _ "r2" carol KvError).
    vm_compute. reflexivity.
  - eexists. split; reflexivity.
Defined.

(* ===================================================================== *)
(** ** The stand-in with its references against its reading by value *)
(* ===================================================================== *)

Lemma write_obj_same l g o : write_obj l g o l = g.
Proof. unfold write_obj. rewrite Nat.eqb_refl. reflexivity. Qed.

Lemma write_obj_other l g o l' : l' <> l -> write_obj l g o l' = o l'.
Proof. intros H. unfold write_obj. apply Nat.eqb_neq in H. rewrite H. reflexivity. Qed.

(** An assignment to the object held under [k] shows, by value, as a
    write under [k] and nowhere else when no object is shared. *)
Lemma fmap_write_stored (rm : gmap string nat) (ob ob' : nat -> GameState) k l g :
  (forall k1 k2 l, rm !! k1 = Some l -> rm !! k2 = Some l -> k1 = k2) ->
  rm !! k = Some l -> ob' l = g -> (forall l', l' <> l -> ob' l' = ob l') ->
  ob' <$> rm = <[k := g]> (ob <$> rm).
Proof.
  intros Hinj Hk Hg Hother. apply map_eq. intros k'. rewrite lookup_fmap.
  destruct (decide (k = k')) as [<-|Hne].
  - rewrite lookup_insert_eq, Hk. simpl. congruence.
  - rewrite lookup_insert_ne by exact Hne. rewrite lookup_fmap.
    destruct (rm !! k') as [l'|] eqn:Hl'; simpl; [|reflexivity].
    f_equal. apply Hother. intros ->. apply Hne. exact (Hinj k k' l Hk Hl').
Qed.

Lemma fmap_write_new (rm : gmap string nat) (ob ob' : nat -> GameState) k l g :
  (forall k' l', rm !! k' = Some l' -> l' <> l) ->
  ob' l = g -> (forall l', l' <> l -> ob' l' = ob l') ->
  ob' <$> <[k := l]> rm = <[k := g]> (ob <$> rm).
Proof.
  intros Hfresh Hg Hother. rewrite fmap_insert, Hg. f_equal.
  apply map_fmap_ext. intros k' l' Hl'. apply Hother. exact (Hfresh k' l' Hl').
Qed.

Lemma unshared_stored clk tk tk' rm ob ob' nx k l :
  unshared (mkWorld clk tk (mkHeap rm ob nx)) -> rm !! k = Some l ->
  unshared (mkWorld clk tk' (mkHeap (<[k := l]> rm) ob' nx)).
Proof.
  intros Hu Hk. rewrite (insert_id rm k l Hk).
  destruct Hu as [Hinj Hlt]. split; assumption.
Qed.

Section RefRuns.
Variable clk : nat -> Z.

Local Abbreviation Wh tk rm ob nx := (mkWorld clk tk (mkHeap rm ob nx)).
Local Abbreviation key := RedisMockRef.room_key.

Lemma ref_updateRoom_run tk rm ob nx r l :
  RedisMockRef.updateRoom r l (Wh tk rm ob nx) =
  Ok tt (Wh (S tk) (<[key r := l]> rm)
            (write_obj l (set_lastActivity (clk tk) (ob l)) ob) nx).
Proof. reflexivity. Qed.

Lemma ref_getRoom_run tk rm ob nx r :
  RedisMockRef.getRoom r (Wh tk rm ob nx) =
  match rm !! key r with
  | None => Ok None (Wh tk rm ob nx)
  | Some l =>
      let act := active_at (clk tk) (players (ob l)) in
      if (length act =? length (players (ob l)))%nat
      then Ok (Some l) (Wh (S tk) rm ob nx)
      else let ob1 := write_obj l (set_players act (ob l)) ob in
           Ok (Some l)
              (Wh (S (S tk)) (<[key r := l]> rm)
                  (write_obj l (set_lastActivity (clk (S tk)) (ob1 l)) ob1) nx)
  end.
Proof.
  unfold RedisMockRef.getRoom. unfold bind at 1, RedisMockRef.rooms_get. simpl.
  destruct (rm !! key r) as [l|]; [|reflexivity].
  unfold bind at 1, Date_now at 1. simpl.
  unfold bind at 1, RedisMockRef.read at 1. simpl.
  change (filter _ (players (ob l))) with (active_at (clk tk) (players (ob l))).
  destruct (length (active_at (clk tk) (players (ob l))) =? length (players (ob l)))%nat;
    reflexivity.
Qed.

End RefRuns.

(** [getRoom] with its references does what [getRoom] by value does, on a
    map that shares no object; the reference it returns is the one held
    under the key. *)
Lemma ref_getRoom_refines r (w : World Heap) :
  unshared w ->
  exists o w',
    RedisMockRef.getRoom r w = Ok o w' /\
    unshared w' /\
    RedisMock.getRoom r (view w) = Ok (objs (backend w') <$> o) (view w') /\
    (forall l, o = Some l -> rooms (backend w') !! RedisMockRef.room_key r = Some l).
Proof.
  destruct w as [clk tk [rm ob nx]]. intros Hu.
  rewrite ref_getRoom_run. unfold view. simpl.
  rewrite mock_getRoom_run, lookup_fmap.
  change (RedisMock.room_key r) with (RedisMockRef.room_key r).
  destruct (rm !! RedisMockRef.room_key r) as [l|] eqn:Hl; simpl.
  - destruct (length (active_at (clk tk) (players (ob l))) =? length (players (ob l)))%nat.
    + eexists _, _. split; [reflexivity|]. split; [exact Hu|].
      split; [reflexivity|]. simpl. intros l' [= <-]. exact Hl.
    + eexists _, _. split; [reflexivity|].
      split; [exact (unshared_stored _ _ _ _ _ _ _ _ _ Hu Hl)|]. simpl.
      rewrite !write_obj_same. split.
      * f_equal. f_equal. rewrite (insert_id rm _ l Hl).
        symmetry. apply (fmap_write_stored rm ob _ _ l); [apply Hu|exact Hl| |].
        -- apply write_obj_same.
        -- intros l' Hne. rewrite !write_obj_other by exact Hne. reflexivity.
      * intros l' [= <-]. apply lookup_insert_eq.
  - eexists _, _. split; [reflexivity|]. split; [exact Hu|].
    split; [reflexivity|]. intros l' Hl'. discriminate.
Qed.

Lemma bind_ok {W A B} (m : M W A) (k : A -> M W B) w a w1 :
  m w = Ok a w1 -> bind m k w = k a w1.
Proof. intros H. unfold bind. rewrite H. reflexivity. Qed.

(** The state after the object held under [k] was assigned to and stored
    again under [k]. *)
Lemma view_write clk tk tk' rm ob ob' nx k l g' :
  unshared (mkWorld clk tk (mkHeap rm ob nx)) -> rm !! k = Some l ->
  ob' l = g' -> (forall l', l' <> l -> ob' l' = ob l') ->
  view (mkWorld clk tk' (mkHeap (<[k := l]> rm) ob' nx)) =
  mkWorld clk tk' (<[k := g']> (ob <$> rm)) /\
  unshared (mkWorld clk tk' (mkHeap (<[k := l]> rm) ob' nx)).
Proof.
  intros Hu Hk Hg Hother. split.
  - unfold view. simpl. f_equal. rewrite (insert_id rm k l Hk).
    apply (fmap_write_stored rm ob ob' k l g'); [apply Hu|assumption..].
  - exact (unshared_stored _ _ _ _ _ _ _ _ _ Hu Hk).
Qed.

(** The state after an object that no other key holds was assigned to
    and stored under [k]. *)
Lemma view_store clk tk tk' rm ob ob' nx k l g' :
  unshared (mkWorld clk tk (mkHeap rm ob nx)) ->
  (forall k', rm !! k' = Some l -> k' = k) -> (l < nx)%nat ->
  ob' l = g' -> (forall l', l' <> l -> ob' l' = ob l') ->
  view (mkWorld clk tk' (mkHeap (<[k := l]> rm) ob' nx)) =
  mkWorld clk tk' (<[k := g']> (ob <$> rm)) /\
  unshared (mkWorld clk tk' (mkHeap (<[k := l]> rm) ob' nx)).
Proof.
  intros [Hinj Hlt] Hown Hl Hg Hother. simpl in *. split.
  - unfold view. simpl. f_equal. rewrite fmap_insert, Hg.
    apply map_eq. intros k'. destruct (decide (k = k')) as [<-|Hne].
    + rewrite !lookup_insert_eq. reflexivity.
    + rewrite !lookup_insert_ne by exact Hne. rewrite !lookup_fmap.
      destruct (rm !! k') as [l'|] eqn:Hl'; simpl; [|reflexivity].
      f_equal. apply Hother. intros ->. apply Hne. symmetry. exact (Hown k' Hl').
  - split; simpl.
    + intros k1 k2 l0 H1 H2.
      destruct (decide (k = k1)) as [<-|N1]; destruct (decide (k = k2)) as [<-|N2];
        try reflexivity.
      * rewrite lookup_insert_eq in H1. rewrite lookup_insert_ne in H2 by exact N2.
        injection H1 as <-. symmetry. exact (Hown k2 H2).
      * rewrite lookup_insert_eq in H2. rewrite lookup_insert_ne in H1 by exact N1.
        injection H2 as <-. exact (Hown k1 H1).
      * rewrite lookup_insert_ne in H1 by exact N1.
        rewrite lookup_insert_ne in H2 by exact N2. exact (Hinj k1 k2 l0 H1 H2).
    + intros k0 l0. destruct (decide (k = k0)) as [<-|N].
      * rewrite lookup_insert_eq. intros [= <-]. exact Hl.
      * rewrite lookup_insert_ne by exact N. apply Hlt.
Qed.

(** [updateRoom] handed an object that no other key holds. *)
Lemma ref_updateRoom_refines r l (w : World Heap) :
  unshared w ->
  (forall k, rooms (backend w) !! k = Some l -> k = RedisMockRef.room_key r) ->
  (l < next_ref (backend w))%nat ->
  exists w',
    RedisMockRef.updateRoom r l w = Ok tt w' /\ unshared w' /\
    RedisMock.updateRoom r (objs (backend w) l) (view w) =
    Ok (objs (backend w') l) (view w').
Proof.
  destruct w as [clk tk [rm ob nx]]. simpl. intros Hu Hown Hl.
  rewrite ref_updateRoom_run. eexists. split; [reflexivity|].
  edestruct (view_store clk tk (S tk) rm ob) as [Hv Hu'];
    [exact Hu|exact Hown|exact Hl|apply write_obj_same
    |intros l' Hne; apply write_obj_other; exact Hne|].
  split; [exact Hu'|]. rewrite Hv. unfold view. simpl.
  rewrite mock_updateRoom_run, write_obj_same. reflexivity.
Qed.

(** A new object stored under a key. *)
Lemma unshared_new clk tk tk' rm ob ob' nx k :
  unshared (mkWorld clk tk (mkHeap rm ob nx)) ->
  unshared (mkWorld clk tk' (mkHeap (<[k := nx]> rm) ob' (S nx))).
Proof.
  intros [Hinj Hlt]. simpl in *.
  assert (Hfresh : forall k' l', rm !! k' = Some l' -> l' <> nx).
  { intros k' l' Hl'. specialize (Hlt k' l' Hl'). lia. }
  split; simpl.
  - intros k1 k2 l H1 H2.
    destruct (decide (k = k1)) as [<-|N1]; destruct (decide (k = k2)) as [<-|N2];
      try reflexivity.
    + rewrite lookup_insert_eq in H1. rewrite lookup_insert_ne in H2 by exact N2.
      injection H1 as <-. exfalso. exact (Hfresh _ _ H2 eq_refl).
    + rewrite lookup_insert_eq in H2. rewrite lookup_insert_ne in H1 by exact N1.
      injection H2 as <-. exfalso. exact (Hfresh _ _ H1 eq_refl).
    + rewrite lookup_insert_ne in H1 by exact N1.
      rewrite lookup_insert_ne in H2 by exact N2. exact (Hinj k1 k2 l H1 H2).
  - intros k0 l. destruct (decide (k = k0)) as [<-|N].
    + rewrite lookup_insert_eq. intros [= <-]. lia.
    + rewrite lookup_insert_ne by exact N. intros H. specialize (Hlt k0 l H). lia.
Qed.

Lemma ref_createRoom_refines r :
  refines is_room (RedisMock.createRoom r) (RedisMockRef.createRoom r).
Proof.
  intros [clk tk [rm ob nx]] Hu.
  eexists _, _, _. split; [reflexivity|]. simpl.
  split; [exact (unshared_new _ _ _ _ _ _ _ _ Hu)|]. split.
  - unfold view. simpl. unfold RedisMock.createRoom, bind, Date_now, ret,
      RedisMock.rooms_set, set_backend. simpl. f_equal. f_equal.
    symmetry. apply (fmap_write_new rm ob); [|apply write_obj_same|].
    + intros k' l' Hl'. destruct Hu as [_ Hlt]. specialize (Hlt k' l' Hl').
      simpl in Hlt. lia.
    + intros l' Hne. apply write_obj_other. exact Hne.
  - unfold is_room. simpl. apply write_obj_same.
Qed.

Lemma ref_getRoom_ok r : refines is_room_or_null (RedisMock.getRoom r) (RedisMockRef.getRoom r).
Proof.
  intros w Hu. destruct (ref_getRoom_refines r w Hu) as (o & w' & Hr & Hu' & Hv & _).
  exists (objs (backend w') <$> o), o, w'.
  split; [exact Hr|]. split; [exact Hu'|]. split; [exact Hv|reflexivity].
Qed.

Section RefSteps.
Variable clk : nat -> Z.

Local Abbreviation Wh tk rm ob nx := (mkWorld clk tk (mkHeap rm ob nx)).

Lemma ref_read_run tk rm ob nx l :
  RedisMockRef.read l (Wh tk rm ob nx) = Ok (ob l) (Wh tk rm ob nx).
Proof. reflexivity. Qed.

Lemma ref_assign_run tk rm ob nx l f :
  RedisMockRef.assign l f (Wh tk rm ob nx) =
  Ok tt (Wh tk rm (write_obj l (f (ob l)) ob) nx).
Proof. reflexivity. Qed.

End RefSteps.

(** What the calls that fetch a room, assign to it and store it again
    share: after the fetch the object sits under the key, and the
    assignments made to it show by value as the one write of
    [updateRoom]. *)
Ltac ref_fetch r w Hu :=
  let o := fresh "o" in let w1 := fresh "w1" in
  let Hr := fresh "Hr" in let Hu1 := fresh "Hu1" in
  let Hv := fresh "Hv" in let Hk := fresh "Hk" in
  destruct (ref_getRoom_refines r w Hu) as (o & w1 & Hr & Hu1 & Hv & Hk);
  rewrite (bind_ok _ _ _ _ _ Hr), (bind_ok _ _ _ _ _ Hv);
  clear Hr Hv;
  destruct o as [l|];
  [specialize (Hk l eq_refl); destruct w1 as [clk tk [rm ob nx]];
   cbn [fmap option_fmap option_map clock tick backend rooms objs] in *
  |eexists _, _, _; split; [reflexivity|]; split; [exact Hu1|];
   split; reflexivity].

Ltac ref_objs :=
  repeat first [rewrite write_obj_same
               |rewrite write_obj_other by assumption].

Lemma ref_toggleReveal_refines r :
  refines is_room_or_null (RedisMock.toggleReveal r) (RedisMockRef.toggleReveal r).
Proof.
  intros w Hu. unfold RedisMock.toggleReveal, RedisMockRef.toggleReveal.
  ref_fetch r w Hu.
  set (g1 := set_revealed (negb (revealed (ob l))) (ob l)).
  set (ob1 := write_obj l g1 ob).
  set (ob2 := write_obj l (set_lastActivity (clk tk) (ob1 l)) ob1).
  destruct (view_write clk tk (S tk) rm ob ob2 nx _ l (set_lastActivity (clk tk) g1) Hu1 Hk)
    as [Hv' Hu'].
  { unfold ob2, ob1. ref_objs. reflexivity. }
  { intros l' Hne. unfold ob2, ob1. ref_objs. reflexivity. }
  exists (Some (set_lastActivity (clk tk) g1)), (Some l),
    (mkWorld clk (S tk) (mkHeap (<[RedisMockRef.room_key r := l]> rm) ob2 nx)).
  split; [reflexivity|]. split; [exact Hu'|]. split.
  - rewrite Hv'. reflexivity.
  - unfold is_room_or_null. simpl. unfold ob2, ob1. ref_objs. reflexivity.
Qed.

Lemma ref_updatePlayerVote_refines r pid v :
  refines is_room_or_null (RedisMock.updatePlayerVote r pid v)
          (RedisMockRef.updatePlayerVote r pid v).
Proof.
  intros w Hu. unfold RedisMock.updatePlayerVote, RedisMockRef.updatePlayerVote.
  ref_fetch r w Hu.
  set (sel := fun p => String.eqb (id p) pid).
  set (ps := stamp sel (cast_vote v) clk tk (players (ob l))).
  set (tk1 := (tk + hits sel (players (ob l)))%nat).
  set (ob1 := write_obj l (set_players ps (ob l)) ob).
  set (ob2 := write_obj l (set_lastActivity (clk tk1) (ob1 l)) ob1).
  set (g' := set_lastActivity (clk tk1) (set_players ps (ob l))).
  destruct (view_write clk tk (S tk1) rm ob ob2 nx _ l g' Hu1 Hk) as [Hv' Hu'].
  { unfold ob2, ob1. ref_objs. reflexivity. }
  { intros l' Hne. unfold ob2, ob1. ref_objs. reflexivity. }
  exists (Some g'), (Some l),
    (mkWorld clk (S tk1) (mkHeap (<[RedisMockRef.room_key r := l]> rm) ob2 nx)).
  split; [|split; [exact Hu'|split]].
  - rewrite (bind_ok _ _ _ _ _ (ref_read_run _ _ _ _ _ _)).
    rewrite (bind_ok _ _ _ _ _ (mapM_stamp sel (cast_vote v) _ _ _ (fun _ _ => eq_refl))).
    reflexivity.
  - rewrite Hv'.
    rewrite (bind_ok _ _ _ _ _ (mapM_stamp sel (cast_vote v) _ _ _ (fun _ _ => eq_refl))).
    reflexivity.
  - unfold is_room_or_null. simpl. unfold ob2, ob1. ref_objs. reflexivity.
Qed.

Lemma ref_resetVotes_refines r :
  refines is_room_or_null (RedisMock.resetVotes r) (RedisMockRef.resetVotes r).
Proof.
  intros w Hu. unfold RedisMock.resetVotes, RedisMockRef.resetVotes.
  ref_fetch r w Hu.
  set (sel := fun _ : Player => true).
  set (ps := stamp sel clear_vote clk tk (players (ob l))).
  set (tk1 := (tk + hits sel (players (ob l)))%nat).
  set (ob1 := write_obj l (set_players ps (ob l)) ob).
  set (ob2 := write_obj l (set_revealed false (ob1 l)) ob1).
  set (ob3 := write_obj l (set_lastActivity (clk tk1) (ob2 l)) ob2).
  set (g' := set_lastActivity (clk tk1) (set_revealed false (set_players ps (ob l)))).
  destruct (view_write clk tk (S tk1) rm ob ob3 nx _ l g' Hu1 Hk) as [Hv' Hu'].
  { unfold ob3, ob2, ob1. ref_objs. reflexivity. }
  { intros l' Hne. unfold ob3, ob2, ob1. ref_objs. reflexivity. }
  exists (Some g'), (Some l),
    (mkWorld clk (S tk1) (mkHeap (<[RedisMockRef.room_key r := l]> rm) ob3 nx)).
  split; [|split; [exact Hu'|split]].
  - rewrite (bind_ok _ _ _ _ _ (ref_read_run _ _ _ _ _ _)).
    rewrite (bind_ok _ _ _ _ _ (mapM_stamp sel clear_vote _ _ _ (fun _ _ => eq_refl))).
    reflexivity.
  - rewrite Hv'.
    rewrite (bind_ok _ _ _ _ _ (mapM_stamp sel clear_vote _ _ _ (fun _ _ => eq_refl))).
    reflexivity.
  - unfold is_room_or_null. simpl. unfold ob3, ob2, ob1. ref_objs. reflexivity.
Qed.

Lemma ref_updatePlayerHeartbeat_refines r pid :
  refines (fun _ _ _ => True) (RedisMock.updatePlayerHeartbeat r pid)
          (RedisMockRef.updatePlayerHeartbeat r pid).
Proof.
  intros w Hu. unfold RedisMock.updatePlayerHeartbeat, RedisMockRef.updatePlayerHeartbeat.
  ref_fetch r w Hu.
  set (sel := fun p => String.eqb (id p) pid).
  set (ps := stamp sel set_lastSeen clk tk (players (ob l))).
  set (tk1 := (tk + hits sel (players (ob l)))%nat).
  set (ob1 := write_obj l (set_players ps (ob l)) ob).
  set (ob2 := write_obj l (set_lastActivity (clk tk1) (ob1 l)) ob1).
  set (g' := set_lastActivity (clk tk1) (set_players ps (ob l))).
  destruct (view_write clk tk (S tk1) rm ob ob2 nx _ l g' Hu1 Hk) as [Hv' Hu'].
  { unfold ob2, ob1. ref_objs. reflexivity. }
  { intros l' Hne. unfold ob2, ob1. ref_objs. reflexivity. }
  exists tt, tt,
    (mkWorld clk (S tk1) (mkHeap (<[RedisMockRef.room_key r := l]> rm) ob2 nx)).
  split; [|split; [exact Hu'|split]].
  - rewrite (bind_ok _ _ _ _ _ (ref_read_run _ _ _ _ _ _)).
    rewrite (bind_ok _ _ _ _ _ (mapM_stamp sel set_lastSeen _ _ _ (fun _ _ => eq_refl))).
    reflexivity.
  - rewrite Hv'.
    rewrite (bind_ok _ _ _ _ _ (mapM_stamp sel set_lastSeen _ _ _ (fun _ _ => eq_refl))).
    reflexivity.
  - exact I.
Qed.

(** [addPlayer] from the point where it holds the room: the assignment
    into the array and the store show by value as the one write of
    [updateRoom]. *)
Lemma ref_addPlayer_tail r player l (w1 : World Heap) :
  unshared w1 -> rooms (backend w1) !! RedisMockRef.room_key r = Some l ->
  exists w',
    (g <- RedisMockRef.read l ;;
     (if (0 <=? findIndex (fun p => String.eqb (id p) (id player)) (players g))%Z
      then RedisMockRef.assign l
             (fun g0 => set_players
                (<[Z.to_nat (findIndex (fun p => String.eqb (id p) (id player)) (players g))
                   := player]> (players g0)) g0)
      else RedisMockRef.assign l
             (fun g0 => set_players (players g0 ++ [player])%list g0)) ;;;
     RedisMockRef.updateRoom r l ;;;
     ret l) w1 = Ok l w' /\
    unshared w' /\
    rooms (backend w') !! RedisMockRef.room_key r = Some l /\
    (let room := objs (backend w1) l in
     let existingIndex :=
       findIndex (fun p => String.eqb (id p) (id player)) (players room) in
     RedisMock.updateRoom r
       (set_players (if (0 <=? existingIndex)%Z
                     then <[Z.to_nat existingIndex := player]> (players room)
                     else (players room ++ [player])%list) room)) (view w1) =
    Ok (objs (backend w') l) (view w').
Proof.
  destruct w1 as [clk tk [rm ob nx]]. cbn [backend rooms objs]. intros Hu1 Hk.
  rewrite (bind_ok _ _ _ _ _ (ref_read_run _ _ _ _ _ _)).
  set (idx := findIndex (fun p => String.eqb (id p) (id player)) (players (ob l))).
  set (ps := if (0 <=? idx)%Z then <[Z.to_nat idx := player]> (players (ob l))
             else (players (ob l) ++ [player])%list).
  set (ob1 := write_obj l (set_players ps (ob l)) ob).
  set (ob2 := write_obj l (set_lastActivity (clk tk) (ob1 l)) ob1).
  set (g' := set_lastActivity (clk tk) (set_players ps (ob l))).
  destruct (view_write clk tk (S tk) rm ob ob2 nx _ l g' Hu1 Hk) as [Hv' Hu'].
  { unfold ob2, ob1. ref_objs. reflexivity. }
  { intros l' Hne. unfold ob2, ob1. ref_objs. reflexivity. }
  exists (mkWorld clk (S tk) (mkHeap (<[RedisMockRef.room_key r := l]> rm) ob2 nx)).
  split; [|split; [exact Hu'|split; [apply lookup_insert_eq|]]].
  - unfold ob2, ob1, ps. destruct (0 <=? idx)%Z; reflexivity.
  - rewrite Hv'. cbn [backend objs]. unfold ob2, ob1. ref_objs. reflexivity.
Qed.

(** A join with the references is a join by value, and the object it
    returns is the one held under the key. *)
Lemma ref_addPlayer_stored r player (w : World Heap) :
  unshared w ->
  exists l w',
    RedisMockRef.addPlayer r player w = Ok l w' /\ unshared w' /\
    rooms (backend w') !! RedisMockRef.room_key r = Some l /\
    RedisMock.addPlayer r player (view w) = Ok (objs (backend w') l) (view w').
Proof.
  intros Hu. unfold RedisMockRef.addPlayer, RedisMock.addPlayer.
  destruct (ref_getRoom_refines r w Hu) as (o & w1 & Hr & Hu1 & Hv & Hk).
  rewrite (bind_ok _ _ _ _ _ Hr), (bind_ok _ _ _ _ _ Hv). clear Hr Hv.
  destruct o as [l|]; cbn [fmap option_fmap option_map].
  - specialize (Hk l eq_refl).
    destruct (ref_addPlayer_tail r player l w1 Hu1 Hk) as (w' & Hr & Hu' & Hk' & Hv).
    exists l, w'. split; [exact Hr|]. split; [exact Hu'|]. split; [exact Hk'|exact Hv].
  - clear Hk. destruct w1 as [clk tk [rm ob nx]].
    set (g0 := mkGameState [] false r (clk tk) (clk (S tk))).
    set (w2 := mkWorld clk (S (S tk))
                 (mkHeap (<[RedisMockRef.room_key r := nx]> rm) (write_obj nx g0 ob) (S nx))).
    assert (Hu2 : unshared w2) by exact (unshared_new _ _ _ _ _ _ _ _ Hu1).
    assert (Hk2 : rooms (backend w2) !! RedisMockRef.room_key r = Some nx)
      by apply lookup_insert_eq.
    assert (Hc : RedisMock.createRoom r (view (mkWorld clk tk (mkHeap rm ob nx))) =
                 Ok (objs (backend w2) nx) (view w2)).
    { destruct (ref_createRoom_refines r _ Hu1) as (a & b & w' & Hr & _ & Hv & HR).
      change (RedisMockRef.createRoom r (mkWorld clk tk (mkHeap rm ob nx)))
        with (Ok (A := nat) nx w2) in Hr.
      injection Hr as <- <-. rewrite Hv. unfold is_room in HR. rewrite HR. reflexivity. }
    assert (Hc' : RedisMockRef.createRoom r (mkWorld clk tk (mkHeap rm ob nx)) = Ok nx w2)
      by reflexivity.
    rewrite (bind_ok _ _ _ _ _ Hc'), (bind_ok _ _ _ _ _ Hc).
    destruct (ref_addPlayer_tail r player nx w2 Hu2 Hk2) as (w' & Hr & Hu' & Hk' & Hv).
    exists nx, w'. split; [exact Hr|]. split; [exact Hu'|]. split; [exact Hk'|exact Hv].
Qed.

Lemma ref_addPlayer_refines r player :
  refines is_room (RedisMock.addPlayer r player) (RedisMockRef.addPlayer r player).
Proof.
  intros w Hu.
  destruct (ref_addPlayer_stored r player w Hu) as (l & w' & Hr & Hu' & _ & Hv).
  exists (objs (backend w') l), l, w'.
  split; [exact Hr|]. split; [exact Hu'|]. split; [exact Hv|reflexivity].
Qed.

(* ===================================================================== *)
(** ** The stand-in, as the program has it, against the durable backend *)
(* ===================================================================== *)

Lemma alike {A B} (R : World Heap -> A -> B -> Prop) m1 m_val m_ref :
  simulates m1 m_val -> refines R m_val m_ref -> answers_alike R m1 m_ref.
Proof.
  intros Hsim Href wr wm [Hag Hu].
  destruct (Href wm Hu) as (a & b & wm' & Hr & Hu' & Hv & HR).
  specialize (Hsim wr (view wm) Hag). rewrite Hv in Hsim. unfold agree_out in Hsim.
  destruct (m1 wr) as [a' wr'|e wr']; [|contradiction].
  destruct Hsim as [-> Hag'].
  exists a, wr', b, wm'. split; [reflexivity|]. split; [exact Hr|].
  split; [exact HR|]. split; assumption.
Qed.

Lemma agree_ref_early : agree_ref early heap_early.
Proof.
  split.
  - unfold view, heap_early. simpl. rewrite map_fmap_singleton. apply agree_single.
  - split; simpl.
    + intros k1 k2 l H1 H2.
      apply lookup_singleton_Some in H1 as [<- _].
      apply lookup_singleton_Some in H2 as [<- _]. reflexivity.
    + intros k l H. apply lookup_singleton_Some in H as [_ <-]. lia.
Qed.

Lemma agree_ref_empty t : agree_ref (world_at t ∅) (heap_at t).
Proof.
  split.
  - unfold view, heap_at. simpl. rewrite fmap_empty. apply agree_empty.
  - split; simpl; intros *; rewrite lookup_empty; discriminate.
Qed.

(** C8, as the code has it.  The stand-in keeps room objects by
    reference, the durable backend keeps copies.  From worlds that agree
    (same clock, a service that answers, under every key the same room,
    no room object of the stand-in held under two keys), [getRoom],
    [createRoom], [updatePlayerVote], [toggleReveal], [resetVotes] and
    [updatePlayerHeartbeat] return in both implementations, return the
    same (null in both, or the same room), and leave worlds that agree;
    so does [updateRoom] when the object it is handed is held under no
    other key.  [addPlayer] on the stand-in keeps the map free of shared
    objects.  On the durable backend every write gives the record 86400
    seconds to live; the stand-in keeps no time to live. *)
Theorem stand_in_agrees_until_expiry :
  (forall r, answers_alike is_room_or_null (Redis.getRoom r) (RedisMockRef.getRoom r)) /\
  (forall r, answers_alike is_room (Redis.createRoom r) (RedisMockRef.createRoom r)) /\
  (forall r l (wr : World KV) (wm : World Heap),
      agree_ref wr wm ->
      (forall k, rooms (backend wm) !! k = Some l -> k = RedisMockRef.room_key r) ->
      (l < next_ref (backend wm))%nat ->
      exists g wr' wm',
        Redis.updateRoom r (objs (backend wm) l) wr = Ok g wr' /\
        RedisMockRef.updateRoom r l wm = Ok tt wm' /\
        is_room wm' g l /\ agree_ref wr' wm') /\
  (forall r pid v,
      answers_alike is_room_or_null (Redis.updatePlayerVote r pid v)
                    (RedisMockRef.updatePlayerVote r pid v)) /\
  (forall r,
      answers_alike is_room_or_null (Redis.toggleReveal r) (RedisMockRef.toggleReveal r)) /\
  (forall r,
      answers_alike is_room_or_null (Redis.resetVotes r) (RedisMockRef.resetVotes r)) /\
  (forall r pid,
      answers_alike (fun _ _ _ => True) (Redis.updatePlayerHeartbeat r pid)
                    (RedisMockRef.updatePlayerHeartbeat r pid)) /\
  (forall r player (w : World Heap),
      unshared w ->
      exists l w', RedisMockRef.addPlayer r player w = Ok l w' /\ unshared w') /\
  (forall (w : World KV) r st,
      healthy w ->
      exists g w', Redis.updateRoom r st w = Ok g w' /\
                   data (backend w') !! Redis.room_key r = Some (mkEntry g 86400)) /\
  (forall (w : World KV) r,
      healthy w ->
      exists g w', Redis.createRoom r w = Ok g w' /\
                   data (backend w') !! Redis.room_key r = Some (mkEntry g 86400)).
Proof.
  split; [|split; [|split; [|split; [|split; [|split; [|split; [|split; [|split]]]]]]]].
  - intros r. exact (alike _ _ _ _ (sim_getRoom r) (ref_getRoom_ok r)).
  - intros r. exact (alike _ _ _ _ (sim_createRoom r) (ref_createRoom_refines r)).
  - intros r l wr wm [Hag Hu] Hown Hl.
    destruct (ref_updateRoom_refines r l wm Hu Hown Hl) as (wm' & Hr & Hu' & Hv).
    pose proof (sim_updateRoom r (objs (backend wm) l) wr (view wm) Hag) as Hsim.
    rewrite Hv in Hsim. unfold agree_out in Hsim.
    destruct (Redis.updateRoom r (objs (backend wm) l) wr) as [g wr'|e wr'];
      [|contradiction].
    destruct Hsim as [-> Hag'].
    exists (objs (backend wm') l), wr', wm'. split; [reflexivity|].
    split; [exact Hr|]. split; [reflexivity|]. split; assumption.
  - intros r pid v.
    exact (alike _ _ _ _ (sim_updatePlayerVote r pid v) (ref_updatePlayerVote_refines r pid v)).
  - intros r. exact (alike _ _ _ _ (sim_toggleReveal r) (ref_toggleReveal_refines r)).
  - intros r. exact (alike _ _ _ _ (sim_resetVotes r) (ref_resetVotes_refines r)).
  - intros r pid.
    exact (alike _ _ _ _ (sim_updatePlayerHeartbeat r pid)
                 (ref_updatePlayerHeartbeat_refines r pid)).
  - intros r player w Hu.
    destruct (ref_addPlayer_stored r player w Hu) as (l & w' & Hr & Hu' & _).
    exists l, w'. split; assumption.
  - intros [clk tk [d out c]] r st Hh. unfold healthy in Hh. simpl in Hh.
    rewrite (updateRoom_run clk out Hh). eexists _, _. split; [reflexivity|].
    simpl. apply lookup_insert_eq.
  - intros [clk tk [d out c]] r Hh. unfold healthy in Hh. simpl in Hh.
    rewrite (createRoom_run clk out Hh). eexists _, _. split; [reflexivity|].
    simpl. apply lookup_insert_eq.
Qed.

Lemma stand_in_agrees_until_expiry_witness :
  agree_ref early heap_early /\
  (exists a wr' b wm',
      Redis.updatePlayerVote "r1" "p1" "5" early = Ok a wr' /\
      RedisMockRef.updatePlayerVote "r1" "p1" "5" heap_early = Ok b wm' /\
      is_room_or_null wm' a b /\ agree_ref wr' wm') /\
  (exists g wr' wm',
      Redis.updateRoom "r1" (objs (backend heap_early) 0%nat) early = Ok g wr' /\
      RedisMockRef.updateRoom "r1" 0%nat heap_early = Ok tt wm' /\
      is_room wm' g 0%nat /\ agree_ref wr' wm').
Proof.
  destruct stand_in_agrees_until_expiry as (_ & _ & Hupd & Hvote & _).
  split; [exact agree_ref_early|]. split.
  - exact (Hvote "r1" "p1" "5" early heap_early agree_ref_early).
  - apply (Hupd "r1" 0%nat early heap_early agree_ref_early).
    + intros k H. simpl in H. apply lookup_singleton_Some in H as [<- _]. reflexivity.
    + simpl. lia.
Defined.

(** C8 as it is worded fails three times.  [addPlayer]: from worlds that
    agree, the durable backend stamps the new player with the clock
    (910000), the stand-in stores the [lastSeen] it was handed (5).
    Expiry: after [createRoom] the worlds agree; 86400 seconds later the
    durable backend has dropped the room and [getRoom] returns null, while
    the stand-in still returns it.  [updateRoom]: handed, under the id
    "b", the room that [createRoom] returned for "a", the stand-in holds
    one object under both keys and the durable backend two copies; after
    [toggleReveal] of "a", [getRoom] of "b" returns a revealed room on
    the stand-in and a hidden one on the durable backend. *)
Lemma stand_in_differs :
  (agree_ref early heap_early /\
   exists g1 w1 l w2,
     Redis.addPlayer "r1" carol early = Ok g1 w1 /\
     RedisMockRef.addPlayer "r1" carol heap_early = Ok l w2 /\
     players g1 = [alice; bob; mkPlayer "p3" "Carol" None false 910000] /\
     players (objs (backend w2) l) = [alice; bob; mkPlayer "p3" "Carol" None false 5]) /\
  (agree_ref (world_at 0 ∅) (heap_at 0) /\
   exists g wr l wm wr' l' wm',
     Redis.createRoom "r9" (world_at 0 ∅) = Ok g wr /\
     RedisMockRef.createRoom "r9" (heap_at 0) = Ok l wm /\
     agree_ref wr wm /\
     Redis.getRoom "r9" (set_backend (kv_elapse 86400 (backend wr)) wr) = Ok None wr' /\
     RedisMockRef.getRoom "r9" wm = Ok (Some l') wm') /\
  (agree_ref (world_at 0 ∅) (heap_at 0) /\
   exists g wr l wm,
     (a <- Redis.createRoom "a" ;;
      a <- Redis.updateRoom "b" a ;;
      Redis.toggleReveal "a" ;;;
      Redis.getRoom "b") (world_at 0 ∅) = Ok (Some g) wr /\
     (a <- RedisMockRef.createRoom "a" ;;
      RedisMockRef.updateRoom "b" a ;;;
      RedisMockRef.toggleReveal "a" ;;;
      RedisMockRef.getRoom "b") (heap_at 0) = Ok (Some l) wm /\
     revealed g = false /\
     revealed (objs (backend wm) l) = true).
Proof.
  split; [|split].
  - split; [exact agree_ref_early|]. eexists _, _, _, _.
    split; [vm_compute; reflexivity|]. split; [vm_compute; reflexivity|].
    split; reflexivity.
  - split; [apply agree_ref_empty|].
    destruct (alike _ _ _ _ (sim_createRoom "r9") (ref_createRoom_refines "r9")
                    _ _ (agree_ref_empty 0)) as (g & wr & l & wm & H1 & H2 & _ & Hag).
    exists g, wr, l, wm.
    vm_compute in H1. injection H1 as <- <-.
    vm_compute in H2. injection H2 as <- <-.
    eexists _, _, _. split; [reflexivity|]. split; [reflexivity|].
    split; [exact Hag|]. split; vm_compute; reflexivity.
  - split; [apply agree_ref_empty|]. eexists _, _, _, _.
    split; [vm_compute; reflexivity|]. split; [vm_compute; reflexivity|].
    split; reflexivity.
Qed.
